(** * RALI master graph and the WarpAffine kernel binding

    A shallow embedding of [rali/source/master_graph.cpp] (the [MasterGraph]
    orchestrator: build / run / release, the output copies and the
    loader bookkeeping) and of the callbacks of the vx_rpp WarpAffine
    kernel binding ([validateWarpAffine], [processWarpAffine],
    [initializeWarpAffine]), together with the properties the
    specification states about them and further properties of the code. *)

From Stdlib Require Import ZArith List String Lia Bool.
From Stdlib Require Import Floats.SpecFloat.
From stdpp Require Import base option list gmap strings.

Local Open Scope Z_scope.

(** ** Machine integers *)

Module MachineInt.

(** An unsigned [bits]-wide value: arithmetic is written on [Z] and reduced
    modulo [2^bits] wherever the C++ expression has that width. *)
Definition wrap (bits x : Z) : Z := x mod 2 ^ bits.

(** Conversion to [size_t] (64 bits on the LP64 targets RALI builds for). *)
Definition to_size_t (x : Z) : Z := wrap 64 x.

(** Conversion to [unsigned] (32 bits). *)
Definition to_unsigned (x : Z) : Z := wrap 32 x.

(** Conversion to [int] (32 bits, two's complement). *)
Definition to_int (x : Z) : Z := (x + 2 ^ 31) mod 2 ^ 32 - 2 ^ 31.

Definition SIZE_MAX : Z := 2 ^ 64 - 1.

End MachineInt.
Import MachineInt.

(** ** Single-precision floats

    [float] in the source is IEEE binary32; the Standard Library's
    [SpecFloat] gives its arithmetic for precision 24 and exponent bound 128
    (round to nearest, ties to even). *)

Module Float32.

Definition float : Type := spec_float.
Definition prec : Z := 24.
Definition emax : Z := 128.

Definition fadd (x y : float) : float := SFadd prec emax x y.
Definition fmul (x y : float) : float := SFmul prec emax x y.

(** [(float)b] for an [unsigned char] [b]: every byte value is exactly
    representable. *)
Definition float_of_uchar (b : Byte.byte) : float :=
  binary_normalize prec emax (Z.of_N (Byte.to_N b)) 0 false.

Definition float_of_Z (z : Z) : float := binary_normalize prec emax z 0 false.

End Float32.
Import Float32.

(** ** Results of calls

    A C++ call returns, throws (the [THROW] macro raises an exception
    carrying a message), has undefined behaviour (a read outside a buffer,
    a pointer deleted twice), or keeps looping; the last is seen in the
    model as the loop fuel running out. *)

Inductive outcome (A : Type) : Type :=
| Ok (a : A)
| Throw (what : string)
| Undefined
| OutOfFuel.
Arguments Ok {A} a.
Arguments Throw {A} what.
Arguments Undefined {A}.
Arguments OutOfFuel {A}.

Definition is_Ok {A} (o : outcome A) : bool :=
  match o with Ok _ => true | _ => false end.

Definition outcome_bind {A B} (o : outcome A) (f : A -> outcome B) : outcome B :=
  match o with
  | Ok a => f a
  | Throw w => Throw w
  | Undefined => Undefined
  | OutOfFuel => OutOfFuel
  end.

(** ** Enumerations of the RALI headers *)

Inductive RaliMemType := OCL | HOST.
Inductive RaliAffinity := GPU | CPU.
Inductive RaliTensorFormat := NHWC | NCHW.

(** [MasterGraph::Status]: the two values the source file returns. *)
Inductive Status := OK | NOT_IMPLEMENTED.

(** [LoaderModuleStatus]: [OK], or any other enumerator (kept by number). *)
Inductive LoaderModuleStatus := LoaderModuleStatus_OK | LoaderModuleStatus_other (code : nat).

(** [ImageInfo::Type]: [UNKNOWN], or any other enumerator. *)
Inductive ImageInfo_Type := Type_UNKNOWN | Type_other (code : nat).

(** [RaliColorFormat], kept by enumerator number. *)
Definition RaliColorFormat : Type := nat.

#[global] Instance RaliMemType_eq_dec : EqDecision RaliMemType.
Proof. solve_decision. Defined.
#[global] Instance RaliAffinity_eq_dec : EqDecision RaliAffinity.
Proof. solve_decision. Defined.
#[global] Instance RaliTensorFormat_eq_dec : EqDecision RaliTensorFormat.
Proof. solve_decision. Defined.
#[global] Instance Status_eq_dec : EqDecision Status.
Proof. solve_decision. Defined.
#[global] Instance LoaderModuleStatus_eq_dec : EqDecision LoaderModuleStatus.
Proof. solve_decision. Defined.
#[global] Instance ImageInfo_Type_eq_dec : EqDecision ImageInfo_Type.
Proof. solve_decision. Defined.

(** ** ImageInfo and Image *)

Record ImageInfo := mkImageInfo {
  width : Z;
  height_batch : Z;
  color_plane_count : Z;
  color_format : RaliColorFormat;
  mem_type : RaliMemType;
  type : ImageInfo_Type
}.

(** Modelled from the spec: [operator==] on [ImageInfo] is declared with the
    class, outside this source file. The specification compares two
    descriptors on width, batch height, plane count and colour format. *)
Definition ImageInfo_eqb (a b : ImageInfo) : bool :=
  (width a =? width b) && (height_batch a =? height_batch b)
  && (color_plane_count a =? color_plane_count b)
  && Nat.eqb (color_format a) (color_format b).

(** An [Image] object: its descriptor and the bytes of its backing buffer
    (host memory or the device buffer behind the [cl_mem] handle). *)
Record Image := mkImage {
  info : ImageInfo;
  buffer : list Byte.byte
}.

(** [Image*]: the address of a heap-allocated [Image]. *)
Definition ptr : Type := positive.
(** The [Image] objects that are alive, by address. *)
Abbreviation Images := (gmap positive Image).

Definition cl_mem : Type := positive.
Definition vx_context : Type := positive.

(** [vx_status]: the enumerators the sources name, or any other. *)
Inductive vx_status :=
| VX_SUCCESS
| VX_FAILURE
| VX_ERROR_INVALID_TYPE
| VX_ERROR_INVALID_VALUE
| VX_ERROR_other (code : Z).

(** [vx_df_image]: the image formats the sources name, or any other
    four-character code. *)
Inductive vx_df_image :=
| VX_DF_IMAGE_VIRT
| VX_DF_IMAGE_U8
| VX_DF_IMAGE_RGB
| VX_DF_IMAGE_other (fourcc : Z).

(** [vx_enum] values of [VX_SCALAR_TYPE]. *)
Inductive vx_type :=
| VX_TYPE_INT32
| VX_TYPE_FLOAT32
| VX_TYPE_other (code : Z).

#[global] Instance vx_status_eq_dec : EqDecision vx_status.
Proof. solve_decision. Defined.
#[global] Instance vx_df_image_eq_dec : EqDecision vx_df_image.
Proof. solve_decision. Defined.
#[global] Instance vx_type_eq_dec : EqDecision vx_type.
Proof. solve_decision. Defined.

(** [ImageBufferAllocation], the second argument of
    [Image::create_from_handle]. *)
Inductive ImageBufferAllocation := external | none.

(** ** Observable calls

    Every call the orchestrator makes on a collaborator (parameter factory,
    timers, loader modules, graph, nodes, OpenVX and OpenCL runtimes, the
    heap) is recorded, in program order. *)

Inductive Timer := ProcessTime | ConvertTime.

Inductive Event :=
| EvRenewParameters
| EvTimerStart (t : Timer)
| EvTimerEnd (t : Timer)
| EvLoadNext (i : nat)
| EvGraphCreate
| EvCreateVirtual (p : ptr)
| EvNodeCreate (i : nat)
| EvGraphVerify
| EvGraphProcess
| EvNodeUpdateParameters (i : nat)
| EvGraphRelease
| EvReleaseContext (c : vx_context)
| EvLog (msg : string)
| EvNewImage (p : ptr)
| EvDeleteImage (p : ptr)
| EvClCreateBuffer (size : Z)
| EvClReleaseMemObject (m : cl_mem)
| EvCopyData (p : ptr) (dest : Z) (sync : bool)
| EvMemcpy (dest : Z) (p : ptr) (size : Z).

#[global] Instance Timer_eq_dec : EqDecision Timer.
Proof. solve_decision. Defined.
#[global] Instance Event_eq_dec : EqDecision Event.
Proof. solve_decision. Defined.

(** ** Collaborator interfaces

    The loader modules, the processing nodes and the [Graph] wrapper are
    classes declared outside this source file; the orchestrator only calls
    their methods. Each interface lists the methods called, acting on the
    object's own state and, where the method touches image buffers, on the
    live images. *)

Class LoaderModule (L : Type) := {
  load_next : L -> Images -> LoaderModuleStatus * L * Images;
  reset : L -> L;
  count : L -> Z
}.

Class Graph (G : Type) := {
  (** [std::make_shared<Graph>(context, affinity, cpu_id, gpu_id)] *)
  Graph_make : option vx_context -> RaliAffinity -> Z -> Z -> outcome G;
  Graph_verify : G -> Images -> outcome (G * Images);
  Graph_process : G -> Images -> outcome (G * Images);
  Graph_release : G -> G
}.

Class Node (N G : Type) := {
  output : N -> list ptr;
  create : N -> G -> outcome (N * G);
  node_update_parameters : N -> N
}.

(** The OpenVX / OpenCL runtime and the [Image] methods the orchestrator
    relies on. *)
Class Runtime (G : Type) := {
  (** [vxReleaseContext(&ctx)]: the status returned; as the OpenVX API
      states, the handle is zeroed when the call succeeds. *)
  vxReleaseContext : vx_context -> vx_status;
  (** [clCreateBuffer(..., size, ...)] given the live device buffers: the
      new handle, or [None] for a null handle or an error code. *)
  clCreateBuffer : gmap positive Z -> Z -> option cl_mem;
  (** [Image::create_virtual(context, graph)] *)
  create_virtual : Image -> option vx_context -> G -> Image;
  (** [Image::create_from_handle(context, allocation)]: the status and the
      image afterwards. *)
  create_from_handle :
    Image -> option vx_context -> ImageBufferAllocation -> Z * Image;
  (** The device branch of [copy_out_tensor]: the [copyInt8ToNHWC] /
      [copyInt8ToNCHW] kernel launches of the [utility] program, one per
      output image, and the blocking read of the staging tensor into
      [out_ptr]. The kernels are not part of this source file. *)
  ocl_copy_out_tensor :
    list Image -> option cl_mem -> RaliTensorFormat ->
    float * float * float -> float * float * float -> bool ->
    gmap Z float -> outcome (gmap Z float)
}.

(** ** The MasterGraph object *)

Section MasterGraphModel.

Context {L N G : Type}.
Context `{!LoaderModule L} `{!Graph G} `{!Node N G} `{!Runtime G}.

(** The width in bits of the integer type that [ImageInfo::width()],
    [height_batch()] and [color_plane_count()] return: the class is declared
    in a header outside this source file, and products of their results wrap
    at this width before they meet a [size_t]. *)
Variable dim_bits : Z.

(** The data members the source file reads or writes. *)
Record MasterGraph := mkMasterGraph {
  _output_tensor : option cl_mem;
  _graph : option G;
  _affinity : RaliAffinity;
  _gpu_id : Z;
  _context : option vx_context;
  _mem_type : RaliMemType;
  _output_image_info : ImageInfo;
  _output_images : list ptr;
  _internal_images : list ptr;
  _loader_modules : list L;
  _nodes : list N;
  _graph_verfied : bool
}.

(** The object together with what it points into: the heap of [Image]
    objects and the device buffers that are alive (with their byte sizes). *)
Record World := mkWorld {
  self : MasterGraph;
  heap : Images;
  cl_buffers : gmap positive Z
}.

Definition set_output_tensor (v : option cl_mem) (m : MasterGraph) :=
  mkMasterGraph v (_graph m) (_affinity m) (_gpu_id m) (_context m)
    (_mem_type m) (_output_image_info m) (_output_images m)
    (_internal_images m) (_loader_modules m) (_nodes m) (_graph_verfied m).
Definition set_graph (v : option G) (m : MasterGraph) :=
  mkMasterGraph (_output_tensor m) v (_affinity m) (_gpu_id m) (_context m)
    (_mem_type m) (_output_image_info m) (_output_images m)
    (_internal_images m) (_loader_modules m) (_nodes m) (_graph_verfied m).
Definition set_context (v : option vx_context) (m : MasterGraph) :=
  mkMasterGraph (_output_tensor m) (_graph m) (_affinity m) (_gpu_id m) v
    (_mem_type m) (_output_image_info m) (_output_images m)
    (_internal_images m) (_loader_modules m) (_nodes m) (_graph_verfied m).
Definition set_output_image_info (v : ImageInfo) (m : MasterGraph) :=
  mkMasterGraph (_output_tensor m) (_graph m) (_affinity m) (_gpu_id m)
    (_context m) (_mem_type m) v (_output_images m)
    (_internal_images m) (_loader_modules m) (_nodes m) (_graph_verfied m).
Definition set_output_images (v : list ptr) (m : MasterGraph) :=
  mkMasterGraph (_output_tensor m) (_graph m) (_affinity m) (_gpu_id m)
    (_context m) (_mem_type m) (_output_image_info m) v
    (_internal_images m) (_loader_modules m) (_nodes m) (_graph_verfied m).
Definition set_internal_images (v : list ptr) (m : MasterGraph) :=
  mkMasterGraph (_output_tensor m) (_graph m) (_affinity m) (_gpu_id m)
    (_context m) (_mem_type m) (_output_image_info m) (_output_images m)
    v (_loader_modules m) (_nodes m) (_graph_verfied m).
Definition set_loader_modules (v : list L) (m : MasterGraph) :=
  mkMasterGraph (_output_tensor m) (_graph m) (_affinity m) (_gpu_id m)
    (_context m) (_mem_type m) (_output_image_info m) (_output_images m)
    (_internal_images m) v (_nodes m) (_graph_verfied m).
Definition set_nodes (v : list N) (m : MasterGraph) :=
  mkMasterGraph (_output_tensor m) (_graph m) (_affinity m) (_gpu_id m)
    (_context m) (_mem_type m) (_output_image_info m) (_output_images m)
    (_internal_images m) (_loader_modules m) v (_graph_verfied m).
Definition set_graph_verfied (v : bool) (m : MasterGraph) :=
  mkMasterGraph (_output_tensor m) (_graph m) (_affinity m) (_gpu_id m)
    (_context m) (_mem_type m) (_output_image_info m) (_output_images m)
    (_internal_images m) (_loader_modules m) (_nodes m) v.

Definition set_heap (h : Images) (w : World) : World :=
  mkWorld (self w) h (cl_buffers w).
Definition set_cl_buffers (b : gmap positive Z) (w : World) : World :=
  mkWorld (self w) (heap w) b.

(** *** The monad of member functions

    A member function takes the world to an outcome, the world afterwards
    (an exception does not roll anything back) and the calls it made. *)

Definition M (A : Type) : Type := World -> outcome A * World * list Event.

Definition ret {A} (a : A) : M A := fun w => (Ok a, w, []).

Definition bind {A B} (m : M A) (f : A -> M B) : M B :=
  fun w =>
    match m w with
    | (Ok a, w1, e1) => let '(r, w2, e2) := f a w1 in (r, w2, e1 ++ e2)
    | (Throw what, w1, e1) => (Throw what, w1, e1)
    | (Undefined, w1, e1) => (Undefined, w1, e1)
    | (OutOfFuel, w1, e1) => (OutOfFuel, w1, e1)
    end.

Definition throw {A} (what : string) : M A := fun w => (Throw what, w, []).
Definition undefined {A} : M A := fun w => (Undefined, w, []).
Definition emit (e : Event) : M unit := fun w => (Ok tt, w, [e]).
Definition get {A} (f : MasterGraph -> A) : M A := fun w => (Ok (f (self w)), w, []).
Definition modify (f : MasterGraph -> MasterGraph) : M unit :=
  fun w => (Ok tt, mkWorld (f (self w)) (heap w) (cl_buffers w), []).
Definition get_world : M World := fun w => (Ok w, w, []).
Definition modify_world (f : World -> World) : M unit := fun w => (Ok tt, f w, []).
Definition lift {A} (o : outcome A) : M A := fun w => (o, w, []).

Notation "'let*' x ':=' m 'in' k" := (bind m (fun x => k))
  (at level 10, x name, m at level 100, k at level 200).
Notation "m ';;' k" := (bind m (fun _ => k))
  (at level 100, k at level 200, right associativity).

(** A range-[for] over a container whose elements are visited in order. *)
Fixpoint for_each {A} (xs : list A) (body : A -> M unit) : M unit :=
  match xs with
  | [] => ret tt
  | x :: rest => body x ;; for_each rest body
  end.

(** [*p] for an [Image*]: reading through a pointer to a deleted object is
    undefined. *)
Definition deref (p : ptr) : M Image :=
  fun w => match heap w !! p with
           | Some img => (Ok img, w, [])
           | None => (Undefined, w, [])
           end.

(** A [for] loop whose counter is an [unsigned] compared against a [size_t]
    bound: the counter wraps at [2^32], so the loop ends only if the bound
    is below that. *)
Fixpoint for_unsigned {S} (fuel : nat) (i bound : Z)
    (body : Z -> S -> outcome S) (s : S) : outcome S :=
  match fuel with
  | O => OutOfFuel
  | Datatypes.S fuel' =>
      if i <? bound
      then outcome_bind (body i s)
             (for_unsigned fuel' (to_unsigned (i + 1)) bound body)
      else Ok s
  end.

(** *** [MasterGraph::run] and [MasterGraph::update_parameters] *)

(** One turn of [for(auto&& loader_module: _loader_modules)]. *)
Definition load_one (i : nat) : M unit :=
  let* ls := get _loader_modules in
  match ls !! i with
  | None => undefined
  | Some l =>
      let* w := get_world in
      let r := load_next l (heap w) in
      emit (EvLoadNext i) ;;
      modify (set_loader_modules (<[i := snd (fst r)]> ls)) ;;
      modify_world (set_heap (snd r)) ;;
      match fst (fst r) with
      | LoaderModuleStatus_OK => ret tt
      | LoaderModuleStatus_other _ =>
          throw "Loader module failed to laod next batch of images"
      end
  end.

(** [_graph->process()] *)
Definition process_graph : M unit :=
  let* g := get _graph in
  match g with
  | None => undefined
  | Some g =>
      let* w := get_world in
      emit EvGraphProcess ;;
      let* r := lift (Graph_process g (heap w)) in
      modify (set_graph (Some (fst r))) ;;
      modify_world (set_heap (snd r))
  end.

(** One turn of [for(auto& node: _nodes) node->update_parameters()]. *)
Definition update_node (i : nat) : M unit :=
  let* ns := get _nodes in
  match ns !! i with
  | None => undefined
  | Some n =>
      emit (EvNodeUpdateParameters i) ;;
      modify (set_nodes (<[i := node_update_parameters n]> ns))
  end.

Definition update_parameters : M Status :=
  let* ns := get _nodes in
  for_each (seq 0%nat (length ns)) update_node ;;
  ret OK.

Definition run : M Status :=
  let* verified := get _graph_verfied in
  if negb verified then throw "Graph not verified"
  else
    emit EvRenewParameters ;;
    emit (EvTimerStart ProcessTime) ;;
    let* ls := get _loader_modules in
    for_each (seq 0%nat (length ls)) load_one ;;
    process_graph ;;
    update_parameters ;;
    emit (EvTimerEnd ProcessTime) ;;
    ret OK.

(** *** [MasterGraph::allocate_output_tensor] and its counterpart *)

(** [width() * height_batch() * color_plane_count()] on the accessors'
    return type. *)
Definition dims_product (i : ImageInfo) : Z :=
  wrap dim_bits (wrap dim_bits (width i * height_batch i) * color_plane_count i).

Definition sizeof_cl_float : Z := 4.

Definition allocate_output_tensor : M Status :=
  let* i := get _output_image_info in
  let* outs := get _output_images in
  let output_float_buffer_size :=
    to_size_t (dims_product i * Z.of_nat (length outs)) in
  match mem_type i with
  | OCL =>
      modify (set_output_tensor None) ;;
      let size := to_size_t (output_float_buffer_size * sizeof_cl_float) in
      let* w := get_world in
      emit (EvClCreateBuffer size) ;;
      match clCreateBuffer (cl_buffers w) size with
      | None => throw "clCreateBuffer failed"
      | Some clImgFloat =>
          modify_world (set_cl_buffers (<[clImgFloat := size]> (cl_buffers w))) ;;
          modify (set_output_tensor (Some clImgFloat)) ;;
          ret OK
      end
  | HOST => ret OK
  end.

Definition deallocate_output_tensor : M Status :=
  let* i := get _output_image_info in
  let* t := get _output_tensor in
  match mem_type i, t with
  | OCL, Some m =>
      emit (EvClReleaseMemObject m) ;;
      modify_world (fun w => set_cl_buffers (delete m (cl_buffers w)) w) ;;
      ret OK
  | _, _ => ret OK
  end.

(** *** [MasterGraph::create_single_graph] *)

Definition create_output_image (p : ptr) : M unit :=
  let* img := deref p in
  match type (info img) with
  | Type_UNKNOWN =>
      let* ctx := get _context in
      let* g := get _graph in
      match g with
      | None => undefined
      | Some g =>
          emit (EvCreateVirtual p) ;;
          modify_world
            (fun w => set_heap (<[p := create_virtual img ctx g]> (heap w)) w) ;;
          let* ii := get _internal_images in
          modify (set_internal_images (ii ++ [p]))
      end
  | Type_other _ => ret tt
  end.

Definition create_node (i : nat) : M unit :=
  let* ns := get _nodes in
  match ns !! i with
  | None => undefined
  | Some n =>
      for_each (output n) create_output_image ;;
      let* g := get _graph in
      match g with
      | None => undefined
      | Some g =>
          emit (EvNodeCreate i) ;;
          let* r := lift (create n g) in
          modify (set_nodes (<[i := fst r]> ns)) ;;
          modify (set_graph (Some (snd r)))
      end
  end.

Definition create_single_graph : M unit :=
  let* ctx := get _context in
  let* aff := get _affinity in
  let* gpu := get _gpu_id in
  emit EvGraphCreate ;;
  let* g := lift (Graph_make ctx aff 0 gpu) in
  modify (set_graph (Some g)) ;;
  let* ns := get _nodes in
  for_each (seq 0%nat (length ns)) create_node ;;
  let* g := get _graph in
  match g with
  | None => undefined
  | Some g =>
      let* w := get_world in
      emit EvGraphVerify ;;
      let* r := lift (Graph_verify g (heap w)) in
      modify (set_graph (Some (fst r))) ;;
      modify_world (set_heap (snd r))
  end.

(** *** [MasterGraph::build] *)

Definition check_output_image (p : ptr) : M unit :=
  let* img := deref p in
  let* ref := get _output_image_info in
  if negb (ImageInfo_eqb (info img) ref)
  then throw "Dimension of the output images do not match"
  else ret tt.

Definition build : M Status :=
  modify (set_graph_verfied false) ;;
  let* outs := get _output_images in
  match outs with
  | [] => throw "No output images are there, cannot create the pipeline"
  | front :: _ =>
      let* img := deref front in
      modify (set_output_image_info (info img)) ;;
      for_each outs check_output_image ;;
      allocate_output_tensor ;;
      create_single_graph ;;
      modify (set_graph_verfied true) ;;
      ret OK
  end.

(** *** [MasterGraph::release] and the destructor *)

(** [delete image]: deleting an object that is no longer alive is
    undefined. *)
Definition delete_image (p : ptr) : M unit :=
  let* w := get_world in
  match heap w !! p with
  | None => undefined
  | Some _ =>
      emit (EvDeleteImage p) ;;
      modify_world (set_heap (delete p (heap w)))
  end.

Definition release : M unit :=
  modify (set_graph_verfied false) ;;
  let* g := get _graph in
  match g with
  | Some g => emit EvGraphRelease ;; modify (set_graph (Some (Graph_release g)))
  | None => ret tt
  end ;;
  let* ctx := get _context in
  match ctx with
  | Some c =>
      emit (EvReleaseContext c) ;;
      if decide (vxReleaseContext c = VX_SUCCESS)
      then modify (set_context None)
      else emit (EvLog "Failed to call vxReleaseContext")
  | None => ret tt
  end ;;
  let* internal := get _internal_images in
  for_each internal delete_image ;;
  let* outs := get _output_images in
  for_each outs delete_image ;;
  deallocate_output_tensor ;;
  ret tt.

(** [MasterGraph::~MasterGraph] *)
Definition destructor : M unit := release.

(** *** [MasterGraph::create_image] and [create_loader_output_image] *)

(** [new Image(info)]: a fresh address, the buffer not yet bound. *)
Definition new_Image (i : ImageInfo) : M ptr :=
  let* w := get_world in
  let p := fresh (dom (heap w) : gset positive) in
  emit (EvNewImage p) ;;
  modify_world (set_heap (<[p := mkImage i []]> (heap w))) ;;
  ret p.

Definition create_image (i : ImageInfo) (is_output : bool) : M ptr :=
  let* p := new_Image i in
  (if is_output then
     let* img := deref p in
     let* ctx := get _context in
     let r := create_from_handle img ctx external in
     modify_world (fun w => set_heap (<[p := snd r]> (heap w)) w) ;;
     if negb (fst r =? 0) then throw "Cannot create the image from handle"
     else
       let* outs := get _output_images in
       modify (set_output_images (outs ++ [p]))
   else ret tt) ;;
  ret p.

Definition create_loader_output_image (i : ImageInfo) (is_output : bool) : M ptr :=
  let* p := new_Image i in
  let* img := deref p in
  let* ctx := get _context in
  let r := create_from_handle img ctx none in
  modify_world (fun w => set_heap (<[p := snd r]> (heap w)) w) ;;
  if negb (fst r =? 0) then throw "Creating output image for JPEG loader failed"
  else
    (if is_output then
       let* outs := get _output_images in
       modify (set_output_images (outs ++ [p]))
     else
       let* internal := get _internal_images in
       modify (set_internal_images (internal ++ [p]))) ;;
    ret p.

(** *** Loader bookkeeping *)

Definition reset_loaders : M Status :=
  let* ls := get _loader_modules in
  modify (set_loader_modules (map reset ls)) ;;
  ret OK.

(** The body of the loop of [remaining_images_count], on the [int]
    accumulator [ret]. *)
Definition remaining_step (ret : Z) (loader_module : L) : Z :=
  let thisLoaderCount := to_int (count loader_module) in
  if ret =? -1 then thisLoaderCount
  else if thisLoaderCount <? ret then thisLoaderCount else ret.

Definition remaining_images_count : M Z :=
  let* ls := get _loader_modules in
  ret (to_size_t (fold_left remaining_step ls (-1))).

(** *** Output retrieval *)

(** A function body written statement by statement: a statement either
    falls through to the next one ([None]) or returns a value. Leaving a
    non-void function without a [return] is undefined. *)
Definition return_ {A} (a : A) : M (option A) := ret (Some a).
Definition do_ {A} (m : M unit) : M (option A) := m ;; ret None.
Definition then_ {A} (s1 s2 : M (option A)) : M (option A) :=
  let* r := s1 in
  match r with
  | Some a => ret (Some a)
  | None => s2
  end.
Definition body {A} (s : M (option A)) : M A :=
  let* r := s in
  match r with
  | Some a => ret a
  | None => undefined
  end.

(** [copy_output(cl_mem, size_t)], its four statements in order. *)
Definition copy_output_cl (out_ptr : cl_mem) (out_size : Z) : M Status :=
  body
    (then_ (return_ NOT_IMPLEMENTED)
    (then_ (do_ (emit (EvTimerStart ConvertTime)))
    (then_ (do_ (emit (EvTimerEnd ConvertTime)))
           (return_ OK)))).

(** [a[idx]] for a three-element array: an index past the end is
    undefined. *)
Definition array3 {A} (a0 a1 a2 : A) (idx : Z) : outcome A :=
  if idx =? 0 then Ok a0
  else if idx =? 1 then Ok a1
  else if idx =? 2 then Ok a2
  else Undefined.

(** [in_buffer[idx]] for a [size_t] index. *)
Definition read_uchar (in_buffer : list Byte.byte) (idx : Z) : outcome Byte.byte :=
  match in_buffer !! Z.to_nat idx with
  | Some b => Ok b
  | None => Undefined
  end.

(** The right-hand side of the two assignments of [copy_out_tensor]; the
    index expressions are [size_t] arithmetic, reduced once at the end since
    reduction modulo [2^64] commutes with [+], [-] and [*]. *)
Definition normalized (multiplier offset : Z -> outcome float)
    (in_buffer : list Byte.byte) (c : Z) (reverse_channels : bool)
    (channel_idx i : Z) : outcome float :=
  outcome_bind (offset channel_idx) (fun o =>
  outcome_bind (multiplier channel_idx) (fun m =>
  outcome_bind
    (read_uchar in_buffer
       (if reverse_channels
        then to_size_t (i * c + c - channel_idx - 1)
        else to_size_t (i * c + channel_idx))) (fun b =>
  Ok (fadd o (fmul m (float_of_uchar b)))))).

(** The loop nest of the [NHWC] case for one image; [out_ptr] is the
    destination, indexed in [float] elements. *)
Definition copy_image_NHWC (fuel : nat) (multiplier offset : Z -> outcome float)
    (reverse_channels : bool) (w h c dest_buf_offset : Z)
    (in_buffer : list Byte.byte) (out_ptr : gmap Z float)
  : outcome (gmap Z float) :=
  let channel_size := to_size_t (w * h) in
  for_unsigned fuel 0 c (fun channel_idx out =>
    for_unsigned fuel 0 channel_size (fun i out =>
      outcome_bind
        (normalized multiplier offset in_buffer c reverse_channels channel_idx i)
        (fun v => Ok (<[to_size_t (dest_buf_offset + channel_idx + i * c) := v]> out)))
      out) out_ptr.

(** The loop nest of the [NCHW] case for one image. *)
Definition copy_image_NCHW (fuel : nat) (multiplier offset : Z -> outcome float)
    (reverse_channels : bool) (w h c dest_buf_offset : Z)
    (in_buffer : list Byte.byte) (out_ptr : gmap Z float)
  : outcome (gmap Z float) :=
  let channel_size := to_size_t (w * h) in
  for_unsigned fuel 0 c (fun channel_idx out =>
    for_unsigned fuel 0 channel_size (fun i out =>
      outcome_bind
        (normalized multiplier offset in_buffer c reverse_channels channel_idx i)
        (fun v =>
           Ok (<[to_size_t (dest_buf_offset + channel_idx * channel_size + i) := v]> out)))
      out) out_ptr.

(** [for( auto&& out_image: _output_images)] of the host branch. *)
Fixpoint copy_out_tensor_host (fuel : nat) (format : RaliTensorFormat)
    (multiplier offset : Z -> outcome float) (reverse_channels : bool)
    (w h c : Z) (outs : list ptr) (dest_buf_offset : Z)
    (out_ptr : gmap Z float) : M (gmap Z float) :=
  match outs with
  | [] => ret out_ptr
  | p :: rest =>
      let* out_image := deref p in
      let in_buffer := buffer out_image in
      let* out1 :=
        (if decide (format = NHWC)
         then lift (copy_image_NHWC fuel multiplier offset reverse_channels
                      w h c dest_buf_offset in_buffer out_ptr)
         else ret out_ptr) in
      let* out2 :=
        (if decide (format = NCHW)
         then lift (copy_image_NCHW fuel multiplier offset reverse_channels
                      w h c dest_buf_offset in_buffer out1)
         else ret out1) in
      copy_out_tensor_host fuel format multiplier offset reverse_channels
        w h c rest (to_size_t (dest_buf_offset + to_size_t (w * h * c))) out2
  end.

Fixpoint deref_all (ps : list ptr) : M (list Image) :=
  match ps with
  | [] => ret []
  | p :: rest =>
      let* img := deref p in
      let* imgs := deref_all rest in
      ret (img :: imgs)
  end.

Definition copy_out_tensor (fuel : nat) (out_ptr : gmap Z float)
    (format : RaliTensorFormat)
    (multiplier0 multiplier1 multiplier2 offset0 offset1 offset2 : float)
    (reverse_channels : bool) : M (Status * gmap Z float) :=
  emit (EvTimerStart ConvertTime) ;;
  let* i := get _output_image_info in
  let w := to_size_t (width i) in
  let h := to_size_t (height_batch i) in
  let c := to_size_t (color_plane_count i) in
  let* outs := get _output_images in
  let* out1 :=
    (if decide (mem_type i = OCL)
     then
       let* imgs := deref_all outs in
       let* tensor := get _output_tensor in
       lift (ocl_copy_out_tensor imgs tensor format
               (multiplier0, multiplier1, multiplier2)
               (offset0, offset1, offset2) reverse_channels out_ptr)
     else ret out_ptr) in
  let* out2 :=
    (if decide (mem_type i = HOST)
     then
       let multiplier := array3 multiplier0 multiplier1 multiplier2 in
       let offset := array3 offset0 offset1 offset2 in
       copy_out_tensor_host fuel format multiplier offset reverse_channels
         w h c outs 0 out1
     else ret out1) in
  emit (EvTimerEnd ConvertTime) ;;
  ret (OK, out2).

(** [memcpy(dst + dest, src, n)] into a destination indexed in bytes;
    reading past the end of [src] is undefined. *)
Fixpoint write_bytes (dst : gmap Z Byte.byte) (dest : Z) (bs : list Byte.byte)
  : gmap Z Byte.byte :=
  match bs with
  | [] => dst
  | b :: rest => write_bytes (<[dest := b]> dst) (dest + 1) rest
  end.

Definition memcpy (dst : gmap Z Byte.byte) (dest : Z) (src : list Byte.byte)
    (n : Z) : outcome (gmap Z Byte.byte) :=
  if n <=? Z.of_nat (length src)
  then Ok (write_bytes dst dest (take (Z.to_nat n) src))
  else Undefined.

(** Modelled from the spec: [Image::copy_data(queue, destination, sync)] is
    defined with the [Image] class, outside this source file. The
    specification has it copy the image's exact byte layout, that is its
    width * batch height * plane count bytes, to the destination; the copies
    queued without synchronisation are complete once the last, synchronous
    one returns. *)
Definition Image_copy_data (img : Image) (dst : gmap Z Byte.byte) (dest : Z)
    (sync_flag : bool) : outcome (gmap Z Byte.byte) :=
  memcpy dst dest (buffer img)
    (width (info img) * height_batch (info img) * color_plane_count (info img)).

(** The device branch of [copy_output(unsigned char* )]. *)
Fixpoint copy_output_ocl (outs : list ptr) (out_image_idx size dest_buf_offset : Z)
    (out_ptr : gmap Z Byte.byte) : M (gmap Z Byte.byte) :=
  match outs with
  | [] => ret out_ptr
  | p :: rest =>
      let* output_image := deref p in
      let out_image_idx' := to_size_t (out_image_idx - 1) in
      let sync_flag := out_image_idx' =? 0 in
      emit (EvCopyData p dest_buf_offset sync_flag) ;;
      let* out1 := lift (Image_copy_data output_image out_ptr dest_buf_offset sync_flag) in
      copy_output_ocl rest out_image_idx' size
        (to_size_t (dest_buf_offset + size)) out1
  end.

(** The host branch of [copy_output(unsigned char* )]. *)
Fixpoint copy_output_host (outs : list ptr) (size dest_buf_offset : Z)
    (out_ptr : gmap Z Byte.byte) : M (gmap Z Byte.byte) :=
  match outs with
  | [] => ret out_ptr
  | p :: rest =>
      let* output := deref p in
      emit (EvMemcpy dest_buf_offset p size) ;;
      let* out1 := lift (memcpy out_ptr dest_buf_offset (buffer output) size) in
      copy_output_host rest size (to_size_t (dest_buf_offset + size)) out1
  end.

Definition copy_output (out_ptr : gmap Z Byte.byte) : M (Status * gmap Z Byte.byte) :=
  emit (EvTimerStart ConvertTime) ;;
  let* i := get _output_image_info in
  let size := to_size_t (dims_product i) in
  let* outs := get _output_images in
  let* out1 :=
    (if decide (mem_type i = OCL)
     then copy_output_ocl outs (Z.of_nat (length outs)) size 0 out_ptr
     else copy_output_host outs size 0 out_ptr) in
  emit (EvTimerEnd ConvertTime) ;;
  ret (OK, out1).

End MasterGraphModel.

Arguments MasterGraph : clear implicits.
Arguments World : clear implicits.
Arguments M : clear implicits.

(** ** The WarpAffine kernel binding: [validateWarpAffine] *)

Module WarpAffine.

Definition vx_node : Type := positive.
Definition vx_reference : Type := positive.
Definition vx_parameter : Type := positive.
Definition vx_image : Type := positive.

(** The attributes [validateWarpAffine] writes into a [vx_meta_format]. *)
Record vx_meta_format := mkMeta {
  meta_format : option vx_df_image;
  meta_height : option Z;
  meta_width : option Z
}.

Inductive meta_attribute :=
| VX_IMAGE_FORMAT (f : vx_df_image)
| VX_IMAGE_HEIGHT (h : Z)
| VX_IMAGE_WIDTH (w : Z).

(** The OpenVX calls of the validator, each giving its status and the value
    it stores through its output pointer. *)
Class OpenVX := {
  vxGetParameterByIndex : vx_node -> Z -> vx_parameter;
  vxQueryScalar_TYPE : vx_reference -> vx_status * vx_type;
  vxQueryParameter_REF : vx_parameter -> vx_status * vx_image;
  vxQueryImage_FORMAT : vx_image -> vx_status * vx_df_image;
  vxQueryImage_HEIGHT : vx_image -> vx_status * Z;
  vxQueryImage_WIDTH : vx_image -> vx_status * Z;
  (** the status of [vxSetMetaFormatAttribute] on a meta format object *)
  vxSetMetaFormatAttribute_status : vx_meta_format -> meta_attribute -> vx_status
}.

(** [vxSetMetaFormatAttribute(meta, attribute, &value, size)]: the attribute
    is stored in the meta format object. *)
Definition vxSetMetaFormatAttribute (m : vx_meta_format) (a : meta_attribute)
  : vx_meta_format :=
  match a with
  | VX_IMAGE_FORMAT f => mkMeta (Some f) (meta_height m) (meta_width m)
  | VX_IMAGE_HEIGHT h => mkMeta (meta_format m) (Some h) (meta_width m)
  | VX_IMAGE_WIDTH w => mkMeta (meta_format m) (meta_height m) (Some w)
  end.

Section Validate.

Context `{!OpenVX}.

(** What the validator hands back: the returned status and the [metas]
    array as it stands. *)
Definition result : Type := outcome (vx_status * list vx_meta_format).

(** Modelled from the spec: the macro [STATUS_ERROR_CHECK] comes from
    [internal_rpp.h], outside these sources. A checked backend call either
    succeeds or fails the calling function with the status of the call. *)
Definition STATUS_ERROR_CHECK (status : vx_status) (metas : list vx_meta_format)
    (k : result) : result :=
  if decide (status = VX_SUCCESS) then k else Ok (status, metas).

(** [STATUS_ERROR_CHECK(vxQueryScalar(parameters[idx], VX_SCALAR_TYPE, ...));
    if(type != expected) return ERRMSG(VX_ERROR_INVALID_TYPE, ...);] *)
Definition check_scalar (parameters : list vx_reference) (idx : nat)
    (expected : vx_type) (metas : list vx_meta_format) (k : result) : result :=
  match parameters !! idx with
  | None => Undefined
  | Some r =>
      let q := vxQueryScalar_TYPE r in
      STATUS_ERROR_CHECK (fst q) metas
        (if decide (snd q = expected) then k
         else Ok (VX_ERROR_INVALID_TYPE, metas))
  end.

(** [STATUS_ERROR_CHECK(vxSetMetaFormatAttribute(metas[1], attribute, ...))] *)
Definition set_meta1 (metas : list vx_meta_format) (a : meta_attribute)
    (k : list vx_meta_format -> result) : result :=
  match metas !! 1%nat with
  | None => Undefined
  | Some m =>
      STATUS_ERROR_CHECK (vxSetMetaFormatAttribute_status m a) metas
        (k (<[1%nat := vxSetMetaFormatAttribute m a]> metas))
  end.

Definition validateWarpAffine (node : vx_node) (parameters : list vx_reference)
    (num : Z) (metas : list vx_meta_format) : result :=
  let status := VX_SUCCESS in
  let param := vxGetParameterByIndex node 0 in
  check_scalar parameters 2 VX_TYPE_INT32 metas (
  check_scalar parameters 3 VX_TYPE_INT32 metas (
  check_scalar parameters 4 VX_TYPE_FLOAT32 metas (
  check_scalar parameters 5 VX_TYPE_FLOAT32 metas (
  check_scalar parameters 6 VX_TYPE_FLOAT32 metas (
  check_scalar parameters 7 VX_TYPE_FLOAT32 metas (
  check_scalar parameters 8 VX_TYPE_FLOAT32 metas (
  check_scalar parameters 9 VX_TYPE_FLOAT32 metas (
  let qi := vxQueryParameter_REF param in
  STATUS_ERROR_CHECK (fst qi) metas (
  let image := snd qi in
  let qf := vxQueryImage_FORMAT image in
  STATUS_ERROR_CHECK (fst qf) metas (
  let df_image := snd qf in
  let status :=
    if decide (df_image <> VX_DF_IMAGE_U8 /\ df_image <> VX_DF_IMAGE_RGB)
    then VX_ERROR_INVALID_VALUE else status in
  set_meta1 metas (VX_IMAGE_FORMAT df_image) (fun metas1 =>
  let output_param := vxGetParameterByIndex node 1 in
  let qo := vxQueryParameter_REF output_param in
  STATUS_ERROR_CHECK (fst qo) metas1 (
  let output_image := snd qo in
  let qh := vxQueryImage_HEIGHT output_image in
  STATUS_ERROR_CHECK (fst qh) metas1 (
  let height := snd qh in
  set_meta1 metas1 (VX_IMAGE_HEIGHT height) (fun metas2 =>
  let qw := vxQueryImage_WIDTH output_image in
  STATUS_ERROR_CHECK (fst qw) metas2 (
  let width := snd qw in
  set_meta1 metas2 (VX_IMAGE_WIDTH width) (fun metas3 =>
  Ok (status, metas3))))))))))))))))).

(** Parameter [idx] is there and [vxQueryScalar] reports the type [ty] for
    it. *)
Definition scalar_typed (parameters : list vx_reference) (idx : nat)
    (ty : vx_type) : Prop :=
  exists r, parameters !! idx = Some r /\ vxQueryScalar_TYPE r = (VX_SUCCESS, ty).

End Validate.

End WarpAffine.

(** ** A small pipeline to run the model on

    Collaborators simple enough to evaluate: a loader that replays a list of
    statuses, a graph that counts the batches it processed, a node that
    counts its parameter updates, and a runtime whose calls succeed. *)

Module Sample.

Record Loader := mkLoader {
  pending : list LoaderModuleStatus;
  remaining : Z
}.

#[export] Instance Loader_LoaderModule : LoaderModule Loader := {
  load_next l h :=
    match pending l with
    | [] => (LoaderModuleStatus_other 1, l, h)
    | s :: rest => (s, mkLoader rest (remaining l - 1), h)
    end;
  reset l := l;
  count l := remaining l
}.

#[export] Instance nat_Graph : Graph nat := {
  Graph_make _ _ _ _ := Ok 0%nat;
  Graph_verify g h := Ok (g, h);
  Graph_process g h := Ok (S g, h);
  Graph_release g := g
}.

#[export] Instance nat_Node : Node nat nat := {
  output _ := [];
  create n g := Ok (n, g);
  node_update_parameters n := S n
}.

#[export] Instance ok_Runtime : Runtime nat := {
  vxReleaseContext _ := VX_SUCCESS;
  clCreateBuffer live _ := Some (fresh (dom live : gset positive));
  create_virtual img _ _ := img;
  create_from_handle img _ _ := (0, img);
  ocl_copy_out_tensor _ _ _ _ _ _ out := Ok out
}.

Definition SWorld : Type := World Loader nat nat.

Definition info_of (w h c : Z) (m : RaliMemType) : ImageInfo :=
  mkImageInfo w h c 0%nat m (Type_other 1).

(** The object after a constructor call that met no failure, [ctx] being the
    context [vxCreateContext] returned: the member initialisers, [_context]
    and [_mem_type]; the other members are empty containers. *)
Definition constructed (affinity : RaliAffinity) (gpu_id : Z) (ctx : vx_context)
  : SWorld :=
  mkWorld
    (mkMasterGraph None None affinity gpu_id (Some ctx)
       (match affinity with GPU => OCL | CPU => HOST end)
       (info_of 0 0 0 HOST) [] [] [] [] false)
    ∅ ∅.

(** The world a member function leaves behind. *)
Definition after {A} (m : M Loader nat nat A) (w : SWorld) : SWorld := snd (fst (m w)).

(** One image of [w]x[h]x[c] bytes, declared as a pipeline output and filled
    with [bytes]. *)
Definition with_output (i : ImageInfo) (bytes : list Byte.byte) (w : SWorld)
  : SWorld :=
  match create_image i true w with
  | (Ok p, w1, _) => set_heap (<[p := mkImage i bytes]> (heap w1)) w1
  | (_, w1, _) => w1
  end.

Definition with_loaders (ls : list Loader) (w : SWorld) : SWorld :=
  mkWorld (set_loader_modules ls (self w)) (heap w) (cl_buffers w).

Definition with_nodes (ns : list nat) (w : SWorld) : SWorld :=
  mkWorld (set_nodes ns (self w)) (heap w) (cl_buffers w).

(** A host pipeline: one 2x1 single-plane output image holding the bytes
    [0x61 0x62], two loaders with 5 and 3 images left, two nodes. *)
Definition host_pipeline : SWorld :=
  with_nodes [0%nat; 0%nat]
    (with_loaders [mkLoader [LoaderModuleStatus_OK] 5;
                   mkLoader [LoaderModuleStatus_OK] 3]
       (with_output (info_of 2 1 1 HOST) [Byte.x61; Byte.x62]
          (constructed CPU 0 1%positive))).

(** The same pipeline with its second loader exhausted. *)
Definition starved_pipeline : SWorld :=
  with_loaders [mkLoader [LoaderModuleStatus_OK] 5; mkLoader [] 0] host_pipeline.

(** A host pipeline whose output is a single RGB pixel [0x10 0x20 0x30]. *)
Definition rgb_pipeline : SWorld :=
  with_output (info_of 1 1 3 HOST) [Byte.x10; Byte.x20; Byte.x30]
    (constructed CPU 0 1%positive).

(** The same pipeline on the device. *)
Definition device_pipeline : SWorld :=
  with_output (info_of 2 1 1 OCL) [Byte.x61; Byte.x62]
    (constructed GPU 0 1%positive).

(** Two output images of different widths. *)
Definition mismatched_pipeline : SWorld :=
  with_output (info_of 3 1 1 HOST) [Byte.x61; Byte.x62; Byte.x63]
    (with_output (info_of 2 1 1 HOST) [Byte.x61; Byte.x62]
       (constructed CPU 0 1%positive)).

(** A WarpAffine node with eleven parameters, numbered from 1: an RGB input
    image, a 640x480 output image, two [int] scalars, six [float] scalars and
    the device type. *)
#[export] Instance warp_OpenVX : WarpAffine.OpenVX := {
  WarpAffine.vxGetParameterByIndex _ index := Z.to_pos (index + 1);
  WarpAffine.vxQueryScalar_TYPE r :=
    (VX_SUCCESS,
     if decide (r = 3%positive \/ r = 4%positive) then VX_TYPE_INT32
     else VX_TYPE_FLOAT32);
  WarpAffine.vxQueryParameter_REF p := (VX_SUCCESS, p);
  WarpAffine.vxQueryImage_FORMAT image :=
    (VX_SUCCESS, if decide (image = 1%positive) then VX_DF_IMAGE_RGB else VX_DF_IMAGE_U8);
  WarpAffine.vxQueryImage_HEIGHT _ := (VX_SUCCESS, 480);
  WarpAffine.vxQueryImage_WIDTH _ := (VX_SUCCESS, 640);
  WarpAffine.vxSetMetaFormatAttribute_status _ _ := VX_SUCCESS
}.

Definition warp_parameters : list WarpAffine.vx_reference :=
  [1; 2; 3; 4; 5; 6; 7; 8; 9; 10; 11]%positive.

Definition warp_metas : list WarpAffine.vx_meta_format :=
  replicate 11 (WarpAffine.mkMeta None None None).

End Sample.

(** * The rest of the master graph *)

(** ** [get_ago_affinity_info] *)

Inductive AgoDeviceType := AGO_TARGET_AFFINITY_CPU | AGO_TARGET_AFFINITY_GPU.

Record AgoTargetAffinityInfo := mkAffinityInfo {
  device_type : AgoDeviceType;
  device_info : Z
}.

(** The lambda at the top of the file. Its [default:] branch throws
    [std::invalid_argument]; no enumerator of [RaliAffinity] reaches it. *)
Definition get_ago_affinity_info (rali_affinity : RaliAffinity) (cpu_id gpu_id : Z)
  : outcome AgoTargetAffinityInfo :=
  match rali_affinity with
  | GPU =>
      Ok (mkAffinityInfo AGO_TARGET_AFFINITY_GPU
            (if (0 <=? gpu_id) && (gpu_id <=? 9) then gpu_id else 0))
  | CPU =>
      Ok (mkAffinityInfo AGO_TARGET_AFFINITY_CPU
            (if (0 <=? cpu_id) && (cpu_id <=? 9) then cpu_id else 0))
  end.

(** ** The constructor, the getters and [timing] *)

(** The OpenVX calls of the constructor and [DeviceManager::init_ocl]. *)
Class ContextRuntime := {
  vxCreateContext : option vx_context;
  vxGetStatus : option vx_context -> vx_status;
  vxSetContextAttribute_AFFINITY :
    option vx_context -> AgoTargetAffinityInfo -> vx_status;
  vxLoadKernels : option vx_context -> string -> vx_status;
  init_ocl : option vx_context -> outcome unit
}.

(** [LoaderModule::timing()], the one method of the loader interface that
    [run], [reset_loaders] and [remaining_images_count] do not call. *)
Class LoaderTiming (L : Type) := {
  LoaderModule_timing : L -> list Z
}.

Section MasterGraphRest.

Context {L N G : Type}.
Context `{!LoaderModule L} `{!Graph G} `{!Node N G} `{!Runtime G}.
Context `{!ContextRuntime} `{!LoaderTiming L}.

(** [TimingDBG::get_timing()] of the two timers; the class is outside this
    source file. *)
Variable get_timing : Timer -> Z.

Local Notation "'let*' x ':=' m 'in' k" := (bind (L:=L) (N:=N) (G:=G) m (fun x => k))
  (at level 10, x name, m at level 100, k at level 200).
Local Notation "m ';;' k" := (bind (L:=L) (N:=N) (G:=G) m (fun _ => k))
  (at level 100, k at level 200, right associativity).

Definition set_mem_type (v : RaliMemType) (m : MasterGraph L N G) : MasterGraph L N G :=
  mkMasterGraph (_output_tensor m) (_graph m) (_affinity m) (_gpu_id m)
    (_context m) v (_output_image_info m) (_output_images m)
    (_internal_images m) (_loader_modules m) (_nodes m) (_graph_verfied m).

(** The members after the member initialisers, before the constructor body:
    [_context] and [_mem_type] are assigned by the body's first two
    statements, [_output_image_info] is the default-constructed descriptor
    [default_info], the containers are empty. [batch_size] and [cpu_threads]
    are only stored. The heap and the device buffers are those of the
    process. *)
Definition member_initialisers (default_info : ImageInfo) (affinity : RaliAffinity)
    (gpu_id : Z) (h : Images) (bufs : gmap positive Z) : World L N G :=
  mkWorld
    (mkMasterGraph None None affinity gpu_id None HOST default_info
       [] [] [] [] false)
    h bufs.

(** [try { body } catch(const std::exception& e) { release(); throw; }] *)
Definition try_release {A} (body : M L N G A) : M L N G A :=
  fun w =>
    match body w with
    | (Throw what, w1, e1) =>
        match release w1 with
        | (Ok _, w2, e2) => (Throw what, w2, e1 ++ e2)
        | (Throw what', w2, e2) => (Throw what', w2, e1 ++ e2)
        | (Undefined, w2, e2) => (Undefined, w2, e1 ++ e2)
        | (OutOfFuel, w2, e2) => (OutOfFuel, w2, e1 ++ e2)
        end
    | other => other
    end.

Definition media_warning : string :=
  "Cannot load AMD's OpenVX media extension, video decode functionality will not be available".

(** The statements of the [try] block; the messages are the constant parts
    of the ones the source builds. *)
Definition constructor_body : M L N G unit :=
  modify (set_context vxCreateContext) ;;
  let* affinity := get _affinity in
  modify (set_mem_type (match affinity with GPU => OCL | CPU => HOST end)) ;;
  let* gpu_id := get _gpu_id in
  let* vx_affinity := lift (get_ago_affinity_info affinity 0 gpu_id) in
  let* ctx := get _context in
  (if decide (vxGetStatus ctx = VX_SUCCESS) then ret tt
   else throw "vxCreateContext failed") ;;
  (if decide (vxSetContextAttribute_AFFINITY ctx vx_affinity = VX_SUCCESS)
   then ret tt
   else throw "vxSetContextAttribute failed ") ;;
  (if decide (vxLoadKernels ctx "vx_rpp" = VX_SUCCESS) then ret tt
   else throw "Cannot load OpenVX augmentation extension (vx_rpp), vxLoadKernels failed ") ;;
  (if decide (vxLoadKernels ctx "vx_media" = VX_SUCCESS) then ret tt
   else emit (EvLog media_warning)) ;;
  match affinity with
  | GPU => lift (init_ocl ctx)
  | CPU => ret tt
  end.

(** [MasterGraph::MasterGraph] *)
Definition MasterGraph_new : M L N G unit := try_release constructor_body.

Definition output_image_count : M L N G Z :=
  let* outs := get _output_images in
  ret (Z.of_nat (length outs)).

Definition output_color_format : M L N G RaliColorFormat :=
  let* i := get _output_image_info in
  ret (color_format i).

Definition output_width : M L N G Z :=
  let* i := get _output_image_info in
  ret (to_size_t (width i)).

Definition output_height : M L N G Z :=
  let* i := get _output_image_info in
  ret (to_size_t (height_batch i)).

Definition MasterGraph_mem_type : M L N G RaliMemType := get _mem_type.

(** The body of the loop of [timing], on the two [long long unsigned]
    accumulators. *)
Definition timing_step (acc : Z * Z) (loader_module : L) : Z * Z :=
  let ret := LoaderModule_timing loader_module in
  if (length ret <? 2)%nat then acc
  else (wrap 64 (fst acc + nth 0 ret 0), wrap 64 (snd acc + nth 1 ret 0)).

Definition timing : M L N G (list Z) :=
  let* ls := get _loader_modules in
  let t := fold_left timing_step ls (0, 0) in
  ret [fst t; snd t; get_timing ProcessTime; get_timing ConvertTime].

End MasterGraphRest.

(** * The rest of the WarpAffine binding *)

(** ** [processWarpAffine] *)

Module WarpAffineKernel.

Import WarpAffine.

(** [RppiSize] *)
Record RppiSize := mkRppiSize {
  size_width : Z;
  size_height : Z
}.

(** The value of [data->device_type], an [Rpp32u] that the callback compares
    with the two affinity codes. *)
Inductive DeviceType :=
| Device (t : AgoDeviceType)
| Device_other (code : Z).

(** [WarpAffineLocalData]; [affine] is the array [Rpp32f affine[6]]. The
    OpenCL members are there when the binding is built with
    [ENABLE_OPENCL]. *)
Record WarpAffineLocalData := mkLocalData {
  handle_cmdq : Z;
  srcDim : RppiSize;
  dstDim : RppiSize;
  pSrc : Z;
  pDst : Z;
  affine : list float;
  local_device_type : DeviceType;
  cl_pSrc : Z;
  cl_pDst : Z
}.

Definition set_srcDim_height (v : Z) (d : WarpAffineLocalData) : WarpAffineLocalData :=
  mkLocalData (handle_cmdq d) (mkRppiSize (size_width (srcDim d)) v) (dstDim d)
    (pSrc d) (pDst d) (affine d) (local_device_type d) (cl_pSrc d) (cl_pDst d).
Definition set_srcDim_width (v : Z) (d : WarpAffineLocalData) : WarpAffineLocalData :=
  mkLocalData (handle_cmdq d) (mkRppiSize v (size_height (srcDim d))) (dstDim d)
    (pSrc d) (pDst d) (affine d) (local_device_type d) (cl_pSrc d) (cl_pDst d).
Definition set_dstDim_height (v : Z) (d : WarpAffineLocalData) : WarpAffineLocalData :=
  mkLocalData (handle_cmdq d) (srcDim d) (mkRppiSize (size_width (dstDim d)) v)
    (pSrc d) (pDst d) (affine d) (local_device_type d) (cl_pSrc d) (cl_pDst d).
Definition set_dstDim_width (v : Z) (d : WarpAffineLocalData) : WarpAffineLocalData :=
  mkLocalData (handle_cmdq d) (srcDim d) (mkRppiSize v (size_height (dstDim d)))
    (pSrc d) (pDst d) (affine d) (local_device_type d) (cl_pSrc d) (cl_pDst d).
Definition set_pSrc (v : Z) (d : WarpAffineLocalData) : WarpAffineLocalData :=
  mkLocalData (handle_cmdq d) (srcDim d) (dstDim d)
    v (pDst d) (affine d) (local_device_type d) (cl_pSrc d) (cl_pDst d).
Definition set_pDst (v : Z) (d : WarpAffineLocalData) : WarpAffineLocalData :=
  mkLocalData (handle_cmdq d) (srcDim d) (dstDim d)
    (pSrc d) v (affine d) (local_device_type d) (cl_pSrc d) (cl_pDst d).
Definition set_cl_pSrc (v : Z) (d : WarpAffineLocalData) : WarpAffineLocalData :=
  mkLocalData (handle_cmdq d) (srcDim d) (dstDim d)
    (pSrc d) (pDst d) (affine d) (local_device_type d) v (cl_pDst d).
Definition set_cl_pDst (v : Z) (d : WarpAffineLocalData) : WarpAffineLocalData :=
  mkLocalData (handle_cmdq d) (srcDim d) (dstDim d)
    (pSrc d) (pDst d) (affine d) (local_device_type d) (cl_pSrc d) v.
(** [data->affine[i] = v] *)
Definition set_affine (i : nat) (v : float) (d : WarpAffineLocalData)
  : WarpAffineLocalData :=
  mkLocalData (handle_cmdq d) (srcDim d) (dstDim d)
    (pSrc d) (pDst d) (<[i := v]> (affine d)) (local_device_type d)
    (cl_pSrc d) (cl_pDst d).

(** The calls into the RPP library, with their arguments. *)
Inductive RppCall :=
| rppi_warp_affine_u8_pln1_gpu
    (src : Z) (srcSize : RppiSize) (dst : Z) (dstSize : RppiSize)
    (affine : list float) (handle : Z)
| rppi_warp_affine_u8_pkd3_gpu
    (src : Z) (srcSize : RppiSize) (dst : Z) (dstSize : RppiSize)
    (affine : list float) (handle : Z)
| rppi_warp_affine_u8_pln1_host
    (src : Z) (srcSize : RppiSize) (dst : Z) (dstSize : RppiSize)
    (affine : list float)
| rppi_warp_affine_u8_pkd3_host
    (src : Z) (srcSize : RppiSize) (dst : Z) (dstSize : RppiSize)
    (affine : list float).

(** The OpenVX calls of the process callback that the validator does not
    make, each giving its status and the value it stores through its output
    pointer. [vxQueryNode] yields the node's local data, or a null
    pointer. *)
Class KernelVX := {
  vxQueryNode_LOCAL_DATA_PTR : vx_node -> vx_status * option WarpAffineLocalData;
  vxQueryImage_OPENCL_BUFFER : vx_image -> vx_status * Z;
  vxQueryImage_HOST_BUFFER : vx_image -> vx_status * Z;
  vxReadScalarValue_uint : vx_reference -> vx_status * Z;
  vxReadScalarValue_float : vx_reference -> vx_status * float
}.

Section Process.

Context `{!OpenVX} `{!KernelVX}.

(** Whether the binding is compiled with [ENABLE_OPENCL]. *)
Variable ENABLE_OPENCL : bool.

(** What the callback hands back: the returned status, the local data as
    it stands, and the RPP calls made. *)
Definition process_result : Type :=
  outcome (vx_status * option WarpAffineLocalData * list RppCall).

(** [parameters[idx]] *)
Definition parameter (parameters : list vx_reference) (idx : nat)
    (k : vx_reference -> process_result) : process_result :=
  match parameters !! idx with
  | None => Undefined
  | Some r => k r
  end.

(** [STATUS_ERROR_CHECK(call(..., &data->field, ...))], with the macro as
    for the validator: the value is stored, and a failure returns the
    status. *)
Definition checked {A} (q : vx_status * A)
    (store : A -> WarpAffineLocalData -> WarpAffineLocalData)
    (d : WarpAffineLocalData) (k : WarpAffineLocalData -> process_result)
  : process_result :=
  let d' := store (snd q) d in
  if decide (fst q = VX_SUCCESS) then k d' else Ok (fst q, Some d', []).

(** The eight [vxReadScalarValue] statements, the same in both branches:
    parameters 2 and 3 into [dstDim], parameters 4 to 9 into [affine]. *)
Definition read_scalars (parameters : list vx_reference) (d : WarpAffineLocalData)
    (k : WarpAffineLocalData -> process_result) : process_result :=
  parameter parameters 2 (fun p2 =>
  checked (vxReadScalarValue_uint p2) set_dstDim_width d (fun d =>
  parameter parameters 3 (fun p3 =>
  checked (vxReadScalarValue_uint p3) set_dstDim_height d (fun d =>
  parameter parameters 4 (fun p4 =>
  checked (vxReadScalarValue_float p4) (set_affine 0) d (fun d =>
  parameter parameters 5 (fun p5 =>
  checked (vxReadScalarValue_float p5) (set_affine 1) d (fun d =>
  parameter parameters 6 (fun p6 =>
  checked (vxReadScalarValue_float p6) (set_affine 2) d (fun d =>
  parameter parameters 7 (fun p7 =>
  checked (vxReadScalarValue_float p7) (set_affine 3) d (fun d =>
  parameter parameters 8 (fun p8 =>
  checked (vxReadScalarValue_float p8) (set_affine 4) d (fun d =>
  parameter parameters 9 (fun p9 =>
  checked (vxReadScalarValue_float p9) (set_affine 5) d k))))))))))))))).

(** The body of [if(data->device_type == AGO_TARGET_AFFINITY_GPU)] under
    [ENABLE_OPENCL]. *)
Definition process_gpu (parameters : list vx_reference) (df_image : vx_df_image)
    (d : WarpAffineLocalData) : process_result :=
  let handle := handle_cmdq d in
  parameter parameters 0 (fun p0 =>
  checked (vxQueryImage_HEIGHT p0) set_srcDim_height d (fun d =>
  checked (vxQueryImage_WIDTH p0) set_srcDim_width d (fun d =>
  checked (vxQueryImage_OPENCL_BUFFER p0) set_cl_pSrc d (fun d =>
  parameter parameters 1 (fun p1 =>
  checked (vxQueryImage_OPENCL_BUFFER p1) set_cl_pDst d (fun d =>
  read_scalars parameters d (fun d =>
  Ok (VX_SUCCESS, Some d,
      if decide (df_image = VX_DF_IMAGE_U8) then
        [rppi_warp_affine_u8_pln1_gpu (cl_pSrc d) (srcDim d) (cl_pDst d)
           (dstDim d) (affine d) handle]
      else if decide (df_image = VX_DF_IMAGE_RGB) then
        [rppi_warp_affine_u8_pkd3_gpu (cl_pSrc d) (srcDim d) (cl_pDst d)
           (dstDim d) (affine d) handle]
      else [])))))))).

(** The body of [else if(data->device_type == AGO_TARGET_AFFINITY_CPU)]. *)
Definition process_cpu (parameters : list vx_reference) (df_image : vx_df_image)
    (d : WarpAffineLocalData) : process_result :=
  parameter parameters 0 (fun p0 =>
  checked (vxQueryImage_HEIGHT p0) set_srcDim_height d (fun d =>
  checked (vxQueryImage_WIDTH p0) set_srcDim_width d (fun d =>
  checked (vxQueryImage_HOST_BUFFER p0) set_pSrc d (fun d =>
  parameter parameters 1 (fun p1 =>
  checked (vxQueryImage_HOST_BUFFER p1) set_pDst d (fun d =>
  read_scalars parameters d (fun d =>
  Ok (VX_SUCCESS, Some d,
      if decide (df_image = VX_DF_IMAGE_U8) then
        [rppi_warp_affine_u8_pln1_host (pSrc d) (srcDim d) (pDst d)
           (dstDim d) (affine d)]
      else if decide (df_image = VX_DF_IMAGE_RGB) then
        [rppi_warp_affine_u8_pkd3_host (pSrc d) (srcDim d) (pDst d)
           (dstDim d) (affine d)]
      else [])))))))).

(** [processWarpAffine]. Control that reaches the closing brace of the
    function, which returns a [vx_status], leaves it without a [return]. *)
Definition processWarpAffine (node : vx_node) (parameters : list vx_reference)
    (num : Z) : process_result :=
  let q := vxQueryNode_LOCAL_DATA_PTR node in
  let data := snd q in
  if decide (fst q = VX_SUCCESS) then
    parameter parameters 0 (fun p0 =>
    let qf := vxQueryImage_FORMAT p0 in
    if decide (fst qf = VX_SUCCESS) then
      let df_image := snd qf in
      match data with
      | None => Undefined
      | Some d =>
          match local_device_type d with
          | Device AGO_TARGET_AFFINITY_GPU =>
              if ENABLE_OPENCL then process_gpu parameters df_image d
              else Undefined
          | Device AGO_TARGET_AFFINITY_CPU => process_cpu parameters df_image d
          | Device_other _ => Undefined
          end
      end
    else Ok (fst qf, data, []))
  else Ok (fst q, data, []).

End Process.

(** ** [initializeWarpAffine] and [uninitializeWarpAffine] *)

Definition set_handle_cmdq (v : Z) (d : WarpAffineLocalData) : WarpAffineLocalData :=
  mkLocalData v (srcDim d) (dstDim d)
    (pSrc d) (pDst d) (affine d) (local_device_type d) (cl_pSrc d) (cl_pDst d).
Definition set_device_type (v : DeviceType) (d : WarpAffineLocalData)
  : WarpAffineLocalData :=
  mkLocalData (handle_cmdq d) (srcDim d) (dstDim d)
    (pSrc d) (pDst d) (affine d) v (cl_pSrc d) (cl_pDst d).

(** The OpenVX calls of the initialiser that neither the validator nor the
    process callback makes. [vxSetNodeAttribute] stores the pointer to the
    local data in the node. *)
Class InitVX := {
  vxQueryNode_OPENCL_COMMAND_QUEUE : vx_node -> vx_status * Z;
  vxCopyScalar_uint : vx_reference -> vx_status * Z;
  vxCopyScalar_float : vx_reference -> vx_status * float;
  vxCopyScalar_device : vx_reference -> vx_status * DeviceType;
  vxSetNodeAttribute_LOCAL_DATA_PTR : vx_node -> WarpAffineLocalData -> vx_status
}.

Section Initialize.

Context `{!OpenVX} `{!KernelVX} `{!InitVX}.

Variable ENABLE_OPENCL : bool.

(** The device type an all-zero [Rpp32u] stands for; the numeric codes of
    the affinities are defined outside these sources. *)
Variable zero_device : DeviceType.

(** What the initialiser hands back: the returned status, the structure it
    allocated as it stands, and the local data the node points at, if the
    initialiser has set it. *)
Definition init_result : Type :=
  outcome (vx_status * WarpAffineLocalData * option WarpAffineLocalData).

(** [new WarpAffineLocalData; memset(data, 0, sizeof( *data))] *)
Definition zeroed : WarpAffineLocalData :=
  mkLocalData 0 (mkRppiSize 0 0) (mkRppiSize 0 0) 0 0
    (replicate 6 (float_of_Z 0)) zero_device 0 0.

Definition init_parameter (parameters : list vx_reference) (idx : nat)
    (k : vx_reference -> init_result) : init_result :=
  match parameters !! idx with
  | None => Undefined
  | Some r => k r
  end.

(** [STATUS_ERROR_CHECK(call(..., &data->field, ...))] in the initialiser:
    a failure returns the status, leaving the structure where it is. *)
Definition init_checked {A} (q : vx_status * A)
    (store : A -> WarpAffineLocalData -> WarpAffineLocalData)
    (d : WarpAffineLocalData) (k : WarpAffineLocalData -> init_result)
  : init_result :=
  let d' := store (snd q) d in
  if decide (fst q = VX_SUCCESS) then k d' else Ok (fst q, d', None).

(** A statement compiled only under [ENABLE_OPENCL]. *)
Definition if_opencl (s : WarpAffineLocalData ->
                          (WarpAffineLocalData -> init_result) -> init_result)
    (d : WarpAffineLocalData) (k : WarpAffineLocalData -> init_result)
  : init_result :=
  if ENABLE_OPENCL then s d k else k d.

Definition initializeWarpAffine (node : vx_node) (parameters : list vx_reference)
    (num : Z) : init_result :=
  let data := zeroed in
  if_opencl (init_checked (vxQueryNode_OPENCL_COMMAND_QUEUE node) set_handle_cmdq)
    data (fun data =>
  init_parameter parameters 0 (fun p0 =>
  init_checked (vxQueryImage_HEIGHT p0) set_srcDim_height data (fun data =>
  init_checked (vxQueryImage_WIDTH p0) set_srcDim_width data (fun data =>
  init_parameter parameters 2 (fun p2 =>
  init_checked (vxCopyScalar_uint p2) set_dstDim_width data (fun data =>
  init_parameter parameters 3 (fun p3 =>
  init_checked (vxCopyScalar_uint p3) set_dstDim_height data (fun data =>
  init_parameter parameters 4 (fun p4 =>
  init_checked (vxCopyScalar_float p4) (set_affine 0) data (fun data =>
  init_parameter parameters 5 (fun p5 =>
  init_checked (vxCopyScalar_float p5) (set_affine 1) data (fun data =>
  init_parameter parameters 6 (fun p6 =>
  init_checked (vxCopyScalar_float p6) (set_affine 2) data (fun data =>
  init_parameter parameters 7 (fun p7 =>
  init_checked (vxCopyScalar_float p7) (set_affine 3) data (fun data =>
  init_parameter parameters 8 (fun p8 =>
  init_checked (vxCopyScalar_float p8) (set_affine 4) data (fun data =>
  init_parameter parameters 9 (fun p9 =>
  init_checked (vxCopyScalar_float p9) (set_affine 5) data (fun data =>
  init_parameter parameters 10 (fun p10 =>
  init_checked (vxCopyScalar_device p10) set_device_type data (fun data =>
  if_opencl (init_checked (vxQueryImage_OPENCL_BUFFER p0) set_cl_pSrc)
    data (fun data =>
  let status := vxSetNodeAttribute_LOCAL_DATA_PTR node data in
  if decide (status = VX_SUCCESS) then Ok (VX_SUCCESS, data, Some data)
  else Ok (status, data, None)))))))))))))))))))))))).

Definition uninitializeWarpAffine (node : vx_node) (parameters : list vx_reference)
    (num : Z) : vx_status :=
  VX_SUCCESS.

End Initialize.

End WarpAffineKernel.

(** ** More collaborators to run the model on

    A second set of collaborators, in which what can fail does: a node is
    the list of its output images, the graph carries nothing, and the
    runtime can neither adopt a handle nor create a buffer nor release a
    context. *)

Module SampleRest.

Import Sample.

#[export] Instance unit_Graph : Graph unit := {
  Graph_make _ _ _ _ := Ok tt;
  Graph_verify g h := Ok (g, h);
  Graph_process g h := Ok (g, h);
  Graph_release g := g
}.

#[export] Instance list_Node : Node (list ptr) unit := {
  output n := n;
  create n g := Ok (n, g);
  node_update_parameters n := n
}.

#[export] Instance failing_Runtime : Runtime unit := {
  vxReleaseContext _ := VX_FAILURE;
  clCreateBuffer _ _ := None;
  create_virtual img _ _ :=
    mkImage
      (mkImageInfo (width (info img)) (height_batch (info img))
         (color_plane_count (info img)) (color_format (info img))
         (mem_type (info img)) (Type_other 2))
      (buffer img);
  create_from_handle img _ _ := (1, img);
  ocl_copy_out_tensor _ _ _ _ _ _ out := Ok out
}.

Definition FWorld : Type := World Loader (list ptr) unit.



(** A device pipeline whose runtime cannot create a buffer: one 2x1
    single-plane output image at address 1. *)
Definition bufferless_pipeline : FWorld :=
  mkWorld
    (mkMasterGraph None None GPU 0 (Some 1%positive) OCL (info_of 0 0 0 HOST)
       [1%positive] [] [] [] false)
    {[1%positive := mkImage (info_of 2 1 1 OCL) [Byte.x61; Byte.x62]]} ∅.

(** A host pipeline, built, whose output is a single pixel of four planes. *)
Definition rgba_pipeline : SWorld :=
  after (build 32)
    (with_output (info_of 1 1 4 HOST) [Byte.x10; Byte.x20; Byte.x30; Byte.x40]
       (constructed CPU 0 1%positive)).

(** Three loaders, the second of which reports [-1]. *)
Definition sentinel_pipeline : SWorld :=
  with_loaders [mkLoader [] 3; mkLoader [] (-1); mkLoader [] 7]
    (constructed CPU 0 1%positive).

(** An OpenVX in which every call of the constructor succeeds, except the
    loading of [vx_media]. *)
Definition ok_ContextRuntime : ContextRuntime := {|
  vxCreateContext := Some 1%positive;
  vxGetStatus _ := VX_SUCCESS;
  vxSetContextAttribute_AFFINITY _ _ := VX_SUCCESS;
  vxLoadKernels _ name :=
    if decide (name = "vx_media") then VX_FAILURE else VX_SUCCESS;
  init_ocl _ := Ok tt
|}.

(** An OpenVX that creates a context but cannot load [vx_rpp]. *)
Definition bare_ContextRuntime : ContextRuntime := {|
  vxCreateContext := Some 1%positive;
  vxGetStatus _ := VX_SUCCESS;
  vxSetContextAttribute_AFFINITY _ _ := VX_SUCCESS;
  vxLoadKernels _ _ := VX_FAILURE;
  init_ocl _ := Ok tt
|}.

(** The local data of a WarpAffine node, zeroed but for the device type. *)
Definition local_data (t : WarpAffineKernel.DeviceType)
  : WarpAffineKernel.WarpAffineLocalData :=
  WarpAffineKernel.mkLocalData 0
    (WarpAffineKernel.mkRppiSize 0 0) (WarpAffineKernel.mkRppiSize 0 0) 0 0
    (replicate 6 (float_of_Z 0)) t 0 0.

(** Node 1 runs on the CPU; the local data of any other node carries an
    unknown device code. The buffers are at addresses 100 and up, the output
    is 320x240 and every coefficient is 1. *)
#[export] Instance warp_KernelVX : WarpAffineKernel.KernelVX := {
  WarpAffineKernel.vxQueryNode_LOCAL_DATA_PTR node :=
    (VX_SUCCESS,
     Some (local_data
             (if decide (node = 1%positive)
              then WarpAffineKernel.Device AGO_TARGET_AFFINITY_CPU
              else WarpAffineKernel.Device_other 0)));
  WarpAffineKernel.vxQueryImage_OPENCL_BUFFER image := (VX_FAILURE, 0);
  WarpAffineKernel.vxQueryImage_HOST_BUFFER image := (VX_SUCCESS, 100 + Z.pos image);
  WarpAffineKernel.vxReadScalarValue_uint r :=
    (VX_SUCCESS, if decide (r = 3%positive) then 320 else 240);
  WarpAffineKernel.vxReadScalarValue_float _ := (VX_SUCCESS, float_of_Z 1)
}.

(** An initialiser's OpenVX: the command queue is 7, the output is 320x240,
    every coefficient is 1 and the node is to run on the CPU. *)
#[export] Instance warp_InitVX : WarpAffineKernel.InitVX := {
  WarpAffineKernel.vxQueryNode_OPENCL_COMMAND_QUEUE _ := (VX_SUCCESS, 7);
  WarpAffineKernel.vxCopyScalar_uint r :=
    (VX_SUCCESS, if decide (r = 3%positive) then 320 else 240);
  WarpAffineKernel.vxCopyScalar_float _ := (VX_SUCCESS, float_of_Z 1);
  WarpAffineKernel.vxCopyScalar_device _ :=
    (VX_SUCCESS, WarpAffineKernel.Device AGO_TARGET_AFFINITY_CPU);
  WarpAffineKernel.vxSetNodeAttribute_LOCAL_DATA_PTR _ _ := VX_SUCCESS
}.

End SampleRest.

(** * The vocabulary of the properties *)

Section WorldVocabulary.

Context {L N G : Type}.

Abbreviation W := (World L N G).
Abbreviation Mon := (M L N G).

(** [keeps proj m]: running [m] leaves the part [proj] of the world as it
    was, whatever the outcome. *)
Definition keeps {X A} (proj : W -> X) (m : Mon A) : Prop :=
  forall w r w' e, m w = (r, w', e) -> proj w' = proj w.

(** [emits_only P m]: every call [m] makes satisfies [P]. *)
Definition emits_only {A} (P : Event -> Prop) (m : Mon A) : Prop :=
  forall w r w' e, m w = (r, w', e) -> Forall P e.

(** The output tensor is a device buffer of [n] floats. *)
Definition tensor_holds (w : W) (n : Z) : Prop :=
  exists m, _output_tensor (self w) = Some m /\
            cl_buffers w !! m = Some (n * sizeof_cl_float).

(** The bytes the output images put into the destination: byte [b] of image
    [n] of the list lands in slot [k0 + n]. *)
Definition byte_cells (w : W) (ps : list ptr) (k0 s : Z) (j : Z) (v : Byte.byte)
  : Prop :=
  exists (n : nat) p img b,
    ps !! n = Some p /\ heap w !! p = Some img /\
    0 <= b < s /\ buffer img !! Z.to_nat b = Some v /\
    j = (k0 + Z.of_nat n) * s + b.

End WorldVocabulary.

(** The messages of the exceptions. *)
Definition loader_failed : string :=
  "Loader module failed to laod next batch of images".
Definition no_outputs : string :=
  "No output images are there, cannot create the pipeline".
Definition outputs_differ : string :=
  "Dimension of the output images do not match".

Section LoaderVocabulary.

Context {L : Type} `{!LoaderModule L}.

(** The smallest of the loaders' counts, the first loader's taken first. *)
Definition min_count (l : L) (rest : list L) : Z :=
  fold_left Z.min (map count rest) (count l).

End LoaderVocabulary.

Definition is_allocation (ev : Event) : bool :=
  match ev with EvClCreateBuffer _ => true | _ => false end.

(** [writes R out out']: [out'] is [out] overwritten with the value [v] at
    every cell [j] such that [R j v]. *)
Definition writes {V} (R : Z -> V -> Prop) (out out' : gmap Z V) : Prop :=
  (forall j v, R j v -> out' !! j = Some v) /\
  (forall j, (forall v, ~ R j v) -> out' !! j = out !! j).

(** The cell of the destination that holds channel [c] of pixel [i] of
    output image [k], for images of [W]x[H] pixels and [C] planes. *)
Definition tensor_index (format : RaliTensorFormat) (W H C k c i : Z) : Z :=
  k * (W * H * C)
  + match format with
    | NHWC => c + i * C
    | NCHW => c * (W * H) + i
    end.

(** The channel of the source pixel that output channel [c] reads. *)
Definition source_channel (reverse_channels : bool) (C c : Z) : Z :=
  if reverse_channels then C - 1 - c else c.

(** [a[c]] for [c] in 0..2. *)
Definition pick3 {A} (a0 a1 a2 : A) (c : Z) : A :=
  if c =? 0 then a0 else if c =? 1 then a1 else a2.

(** The calls the two branches of [copy_output] make, image after image,
    the first image going to slot [k]. *)
Fixpoint memcpy_events (ps : list ptr) (k s : Z) : list Event :=
  match ps with
  | [] => []
  | p :: rest => EvMemcpy (k * s) p s :: memcpy_events rest (k + 1) s
  end.

Fixpoint copy_data_events (ps : list ptr) (k s : Z) : list Event :=
  match ps with
  | [] => []
  | p :: rest =>
      EvCopyData p (k * s) (Z.of_nat (length rest) =? 0)
      :: copy_data_events rest (k + 1) s
  end.

Section SizeVocabulary.

Variable dim_bits : Z.

(** The image dimensions and the image count are small enough for the
    element count and the byte size of the tensor not to wrap. *)
Definition fits (i : ImageInfo) (B : Z) : Prop :=
  0 <= width i /\ 0 <= height_batch i /\ 0 <= color_plane_count i /\
  0 <= dim_bits <= 64 /\ B < 2 ^ 64 /\
  width i * height_batch i < 2 ^ dim_bits /\
  width i * height_batch i * color_plane_count i < 2 ^ dim_bits /\
  width i * height_batch i * color_plane_count i * B * sizeof_cl_float < 2 ^ 64.

End SizeVocabulary.

(** The normalised pixels of [copy_out_tensor], for given multipliers,
    offsets and channel order. *)
Module Layout.

Section Normalisation.

Variables multiplier0 multiplier1 multiplier2 offset0 offset1 offset2 : float.
Variable reverse_channels : bool.

Abbreviation multiplier := (array3 multiplier0 multiplier1 multiplier2).
Abbreviation offset := (array3 offset0 offset1 offset2).

(** [v] is the normalised value of channel [ch] of pixel [i] of the image
    whose bytes are [in_buffer]. *)
Definition pixel_value (in_buffer : list Byte.byte) (C ch i : Z) (v : float) : Prop :=
  exists b,
    in_buffer !! Z.to_nat (i * C + source_channel reverse_channels C ch) = Some b /\
    v = fadd (pick3 offset0 offset1 offset2 ch)
             (fmul (pick3 multiplier0 multiplier1 multiplier2 ch) (float_of_uchar b)).

(** The loop nest shared by the two layouts, the index expression left
    open. *)
Definition copy_image_with (index : Z -> Z -> Z) (fuel : nat) (w h c : Z)
    (in_buffer : list Byte.byte) (out_ptr : gmap Z float) : outcome (gmap Z float) :=
  for_unsigned fuel 0 c (fun channel_idx out =>
    for_unsigned fuel 0 (to_size_t (w * h)) (fun i out =>
      outcome_bind
        (normalized (array3 multiplier0 multiplier1 multiplier2)
           (array3 offset0 offset1 offset2) in_buffer c reverse_channels
           channel_idx i)
        (fun v => Ok (<[index channel_idx i := v]> out)))
      out) out_ptr.

(** The cells one image writes. *)
Definition image_cells (format : RaliTensorFormat) (Wd H C k : Z)
    (in_buffer : list Byte.byte) (j : Z) (v : float) : Prop :=
  exists ch i,
    0 <= ch < C /\ 0 <= i < Wd * H /\
    j = tensor_index format Wd H C k ch i /\ pixel_value in_buffer C ch i v.

(** What the host branch does for one image, by layout. *)
Definition copy_image (format : RaliTensorFormat) (fuel : nat)
    (w h c dest_buf_offset : Z) (in_buffer : list Byte.byte)
    (out_ptr : gmap Z float) : outcome (gmap Z float) :=
  match format with
  | NHWC => copy_image_NHWC fuel multiplier offset reverse_channels
              w h c dest_buf_offset in_buffer out_ptr
  | NCHW => copy_image_NCHW fuel multiplier offset reverse_channels
              w h c dest_buf_offset in_buffer out_ptr
  end.

End Normalisation.

End Layout.

Section OwnershipVocabulary.

Context {L N G : Type}.

(** [never_throws m]: whatever [m] does, it does not leave by an
    exception. *)
Definition never_throws {A} (m : M L N G A) : Prop :=
  forall w r w' e, m w = (r, w', e) -> forall what, r <> Throw what.

(** The images the object will delete on [release()]. *)
Definition registered (w : World L N G) : list ptr :=
  _internal_images (self w) ++ _output_images (self w).

(** Every registered image is alive and registered once. *)
Definition registries_sound (w : World L N G) : Prop :=
  NoDup (registered w) /\ forall p, p ∈ registered w -> is_Some (heap w !! p).

End OwnershipVocabulary.



Section ReturnsVocabulary.

Context {L N G : Type}.

(** [returns m w e Q]: from [w], [m] returns normally, having made exactly
    the calls [e], with a value and a final world that satisfy [Q]. *)
Definition returns {A} (m : M L N G A) (w : World L N G) (e : list Event)
    (Q : A -> World L N G -> Prop) : Prop :=
  exists a w', m w = (Ok a, w', e) /\ Q a w'.

Context `{!Runtime G}.

(** The calls [release()] makes before and after the deletions. *)
Definition release_prefix (w : World L N G) : list Event :=
  match _graph (self w) with Some _ => [EvGraphRelease] | None => [] end
  ++ match _context (self w) with
     | Some c =>
         EvReleaseContext c
         :: (if decide (vxReleaseContext c = VX_SUCCESS) then []
             else [EvLog "Failed to call vxReleaseContext"])
     | None => []
     end.

Definition release_suffix (w : World L N G) : list Event :=
  match mem_type (_output_image_info (self w)), _output_tensor (self w) with
  | OCL, Some m => [EvClReleaseMemObject m]
  | _, _ => []
  end.

End ReturnsVocabulary.


(** A call that gives a resource back. *)
Definition is_release (ev : Event) : bool :=
  match ev with
  | EvGraphRelease | EvReleaseContext _ | EvDeleteImage _
  | EvClReleaseMemObject _ => true
  | _ => false
  end.

Section TimingVocabulary.

Context {L : Type} `{!LoaderTiming L}.

(** The sum of entry [k] of the timings of the loaders that report at least
    two entries. *)
Definition timing_sum (k : nat) (ls : list L) : Z :=
  fold_right Z.add 0
    (map (fun l => nth k (LoaderModule_timing l) 0)
       (List.filter (fun l => (2 <=? length (LoaderModule_timing l))%nat) ls)).

End TimingVocabulary.

(** The scalar type the validator expects of parameter [idx], for [idx]
    from 2 to 9: parameters 2 and 3 are the output dimensions, the others
    the affine coefficients. *)
Definition expected_type (idx : nat) : vx_type :=
  if (idx <? 4)%nat then VX_TYPE_INT32 else VX_TYPE_FLOAT32.

Section ProcessVocabulary.

Import WarpAffineKernel.

(** A result of the process callback that made at most one RPP call, and
    none unless it reports [VX_SUCCESS]. *)
Definition calls_on_success (r : process_result) : Prop :=
  forall s d calls,
    r = Ok (s, d, calls) ->
    calls = [] \/ (s = VX_SUCCESS /\ exists c, calls = [c]).

(** The buffer attribute each branch of the callback queries. *)
Definition buffer_query `{!KernelVX} (t : AgoDeviceType)
  : WarpAffine.vx_image -> vx_status * Z :=
  match t with
  | AGO_TARGET_AFFINITY_GPU => vxQueryImage_OPENCL_BUFFER
  | AGO_TARGET_AFFINITY_CPU => vxQueryImage_HOST_BUFFER
  end.

(** The RPP function each branch calls for an image format, if any. *)
Definition dispatched (t : AgoDeviceType) (df_image : vx_df_image)
    (src : Z) (srcSize : RppiSize) (dst : Z) (dstSize : RppiSize)
    (coefficients : list float) (handle : Z) : list RppCall :=
  match df_image, t with
  | VX_DF_IMAGE_U8, AGO_TARGET_AFFINITY_GPU =>
      [rppi_warp_affine_u8_pln1_gpu src srcSize dst dstSize coefficients handle]
  | VX_DF_IMAGE_RGB, AGO_TARGET_AFFINITY_GPU =>
      [rppi_warp_affine_u8_pkd3_gpu src srcSize dst dstSize coefficients handle]
  | VX_DF_IMAGE_U8, AGO_TARGET_AFFINITY_CPU =>
      [rppi_warp_affine_u8_pln1_host src srcSize dst dstSize coefficients]
  | VX_DF_IMAGE_RGB, AGO_TARGET_AFFINITY_CPU =>
      [rppi_warp_affine_u8_pkd3_host src srcSize dst dstSize coefficients]
  | _, _ => []
  end.

End ProcessVocabulary.

Section InitVocabulary.

Import WarpAffineKernel.

(** A result of the initialiser in which the node points at the new
    structure exactly when the status is [VX_SUCCESS]. *)
Definition attaches_on_success (r : init_result) : Prop :=
  forall s d attached,
    r = Ok (s, d, attached) ->
    (s = VX_SUCCESS /\ attached = Some d) \/ (s <> VX_SUCCESS /\ attached = None).

End InitVocabulary.

(** * Properties *)

(** ** Machine integers *)

Lemma wrap_small bits x : 0 <= x < 2 ^ bits -> wrap bits x = x.
Proof. intros Hx. unfold wrap. apply Z.mod_small. exact Hx. Qed.

Lemma to_size_t_small x : 0 <= x < 2 ^ 64 -> to_size_t x = x.
Proof. apply wrap_small. Qed.

Lemma to_unsigned_small x : 0 <= x < 2 ^ 32 -> to_unsigned x = x.
Proof. apply wrap_small. Qed.

Lemma to_int_small x : - 2 ^ 31 <= x < 2 ^ 31 -> to_int x = x.
Proof. intros Hx. unfold to_int. rewrite Z.mod_small; lia. Qed.

Lemma to_size_t_minus_one : to_size_t (-1) = SIZE_MAX.
Proof. reflexivity. Qed.

(** ** The monad *)

Section MonadFacts.

Context {L N G : Type}.

Abbreviation W := (World L N G).
Abbreviation Mon := (M L N G).

Lemma bind_Ok_inv {A B} (m : Mon A) (f : A -> Mon B) (w w' : W) b e :
  bind m f w = (Ok b, w', e) ->
  exists a w1 e1 e2,
    m w = (Ok a, w1, e1) /\ f a w1 = (Ok b, w', e2) /\ e = e1 ++ e2.
Proof.
  unfold bind. destruct (m w) as [[[a| | |] w1] e1]; try discriminate.
  destruct (f a w1) as [[r w2] e2] eqn:Hf. intros [= -> -> <-].
  exists a, w1, e1, e2. auto.
Qed.

(** A computation either stops at [m] or goes on with [f]. *)
Lemma bind_inv {A B} (m : Mon A) (f : A -> Mon B) (w w' : W) r e :
  bind m f w = (r, w', e) ->
  (exists a w1 e1 e2,
      m w = (Ok a, w1, e1) /\ f a w1 = (r, w', e2) /\ e = e1 ++ e2)
  \/ (exists r0, m w = (r0, w', e) /\ is_Ok r0 = false /\
                 is_Ok r = false /\
                 (forall what, r0 = Throw what <-> r = Throw what) /\
                 (r0 = Undefined <-> r = Undefined)).
Proof.
  unfold bind. destruct (m w) as [[[a| | |] w1] e1].
  - destruct (f a w1) as [[r2 w2] e2] eqn:Hf. intros [= <- <- <-].
    left. exists a, w1, e1, e2. auto.
  - intros [= <- <- <-]. right. exists (Throw what). repeat split; try done.
    all: intros [= ->]; reflexivity.
  - intros [= <- <- <-]. right. exists Undefined. repeat split; done.
  - intros [= <- <- <-]. right. exists OutOfFuel. repeat split; done.
Qed.

Lemma keeps_bind {X A B} (proj : W -> X) (m : Mon A) (f : A -> Mon B) :
  keeps proj m -> (forall a, keeps proj (f a)) -> keeps proj (bind m f).
Proof.
  intros Hm Hf w r w' e Hb. apply bind_inv in Hb as [Hb|Hb].
  - destruct Hb as (a & w1 & e1 & e2 & H1 & H2 & _).
    rewrite (Hf _ _ _ _ _ H2). eapply Hm; eauto.
  - destruct Hb as (r0 & H1 & _). eapply Hm; eauto.
Qed.

Lemma emits_only_bind {A B} P (m : Mon A) (f : A -> Mon B) :
  emits_only P m -> (forall a, emits_only P (f a)) -> emits_only P (bind m f).
Proof.
  intros Hm Hf w r w' e Hb. apply bind_inv in Hb as [Hb|Hb].
  - destruct Hb as (a & w1 & e1 & e2 & H1 & H2 & ->).
    apply Forall_app. split; [eapply Hm | eapply Hf]; eauto.
  - destruct Hb as (r0 & H1 & _). eapply Hm; eauto.
Qed.

Lemma keeps_pure {X A} (proj : W -> X) (m : Mon A) :
  (forall w, snd (fst (m w)) = w) -> keeps proj m.
Proof.
  intros Hm w r w' e Hw. specialize (Hm w). rewrite Hw in Hm.
  simpl in Hm. by subst.
Qed.

Lemma emits_only_silent {A} P (m : Mon A) :
  (forall w, snd (m w) = []) -> emits_only P m.
Proof.
  intros Hm w r w' e Hw. specialize (Hm w). rewrite Hw in Hm.
  simpl in Hm. subst. constructor.
Qed.

Lemma keeps_for_each {X A} (proj : W -> X) (xs : list A) (body : A -> Mon unit) :
  (forall x, keeps proj (body x)) -> keeps proj (for_each xs body).
Proof.
  intros Hb. induction xs as [|x xs IH]; simpl.
  - apply keeps_pure. done.
  - apply keeps_bind; auto.
Qed.

Lemma emits_only_for_each {A} P (xs : list A) (body : A -> Mon unit) :
  (forall x, emits_only P (body x)) -> emits_only P (for_each xs body).
Proof.
  intros Hb. induction xs as [|x xs IH]; simpl.
  - apply emits_only_silent. done.
  - apply emits_only_bind; auto.
Qed.

Lemma keeps_modify {X} (proj : W -> X) (f : MasterGraph L N G -> MasterGraph L N G) :
  (forall w, proj (mkWorld (f (self w)) (heap w) (cl_buffers w)) = proj w) ->
  keeps proj (modify f).
Proof. intros Hf w r w' e [= <- <- <-]. apply Hf. Qed.

Lemma keeps_modify_world {X} (proj : W -> X) (f : W -> W) :
  (forall w, proj (f w) = proj w) -> keeps proj (modify_world f).
Proof. intros Hf w r w' e [= <- <- <-]. apply Hf. Qed.

Lemma keeps_deref {X} (proj : W -> X) p : keeps proj (deref p).
Proof. apply keeps_pure. intros w. unfold deref. by destruct (heap w !! p). Qed.

Lemma emits_only_deref P p : emits_only P (deref (L:=L) (N:=N) (G:=G) p).
Proof. apply emits_only_silent. intros w. unfold deref. by destruct (heap w !! p). Qed.

Lemma emits_only_emit (P : Event -> Prop) ev :
  P ev -> emits_only P (emit (L:=L) (N:=N) (G:=G) ev).
Proof. intros Hp w r w' e [= <- <- <-]. by constructor. Qed.

End MonadFacts.

(** Frame reasoning, one constructor of the monad at a time. *)
Ltac frame_step :=
  lazymatch goal with
  | |- keeps _ (bind _ _) => apply keeps_bind; [| intros ?]
  | |- keeps _ (for_each _ _) => apply keeps_for_each; intros ?
  | |- keeps _ (deref _) => apply keeps_deref
  | |- keeps _ (modify _) => apply keeps_modify; intros [[] ? ?]; reflexivity
  | |- keeps _ (modify_world _) =>
      apply keeps_modify_world; intros [[] ? ?]; reflexivity
  | |- keeps _ (match ?x with _ => _ end) => destruct x
  | |- keeps _ _ => apply keeps_pure; intros ?; reflexivity
  | |- emits_only _ (bind _ _) => apply emits_only_bind; [| intros ?]
  | |- emits_only _ (for_each _ _) => apply emits_only_for_each; intros ?
  | |- emits_only _ (deref _) => apply emits_only_deref
  | |- emits_only _ (emit _) => apply emits_only_emit; try done
  | |- emits_only _ (match ?x with _ => _ end) => destruct x
  | |- emits_only _ _ => apply emits_only_silent; intros ?; reflexivity
  end.

Ltac frame := repeat frame_step.

(** Unfolds the primitive operations of the monad. *)
Ltac run_monad :=
  unfold bind, ret, get, emit, modify, modify_world, get_world, throw,
    undefined, lift in *; simpl in *.

(** ** run, update_parameters *)

Section RunFacts.

Context {L N G : Type}.
Context `{!LoaderModule L} `{!Graph G} `{!Node N G} `{!Runtime G}.

Abbreviation W := (World L N G).
Abbreviation Mon := (M L N G).

(** A loop whose every turn, when it returns, has made exactly the call
    [ev x] has made the calls [ev] of its elements, in order. *)
Lemma for_each_Ok_events {A} (ev : A -> Event) (body : A -> Mon unit) xs :
  (forall x (w w' : W) e, body x w = (Ok tt, w', e) -> e = [ev x]) ->
  forall (w w' : W) e,
    for_each xs body w = (Ok tt, w', e) -> e = map ev xs.
Proof.
  intros Hbody. induction xs as [|x xs IH]; intros w w' e; simpl.
  - by intros [= _ <-].
  - intros Hb. apply bind_Ok_inv in Hb as (a & w1 & e1 & e2 & H1 & H2 & ->).
    destruct a. rewrite (Hbody _ _ _ _ H1), (IH _ _ _ H2). reflexivity.
Qed.

Lemma load_one_Ok i (w w' : W) e :
  load_one i w = (Ok tt, w', e) -> e = [EvLoadNext i].
Proof.
  unfold load_one. run_monad.
  destruct (_loader_modules (self w) !! i) as [l|]; [|discriminate].
  destruct (load_next l (heap w)) as [[st l'] h']; simpl.
  destruct st; simpl; intros [= _ <-]; reflexivity.
Qed.

Lemma process_graph_Ok (w w' : W) e :
  process_graph w = (Ok tt, w', e) -> e = [EvGraphProcess].
Proof.
  unfold process_graph. run_monad.
  destruct (_graph (self w)) as [g|]; [|discriminate].
  destruct (Graph_process g (heap w)) as [[g' h']| | |]; simpl;
    intros [= _ <-]; reflexivity.
Qed.

Lemma update_node_Ok i (w w' : W) e :
  update_node i w = (Ok tt, w', e) -> e = [EvNodeUpdateParameters i].
Proof.
  unfold update_node. run_monad.
  destruct (_nodes (self w) !! i) as [n|]; [|discriminate].
  intros [= _ <-]; reflexivity.
Qed.

Lemma update_parameters_Ok (w w' : W) s e :
  update_parameters w = (Ok s, w', e) ->
  e = map EvNodeUpdateParameters (seq 0 (length (_nodes (self w)))).
Proof.
  unfold update_parameters. intros Hb.
  apply bind_Ok_inv in Hb as (ns & w1 & e1 & e2 & H1 & H2 & ->).
  injection H1 as <- <- <-.
  apply bind_Ok_inv in H2 as ([] & w2 & e3 & e4 & H3 & H4 & ->).
  injection H4 as _ _ <-.
  rewrite (for_each_Ok_events EvNodeUpdateParameters _ _ update_node_Ok _ _ _ H3).
  by rewrite app_nil_r.
Qed.

Lemma load_one_keeps_nodes i : keeps (fun w : W => _nodes (self w)) (load_one i).
Proof. unfold load_one. frame. Qed.

Lemma process_graph_keeps_nodes : keeps (fun w : W => _nodes (self w)) process_graph.
Proof. unfold process_graph. frame. Qed.

(** C2. A [run()] that returns has renewed the parameters once, then called
    [load_next] on every loader module in order, then executed the graph,
    then called [update_parameters] once on every node in order, and nothing
    else besides starting and stopping the process timer. *)
Theorem run_call_sequence (w w' : W) (s : Status) (e : list Event) :
  run w = (Ok s, w', e) ->
  e = [EvRenewParameters; EvTimerStart ProcessTime]
      ++ map EvLoadNext (seq 0 (length (_loader_modules (self w))))
      ++ [EvGraphProcess]
      ++ map EvNodeUpdateParameters (seq 0 (length (_nodes (self w))))
      ++ [EvTimerEnd ProcessTime].
Proof.
  unfold run. intros Hb.
  apply bind_Ok_inv in Hb as (v & w0 & e0 & e0' & H0 & Hb & ->).
  injection H0 as <- <- <-. destruct (_graph_verfied (self w)); [|discriminate].
  simpl in Hb.
  apply bind_Ok_inv in Hb as ([] & w1 & e1 & e1' & H1 & Hb & ->).
  injection H1 as <- <-.
  apply bind_Ok_inv in Hb as ([] & w2 & e2 & e2' & H2 & Hb & ->).
  injection H2 as <- <-.
  apply bind_Ok_inv in Hb as (ls & w3 & e3 & e3' & H3 & Hb & ->).
  injection H3 as <- <- <-.
  apply bind_Ok_inv in Hb as ([] & w4 & e4 & e4' & H4 & Hb & ->).
  apply bind_Ok_inv in Hb as ([] & w5 & e5 & e5' & H5 & Hb & ->).
  apply bind_Ok_inv in Hb as (s6 & w6 & e6 & e6' & H6 & Hb & ->).
  apply bind_Ok_inv in Hb as ([] & w7 & e7 & e7' & H7 & Hb & ->).
  injection H7 as <- <-. injection Hb as _ _ <-.
  rewrite (for_each_Ok_events EvLoadNext _ _ load_one_Ok _ _ _ H4).
  rewrite (process_graph_Ok _ _ _ H5).
  rewrite (update_parameters_Ok _ _ _ _ H6).
  assert (Hn4 : _nodes (self w4) = _nodes (self w)).
  { revert H4. apply (keeps_for_each (fun w : W => _nodes (self w))).
    apply load_one_keeps_nodes. }
  assert (Hn5 : _nodes (self w5) = _nodes (self w4)).
  { revert H5. apply process_graph_keeps_nodes. }
  rewrite Hn5, Hn4. simpl. reflexivity.
Qed.

(** C3. With the verified flag down, [run()] throws "Graph not verified",
    makes no call at all (no loader, no graph, no node, no timer) and leaves
    the whole world, loaders and images included, as it was. *)
Theorem run_unverified (w : W) :
  _graph_verfied (self w) = false ->
  run w = (Throw "Graph not verified", w, []).
Proof.
  intros Hflag. unfold run. run_monad. rewrite Hflag. simpl.
  destruct w; reflexivity.
Qed.

(** What [load_one] does on a loader that is there. *)
Lemma load_one_eq i (w : W) l :
  _loader_modules (self w) !! i = Some l ->
  load_one i w =
    (match fst (fst (load_next l (heap w))) with
     | LoaderModuleStatus_OK => Ok tt
     | LoaderModuleStatus_other _ => Throw loader_failed
     end,
     mkWorld
       (set_loader_modules
          (<[i := snd (fst (load_next l (heap w)))]> (_loader_modules (self w)))
          (self w))
       (snd (load_next l (heap w))) (cl_buffers w),
     [EvLoadNext i]).
Proof.
  intros Hl. unfold load_one. run_monad. rewrite Hl.
  destruct (load_next l (heap w)) as [[st l'] h']; simpl.
  destruct st; reflexivity.
Qed.

(** The loading loop stops at the first loader that reports a failure: if
    loader [k], still to be visited, can only fail, the loop throws at some
    [i <= k], having called [load_next] on loaders [j .. i] only. *)
Lemma load_loop_failure k l :
  (forall h, fst (fst (load_next l h)) <> LoaderModuleStatus_OK) ->
  forall n j (w : W),
    length (_loader_modules (self w)) = (j + n)%nat ->
    _loader_modules (self w) !! k = Some l ->
    (j <= k)%nat ->
    exists i w',
      (j <= i <= k)%nat /\
      for_each (seq j n) load_one w =
        (Throw loader_failed, w', map EvLoadNext (seq j (S i - j))).
Proof.
  intros Hfail. induction n as [|n IH]; intros j w Hlen Hk Hjk.
  - apply lookup_lt_Some in Hk. lia.
  - destruct (lookup_lt_is_Some_2 (_loader_modules (self w)) j) as [lj Hj];
      [lia|].
    simpl. unfold bind at 1. rewrite (load_one_eq _ _ _ Hj).
    destruct (fst (fst (load_next lj (heap w)))) eqn:Hst.
    + assert (Hne : j <> k).
      { intros ->. rewrite Hk in Hj. injection Hj as ->.
        by apply (Hfail (heap w)). }
      edestruct (IH (S j)) as (i & w' & Hi & Hloop); cycle 3.
      * rewrite Hloop. exists i, w'. split; [lia|].
        replace (S i - j)%nat with (S (S i - S j)) by lia. reflexivity.
      * simpl. rewrite length_insert. lia.
      * simpl. rewrite list_lookup_insert_ne; done.
      * lia.
    + eexists j, _. split; [lia|].
      replace (S j - j)%nat with 1%nat by lia. reflexivity.
Qed.

Lemma load_one_keeps_verified i :
  keeps (fun w : W => _graph_verfied (self w)) (load_one i).
Proof. unfold load_one. frame. Qed.

Lemma load_one_keeps_graph i : keeps (fun w : W => _graph (self w)) (load_one i).
Proof. unfold load_one. frame. Qed.

(** C7. If some loader module can only fail, [run()] on a built object
    throws the loader error having called nothing but the parameter renewal,
    the timer start and [load_next] on the loaders up to the first failing
    one: the graph is not executed and no node is updated. The verified flag
    is still up afterwards, and the graph and the nodes are untouched. *)
Theorem run_loader_failure (w : W) (k : nat) (l : L) :
  _graph_verfied (self w) = true ->
  _loader_modules (self w) !! k = Some l ->
  (forall h, fst (fst (load_next l h)) <> LoaderModuleStatus_OK) ->
  exists i w',
    (i <= k)%nat /\
    run w = (Throw "Loader module failed to laod next batch of images", w',
             [EvRenewParameters; EvTimerStart ProcessTime]
             ++ map EvLoadNext (seq 0 (S i))) /\
    (EvGraphProcess ∉ snd (run w)) /\
    (forall n, EvNodeUpdateParameters n ∉ snd (run w)) /\
    _graph_verfied (self w') = true /\
    _graph (self w') = _graph (self w) /\
    _nodes (self w') = _nodes (self w).
Proof.
  intros Hflag Hk Hfail.
  destruct (load_loop_failure k l Hfail
              (length (_loader_modules (self w))) 0%nat w)
    as (i & w' & Hi & Hloop); [lia|done|lia|].
  assert (Hrun : run w =
    (Throw loader_failed, w',
     [EvRenewParameters; EvTimerStart ProcessTime]
     ++ map EvLoadNext (seq 0 (S i)))).
  { unfold run. run_monad. rewrite Hflag. simpl.
    replace (mkWorld (self w) (heap w) (cl_buffers w)) with w by (by destruct w).
    rewrite Hloop. reflexivity. }
  exists i, w'. split; [lia|]. split; [exact Hrun|].
  rewrite Hrun. simpl snd.
  assert (Hev : forall ev, ev ∈ EvRenewParameters :: EvTimerStart ProcessTime
                                :: map EvLoadNext (seq 0 (S i)) ->
                ev = EvRenewParameters \/ ev = EvTimerStart ProcessTime
                \/ exists n, ev = EvLoadNext n).
  { intros ev Hin. apply elem_of_cons in Hin as [->|Hin]; [by left|].
    apply elem_of_cons in Hin as [->|Hin]; [by right; left|].
    apply list_elem_of_In, in_map_iff in Hin as (n & <- & _). right; right; eauto. }
  split; [|split].
  - intros Hin. apply Hev in Hin as [?|[?|[? ?]]]; discriminate.
  - intros n Hin. apply Hev in Hin as [?|[?|[? ?]]]; discriminate.
  - split; [|split].
    + rewrite <- Hflag. revert Hloop.
      apply (keeps_for_each (fun w : W => _graph_verfied (self w))).
      apply load_one_keeps_verified.
    + revert Hloop. apply (keeps_for_each (fun w : W => _graph (self w))).
      apply load_one_keeps_graph.
    + revert Hloop. apply (keeps_for_each (fun w : W => _nodes (self w))).
      apply load_one_keeps_nodes.
Qed.

End RunFacts.

(** ** build, release and the loader bookkeeping *)

Lemma ImageInfo_eqb_spec a b :
  ImageInfo_eqb a b = true <->
  width a = width b /\ height_batch a = height_batch b /\
  color_plane_count a = color_plane_count b /\ color_format a = color_format b.
Proof.
  unfold ImageInfo_eqb. rewrite !andb_true_iff, !Z.eqb_eq, Nat.eqb_eq. tauto.
Qed.

Lemma ImageInfo_eqb_sym a b : ImageInfo_eqb a b = ImageInfo_eqb b a.
Proof.
  destruct (ImageInfo_eqb a b) eqn:Hab, (ImageInfo_eqb b a) eqn:Hba; try done.
  - apply ImageInfo_eqb_spec in Hab. apply not_true_iff_false in Hba.
    destruct Hba. apply ImageInfo_eqb_spec. intuition congruence.
  - apply ImageInfo_eqb_spec in Hba. apply not_true_iff_false in Hab.
    destruct Hab. apply ImageInfo_eqb_spec. intuition congruence.
Qed.

Lemma ImageInfo_eqb_trans a b c :
  ImageInfo_eqb a b = true -> ImageInfo_eqb b c = true -> ImageInfo_eqb a c = true.
Proof. rewrite !ImageInfo_eqb_spec. intuition congruence. Qed.

Section BuildFacts.

Context {L N G : Type}.
Context `{!LoaderModule L} `{!Graph G} `{!Node N G} `{!Runtime G}.
Variable dim_bits : Z.

Abbreviation W := (World L N G).
Abbreviation Mon := (M L N G).

Lemma check_output_image_eq p (w : W) img :
  heap w !! p = Some img ->
  check_output_image p w =
    (if ImageInfo_eqb (info img) (_output_image_info (self w))
     then Ok tt else Throw outputs_differ, w, []).
Proof.
  intros Hp. unfold check_output_image, deref. run_monad. rewrite Hp.
  destruct (ImageInfo_eqb _ _); destruct w; reflexivity.
Qed.

(** The comparison loop throws at the first image whose descriptor is not
    the reference one, touching nothing. *)
Lemma check_loop_mismatch (w : W) ps p img :
  Forall (fun q => is_Some (heap w !! q)) ps ->
  p ∈ ps -> heap w !! p = Some img ->
  ImageInfo_eqb (info img) (_output_image_info (self w)) = false ->
  for_each ps check_output_image w = (Throw outputs_differ, w, []).
Proof.
  intros Hlive Hin Hp Hne. induction ps as [|q ps IH]; [by apply elem_of_nil in Hin|].
  apply Forall_cons in Hlive as [[imq Hq] Hlive].
  simpl. unfold bind. rewrite (check_output_image_eq _ _ _ Hq).
  destruct (ImageInfo_eqb (info imq) _) eqn:Heq; [|reflexivity].
  apply elem_of_cons in Hin as [->|Hin].
  - congruence.
  - rewrite (IH Hlive Hin). reflexivity.
Qed.

(** C4. [build()] on an object without output images, or with two output
    images whose descriptors differ, throws; it has then made no call at
    all, so no tensor was allocated and no graph created or compiled; the
    verified flag is down, and the tensor, the graph, the images and the
    device buffers are as before. *)
Theorem build_rejects (w : W) :
  Forall (fun p => is_Some (heap w !! p)) (_output_images (self w)) ->
  (_output_images (self w) = [] \/
   exists a b ia ib,
     a ∈ _output_images (self w) /\ b ∈ _output_images (self w) /\
     heap w !! a = Some ia /\ heap w !! b = Some ib /\
     ImageInfo_eqb (info ia) (info ib) = false) ->
  exists what w',
    build dim_bits w = (Throw what, w', []) /\
    (_output_images (self w) = [] -> what = no_outputs) /\
    (_output_images (self w) <> [] -> what = outputs_differ) /\
    _graph_verfied (self w') = false /\
    _output_tensor (self w') = _output_tensor (self w) /\
    _graph (self w') = _graph (self w) /\
    heap w' = heap w /\ cl_buffers w' = cl_buffers w.
Proof.
  intros Hlive Hcase. unfold build. run_monad.
  destruct (_output_images (self w)) as [|front rest] eqn:Houts.
  - eexists _, _. split; [reflexivity|]. simpl. repeat split; done.
  - destruct Hcase as [|(a & b & ia & ib & Ha & Hb & Hia & Hib & Hne)]; [done|].
    pose proof Hlive as Hlive'.
    apply Forall_cons in Hlive' as [[imf Hf] _].
    unfold deref. simpl. rewrite Hf. simpl.
    set (w1 := mkWorld _ (heap w) (cl_buffers w)).
    assert (Hbad : exists p img, p ∈ front :: rest /\ heap w1 !! p = Some img /\
              ImageInfo_eqb (info img) (_output_image_info (self w1)) = false).
    { simpl. destruct (ImageInfo_eqb (info ia) (info imf)) eqn:Ha'.
      - exists b, ib. repeat split; try done.
        destruct (ImageInfo_eqb (info ib) (info imf)) eqn:Hb'; [|done].
        rewrite ImageInfo_eqb_sym in Hb'.
        by rewrite (ImageInfo_eqb_trans _ _ _ Ha' Hb') in Hne.
      - exists a, ia. done. }
    destruct Hbad as (p & img & Hp & Hpi & Hpne).
    pose proof (check_loop_mismatch w1 (front :: rest) p img Hlive Hp Hpi Hpne)
      as Hloop.
    simpl in Hloop. rewrite Hloop.
    eexists _, _. split; [reflexivity|]. simpl. repeat split; done.
Qed.

(** C9. The [cl_mem] overload of [copy_output] returns [NOT_IMPLEMENTED]
    in every world, for every argument, makes no call (the conversion timer
    is not started) and changes nothing. *)
Theorem copy_output_cl_not_implemented (w : W) (out_ptr : cl_mem) (out_size : Z) :
  copy_output_cl out_ptr out_size w = (Ok NOT_IMPLEMENTED, w, []).
Proof.
  unfold copy_output_cl, body, then_, return_. run_monad.
  by destruct w.
Qed.

Lemma min_count_least (l : L) rest :
  forall x, x ∈ l :: rest -> min_count l rest <= count x.
Proof.
  unfold min_count. revert l. induction rest as [|r rest IH]; intros l x Hx.
  - apply list_elem_of_singleton in Hx as ->. simpl. lia.
  - simpl.
    assert (Hmono : forall (cs : list Z) a b, a <= b ->
              fold_left Z.min cs a <= fold_left Z.min cs b).
    { induction cs as [|c cs IHc]; intros a b Hab; simpl; [done|].
      apply IHc. lia. }
    assert (Hle : forall (cs : list Z) a, fold_left Z.min cs a <= a).
    { induction cs as [|c cs IHc]; intros a; simpl; [lia|].
      etransitivity; [apply IHc|]. lia. }
    apply elem_of_cons in Hx as [->|Hx].
    + etransitivity; [apply Hle|]. lia.
    + apply elem_of_cons in Hx as [->|Hx].
      * etransitivity; [apply Hle|]. lia.
      * etransitivity; [|apply (IH r x)]; [|by apply elem_of_cons; right].
        apply Hmono. lia.
Qed.

Lemma min_count_attained (l : L) rest :
  exists x, x ∈ l :: rest /\ min_count l rest = count x.
Proof.
  unfold min_count. revert l. induction rest as [|r rest IH]; intros l; simpl.
  - exists l. split; [by left|done].
  - destruct (Z.min_spec (count l) (count r)) as [[_ ->]|[_ ->]].
    + destruct (IH l) as (x & Hx & ->). exists x. split; [|done].
      apply elem_of_cons in Hx as [->|Hx]; [by left|by right; right].
    + destruct (IH r) as (x & Hx & ->). exists x. split; [|done]. by right.
Qed.

Lemma remaining_fold (ls : list L) (acc : Z) :
  0 <= acc < 2 ^ 31 ->
  Forall (fun l => 0 <= count l < 2 ^ 31) ls ->
  fold_left remaining_step ls acc = fold_left Z.min (map count ls) acc
  /\ 0 <= fold_left Z.min (map count ls) acc < 2 ^ 31.
Proof.
  revert acc. induction ls as [|l ls IH]; intros acc Hacc Hall; simpl; [done|].
  apply Forall_cons in Hall as [Hl Hall].
  assert (Hstep : remaining_step acc l = Z.min acc (count l)).
  { unfold remaining_step. rewrite to_int_small by lia.
    destruct (acc =? -1) eqn:E1; [lia|].
    destruct (count l <? acc) eqn:E2; lia. }
  rewrite Hstep. apply IH; [lia|done].
Qed.

(** C10. Without loader modules [remaining_images_count()] returns
    [(size_t)-1], the largest [size_t]; with loaders whose counts are
    non-negative [int] values it returns the smallest count. Either way it
    changes nothing. *)
Theorem remaining_images_count_value (w : W) :
  Forall (fun l => 0 <= count l < 2 ^ 31) (_loader_modules (self w)) ->
  remaining_images_count w =
    (Ok (match _loader_modules (self w) with
         | [] => 2 ^ 64 - 1
         | l :: rest => min_count l rest
         end), w, []).
Proof.
  intros Hall. unfold remaining_images_count. run_monad.
  replace (mkWorld (self w) (heap w) (cl_buffers w)) with w by (by destruct w).
  destruct (_loader_modules (self w)) as [|l rest]; [reflexivity|].
  apply Forall_cons in Hall as [Hl Hall]. simpl.
  assert (Hfirst : remaining_step (-1) l = count l).
  { unfold remaining_step. simpl. by rewrite to_int_small by lia. }
  rewrite Hfirst.
  destruct (remaining_fold rest (count l) Hl Hall) as [-> Hrange].
  unfold min_count. rewrite to_size_t_small by lia. reflexivity.
Qed.

(** After [release()] the verified flag is down. *)
Lemma release_unverifies (w w' : W) r e :
  release w = (r, w', e) -> _graph_verfied (self w') = false.
Proof.
  unfold release. intros Hb.
  apply bind_inv in Hb as [(a & w1 & e1 & e2 & H1 & H2 & _)|(r0 & H1 & Hr0 & _)].
  - injection H1 as <- <-. revert H2.
    match goal with
    | |- ?m ?w1 = _ -> _ =>
        assert (Hk : keeps (fun w : W => _graph_verfied (self w)) m)
    end.
    { unfold deallocate_output_tensor. frame.
      all: unfold delete_image; frame. }
    intros H2. apply Hk in H2. rewrite H2. reflexivity.
  - injection H1 as <- _ _. discriminate.
Qed.

(** [release()] never touches the two image registries. *)
Lemma release_keeps_registries :
  keeps (fun w : W => (_internal_images (self w), _output_images (self w)))
    release.
Proof.
  unfold release, deallocate_output_tensor. frame.
  all: unfold delete_image; frame.
Qed.

Lemma delete_image_dead p (w : W) :
  heap w !! p = None -> delete_image p w = (Undefined, w, []).
Proof.
  intros Hp. unfold delete_image. run_monad. rewrite Hp. by destruct w.
Qed.

Lemma delete_image_Ok p (w w' : W) e :
  delete_image p w = (Ok tt, w', e) ->
  self w' = self w /\ heap w' = delete p (heap w).
Proof.
  unfold delete_image. run_monad. destruct (heap w !! p); [|discriminate].
  by intros [= <- _].
Qed.

(** A deletion loop that returns has deleted every image of its list, and
    what was dead before is still dead. *)
Lemma delete_loop_Ok ps :
  forall (w w' : W) e,
    for_each ps delete_image w = (Ok tt, w', e) ->
    self w' = self w /\
    (forall p, p ∈ ps -> heap w' !! p = None) /\
    (forall q, heap w !! q = None -> heap w' !! q = None).
Proof.
  induction ps as [|p ps IH]; intros w w' e; simpl.
  - intros [= <- _]. split; [done|]. split; [|done].
    intros p Hp. by apply elem_of_nil in Hp.
  - intros Hb. apply bind_Ok_inv in Hb as ([] & w1 & e1 & e2 & H1 & H2 & _).
    apply delete_image_Ok in H1 as [Hself Hheap].
    apply IH in H2 as (Hself' & Hdead & Hstay).
    split; [congruence|]. split.
    + intros q [->|Hq]%elem_of_cons; [|by apply Hdead].
      apply Hstay. rewrite Hheap. apply lookup_delete_eq.
    + intros q Hq. apply Hstay. rewrite Hheap.
      destruct (decide (p = q)) as [->|Hne].
      * apply lookup_delete_eq.
      * by rewrite lookup_delete_ne.
Qed.

Lemma deallocate_output_tensor_keeps_heap :
  keeps (fun w : W => (self w, heap w)) deallocate_output_tensor.
Proof. unfold deallocate_output_tensor. frame. Qed.

(** After a [release()] that returned, every image the object still lists is
    dead. *)
Lemma release_leaves_dangling (w w1 : W) e :
  release w = (Ok tt, w1, e) ->
  forall p, p ∈ _internal_images (self w1) ++ _output_images (self w1) ->
            heap w1 !! p = None.
Proof.
  intros Hrel.
  pose proof (release_keeps_registries _ _ _ _ Hrel) as Hreg.
  injection Hreg as HI HO. rewrite HI, HO.
  unfold release in Hrel.
  apply bind_Ok_inv in Hrel as ([] & wa & ea & ea' & Ha & Hrel & _).
  apply bind_Ok_inv in Hrel as (g & wb & eb & eb' & Hb & Hrel & _).
  apply bind_Ok_inv in Hrel as ([] & wc & ec & ec' & Hc & Hrel & _).
  apply bind_Ok_inv in Hrel as (ctx & wd & e_d & ed' & Hd & Hrel & _).
  apply bind_Ok_inv in Hrel as ([] & we & ee & ee' & He & Hrel & _).
  apply bind_Ok_inv in Hrel as (internal & wf & ef & ef' & Hf & Hrel & _).
  apply bind_Ok_inv in Hrel as ([] & wg & eg & eg' & Hg & Hrel & _).
  apply bind_Ok_inv in Hrel as (outs & wh & eh & eh' & Hh & Hrel & _).
  apply bind_Ok_inv in Hrel as ([] & wi & ei & ei' & Hi & Hrel & _).
  apply bind_Ok_inv in Hrel as (st & wj & ej & ej' & Hj & Hrel & _).
  injection Hrel as <- _.
  injection Hf as <- <- _. injection Hh as <- <- _.
  apply delete_loop_Ok in Hg as (Hselfg & HdeadI & _).
  apply delete_loop_Ok in Hi as (Hselfi & HdeadO & HstayO).
  apply deallocate_output_tensor_keeps_heap in Hj. injection Hj as Hselfj Hheapj.
  assert (HIe : _internal_images (self we) = _internal_images (self w)).
  { rewrite <- HI, Hselfj, Hselfi, Hselfg. reflexivity. }
  assert (HOe : _output_images (self wg) = _output_images (self w)).
  { rewrite <- HO, Hselfj, Hselfi. reflexivity. }
  intros p [Hp|Hp]%elem_of_app; rewrite Hheapj.
  - apply HstayO, HdeadI. by rewrite HIe.
  - apply HdeadO. by rewrite HOe.
Qed.

(** Releasing twice. Whenever the object owns at least one image, a
    [release()] that follows a [release()] that returned deletes an image
    that is already dead. *)
Lemma second_release_undefined (w w1 : W) e :
  release w = (Ok tt, w1, e) ->
  _internal_images (self w) ++ _output_images (self w) <> [] ->
  fst (fst (release w1)) = Undefined.
Proof.
  intros Hrel Howns.
  pose proof (release_leaves_dangling _ _ _ Hrel) as Hdead.
  pose proof (release_keeps_registries _ _ _ _ Hrel) as Hreg.
  injection Hreg as HI HO. rewrite <- HI, <- HO in Howns.
  unfold release. run_monad.
  destruct (_graph (self w1)); simpl;
    (destruct (_context (self w1)); simpl;
     [destruct (decide _); simpl|]).
  all: destruct (_internal_images (self w1)) as [|p I] eqn:EI; simpl;
    [destruct (_output_images (self w1)) as [|p O] eqn:EO;
     [by destruct Howns|]; simpl|].
  all: unfold bind; rewrite delete_image_dead;
    [reflexivity|simpl; apply Hdead; set_solver].
Qed.

End BuildFacts.

(** ** The WarpAffine validator *)

Section ValidateFacts.

Import WarpAffine.
Context `{!OpenVX}.

Lemma check_scalar_typed parameters idx ty metas k :
  scalar_typed parameters idx ty ->
  check_scalar parameters idx ty metas k = k.
Proof.
  intros (r & Hr & Hq). unfold check_scalar, STATUS_ERROR_CHECK.
  rewrite Hr, Hq. simpl. rewrite !decide_True by done. reflexivity.
Qed.

Lemma set_meta1_ok metas m a k :
  metas !! 1%nat = Some m ->
  vxSetMetaFormatAttribute_status m a = VX_SUCCESS ->
  set_meta1 metas a k = k (<[1%nat := vxSetMetaFormatAttribute m a]> metas).
Proof.
  intros Hm Hs. unfold set_meta1, STATUS_ERROR_CHECK. rewrite Hm, Hs.
  rewrite !decide_True by done. reflexivity.
Qed.

(** C8. When the scalar parameters have the expected types and the OpenVX
    queries succeed, the validator returns [VX_SUCCESS] exactly for an input
    image of format U8 or RGB and [VX_ERROR_INVALID_VALUE] for any other
    format, and [metas[1]] then carries the input format and the height and
    width of the output image. *)
Theorem validateWarpAffine_formats node parameters num metas
    image output_image df_image height width m1 :
  scalar_typed parameters 2 VX_TYPE_INT32 ->
  scalar_typed parameters 3 VX_TYPE_INT32 ->
  scalar_typed parameters 4 VX_TYPE_FLOAT32 ->
  scalar_typed parameters 5 VX_TYPE_FLOAT32 ->
  scalar_typed parameters 6 VX_TYPE_FLOAT32 ->
  scalar_typed parameters 7 VX_TYPE_FLOAT32 ->
  scalar_typed parameters 8 VX_TYPE_FLOAT32 ->
  scalar_typed parameters 9 VX_TYPE_FLOAT32 ->
  vxQueryParameter_REF (vxGetParameterByIndex node 0) = (VX_SUCCESS, image) ->
  vxQueryImage_FORMAT image = (VX_SUCCESS, df_image) ->
  vxQueryParameter_REF (vxGetParameterByIndex node 1) = (VX_SUCCESS, output_image) ->
  vxQueryImage_HEIGHT output_image = (VX_SUCCESS, height) ->
  vxQueryImage_WIDTH output_image = (VX_SUCCESS, width) ->
  metas !! 1%nat = Some m1 ->
  (forall m a, vxSetMetaFormatAttribute_status m a = VX_SUCCESS) ->
  validateWarpAffine node parameters num metas =
    Ok (if decide (df_image = VX_DF_IMAGE_U8 \/ df_image = VX_DF_IMAGE_RGB)
        then VX_SUCCESS else VX_ERROR_INVALID_VALUE,
        <[1%nat := mkMeta (Some df_image) (Some height) (Some width)]> metas).
Proof.
  intros H2 H3 H4 H5 H6 H7 H8 H9 Hin Hfmt Hout Hh Hw Hm Hset.
  unfold validateWarpAffine.
  rewrite !check_scalar_typed by assumption.
  rewrite Hin. simpl. rewrite Hfmt. simpl. rewrite Hout. simpl.
  rewrite Hh. simpl. rewrite Hw. simpl.
  unfold STATUS_ERROR_CHECK. rewrite !decide_True by done.
  assert (Hlen : (1 < length metas)%nat) by (by apply lookup_lt_Some in Hm).
  rewrite (set_meta1_ok _ m1) by auto.
  erewrite set_meta1_ok;
    [|by apply list_lookup_insert_eq|by auto].
  erewrite set_meta1_ok;
    [|by apply list_lookup_insert_eq; rewrite length_insert|by auto].
  rewrite !list_insert_insert_eq. simpl.
  f_equal. f_equal.
  destruct (decide (df_image = VX_DF_IMAGE_U8 \/ df_image = VX_DF_IMAGE_RGB))
    as [Hok|Hbad].
  - rewrite decide_False; [done|]. intros [? ?]. destruct Hok; done.
  - rewrite decide_True; [done|]. split; intros ->; apply Hbad; auto.
Qed.

End ValidateFacts.

(** ** Loops over unsigned counters and the cells they write *)

Lemma for_unsigned_from {S} (Inv : Z -> S -> Prop) (body : Z -> S -> outcome S) n :
  0 <= n < 2 ^ 32 ->
  (forall i s, 0 <= i < n -> Inv i s -> exists s', body i s = Ok s' /\ Inv (i + 1) s') ->
  forall fuel i s,
    0 <= i <= n -> (Z.to_nat (n - i) < fuel)%nat -> Inv i s ->
    exists s', for_unsigned fuel i n body s = Ok s' /\ Inv n s'.
Proof.
  intros Hn Hstep. induction fuel as [|fuel IH]; intros i s Hi Hfuel Hinv; [lia|].
  simpl. destruct (i <? n) eqn:Hlt.
  - apply Z.ltb_lt in Hlt.
    destruct (Hstep i s) as (s1 & -> & Hinv1); [lia|done|]. simpl.
    rewrite to_unsigned_small by lia. apply IH; [lia|lia|done].
  - apply Z.ltb_ge in Hlt. assert (i = n) as -> by lia. eauto.
Qed.

(** With fuel above the bound, a loop whose bound fits the counter runs its
    body for [0 .. n-1] and ends. *)
Lemma for_unsigned_invariant {S} (Inv : Z -> S -> Prop) (body : Z -> S -> outcome S)
    n fuel s :
  0 <= n < 2 ^ 32 -> (Z.to_nat n < fuel)%nat ->
  (forall i s, 0 <= i < n -> Inv i s -> exists s', body i s = Ok s' /\ Inv (i + 1) s') ->
  Inv 0 s ->
  exists s', for_unsigned fuel 0 n body s = Ok s' /\ Inv n s'.
Proof.
  intros Hn Hfuel Hstep Hinv.
  apply (for_unsigned_from Inv body n Hn Hstep); [lia| |done].
  by rewrite Z.sub_0_r.
Qed.

Lemma writes_nothing {V} (R : Z -> V -> Prop) (out : gmap Z V) :
  (forall j v, ~ R j v) -> writes R out out.
Proof. intros Hnone. split; [intros j v Hr; by destruct (Hnone j v)|done]. Qed.

Lemma writes_insert {V} (out : gmap Z V) j v :
  writes (fun j' v' => j' = j /\ v' = v) out (<[j := v]> out).
Proof.
  split.
  - intros j' v' [-> ->]. apply lookup_insert_eq.
  - intros j' Hno. apply lookup_insert_ne. intros <-. by apply (Hno v).
Qed.

(** Two rounds of writes to disjoint cells add up. *)
Lemma writes_then {V} (R1 R2 R : Z -> V -> Prop) (out out1 out2 : gmap Z V) :
  writes R1 out out1 -> writes R2 out1 out2 ->
  (forall j v v', R1 j v -> R2 j v' -> False) ->
  (forall j v, R j v <-> R1 j v \/ R2 j v) ->
  writes R out out2.
Proof.
  intros [H1 H1'] [H2 H2'] Hdisj HR. split.
  - intros j v [Hr|Hr]%HR.
    + rewrite H2'; [by apply H1|]. intros v' Hr'. by apply (Hdisj j v v').
    + by apply H2.
  - intros j Hno. rewrite H2', H1'; [done| |].
    + intros v Hr. apply (Hno v), HR. by left.
    + intros v Hr. apply (Hno v), HR. by right.
Qed.

Lemma writes_ext {V} (R R' : Z -> V -> Prop) (out out' : gmap Z V) :
  (forall j v, R j v <-> R' j v) -> writes R out out' -> writes R' out out'.
Proof.
  intros HR [H1 H2]. split.
  - intros j v Hr. by apply H1, HR.
  - intros j Hno. apply H2. intros v Hr. by apply (Hno v), HR.
Qed.

(** A loop whose turn [i] writes the cells [R i], distinct turns writing
    distinct cells, writes the cells of all its turns. *)
Lemma for_unsigned_writes {V} (R : Z -> Z -> V -> Prop)
    (body : Z -> gmap Z V -> outcome (gmap Z V)) n fuel out :
  0 <= n < 2 ^ 32 -> (Z.to_nat n < fuel)%nat ->
  (forall i i' j v v', 0 <= i < n -> 0 <= i' < n -> R i j v -> R i' j v' -> i = i') ->
  (forall i o, 0 <= i < n -> exists o', body i o = Ok o' /\ writes (R i) o o') ->
  exists out',
    for_unsigned fuel 0 n body out = Ok out' /\
    writes (fun j v => exists i, 0 <= i < n /\ R i j v) out out'.
Proof.
  intros Hn Hfuel Hdisj Hbody.
  destruct (for_unsigned_invariant
              (fun i o => 0 <= i <= n /\
                          writes (fun j v => exists i', 0 <= i' < i /\ R i' j v) out o)
              body n fuel out Hn Hfuel) as (out' & Hrun & _ & Hw).
  - intros i o Hi [_ Hw]. destruct (Hbody i o Hi) as (o' & Ho' & Hw').
    exists o'. split; [done|]. split; [lia|].
    eapply writes_then; [exact Hw|exact Hw'| |].
    + intros j v v' (i' & Hi' & Hr) Hr'.
      assert (i' = i) by (eapply Hdisj; [| |exact Hr|exact Hr']; lia). lia.
    + intros j v. split.
      * intros (i' & Hi' & Hr). destruct (decide (i' = i)) as [->|Hne].
        -- by right.
        -- left. exists i'. split; [lia|done].
      * intros [(i' & Hi' & Hr)|Hr]; [exists i'|exists i]; split; (lia || done).
  - split; [lia|]. apply writes_nothing. intros j v (i' & Hi' & _). lia.
  - eauto.
Qed.

(** ** copy_out_tensor: the host branch *)

Lemma radix_inj (base r q r' q' : Z) :
  0 <= r < base -> 0 <= r' < base ->
  r + q * base = r' + q' * base -> r = r' /\ q = q'.
Proof. intros Hr Hr' Heq. assert (q = q') by nia. subst. lia. Qed.

Lemma tensor_index_inj format W H C k c i k' c' i' :
  0 <= W * H -> 0 <= C ->
  0 <= c < C -> 0 <= i < W * H -> 0 <= c' < C -> 0 <= i' < W * H ->
  tensor_index format W H C k c i = tensor_index format W H C k' c' i' ->
  k = k' /\ c = c' /\ i = i'.
Proof.
  intros HWH HC Hc Hi Hc' Hi'. unfold tensor_index. intros Heq.
  destruct format.
  - destruct (radix_inj (W * H * C) (c + i * C) k (c' + i' * C) k') as [Hr Hk];
      [nia|nia|lia|].
    destruct (radix_inj C c i c' i') as [? ?]; [lia|lia|lia|]. auto.
  - destruct (radix_inj (W * H * C) (c * (W * H) + i) k (c' * (W * H) + i') k')
      as [Hr Hk]; [nia|nia|lia|].
    destruct (radix_inj (W * H) i c i' c') as [? ?]; [lia|lia|lia|]. auto.
Qed.

Section TensorFacts.

Context {L N G : Type}.
Context `{!LoaderModule L} `{!Graph G} `{!Node N G} `{!Runtime G}.

Abbreviation W := (World L N G).

Variables multiplier0 multiplier1 multiplier2 offset0 offset1 offset2 : float.
Variable reverse_channels : bool.

Abbreviation pixel_value :=
  (Layout.pixel_value multiplier0 multiplier1 multiplier2 offset0 offset1 offset2
     reverse_channels).
Abbreviation copy_image_with :=
  (Layout.copy_image_with multiplier0 multiplier1 multiplier2 offset0 offset1
     offset2 reverse_channels).
Abbreviation image_cells :=
  (Layout.image_cells multiplier0 multiplier1 multiplier2 offset0 offset1 offset2
     reverse_channels).
Abbreviation copy_image :=
  (Layout.copy_image multiplier0 multiplier1 multiplier2 offset0 offset1 offset2
     reverse_channels).

Lemma array3_pick3 {A} (a0 a1 a2 : A) c :
  0 <= c < 3 -> array3 a0 a1 a2 c = Ok (pick3 a0 a1 a2 c).
Proof.
  intros Hc. unfold array3, pick3.
  destruct (c =? 0) eqn:E0; [done|]. destruct (c =? 1) eqn:E1; [done|].
  destruct (c =? 2) eqn:E2; [done|]. lia.
Qed.

Lemma normalized_ok in_buffer C ch i :
  0 <= C <= 3 -> 0 <= ch < C -> 0 <= i ->
  (i + 1) * C <= Z.of_nat (length in_buffer) -> (i + 1) * C < 2 ^ 64 ->
  exists v,
    normalized (array3 multiplier0 multiplier1 multiplier2)
      (array3 offset0 offset1 offset2) in_buffer C reverse_channels ch i = Ok v
    /\ pixel_value in_buffer C ch i v.
Proof.
  intros HC Hch Hi Hlen Hfit. unfold normalized.
  rewrite !array3_pick3 by lia. simpl.
  set (src := i * C + source_channel reverse_channels C ch).
  assert (Hsrc : 0 <= src < (i + 1) * C).
  { unfold src, source_channel. destruct reverse_channels; nia. }
  assert (Hidx : (if reverse_channels
                  then to_size_t (i * C + C - ch - 1)
                  else to_size_t (i * C + ch)) = src).
  { unfold src, source_channel. destruct reverse_channels.
    - replace (i * C + C - ch - 1) with (i * C + (C - 1 - ch)) by lia.
      apply to_size_t_small. unfold src, source_channel in Hsrc. lia.
    - apply to_size_t_small. unfold src, source_channel in Hsrc. lia. }
  rewrite Hidx. unfold read_uchar.
  destruct (lookup_lt_is_Some_2 in_buffer (Z.to_nat src)) as [b Hb]; [lia|].
  rewrite Hb. simpl. eexists. split; [reflexivity|]. exists b. done.
Qed.

Lemma copy_image_with_writes index format fuel Wd H C k in_buffer out :
  0 <= C <= 3 -> 0 <= Wd * H < 2 ^ 32 ->
  (Z.to_nat (Wd * H) < fuel)%nat -> (3 < fuel)%nat ->
  Wd * H * C <= Z.of_nat (length in_buffer) -> Wd * H * C < 2 ^ 64 ->
  (forall ch i, 0 <= ch < C -> 0 <= i < Wd * H ->
                index ch i = tensor_index format Wd H C k ch i) ->
  exists out',
    copy_image_with index fuel Wd H C in_buffer out = Ok out' /\
    writes (image_cells format Wd H C k in_buffer) out out'.
Proof.
  intros HC HWH Hfuel Hfuel3 Hlen Hfit Hindex. unfold Layout.copy_image_with.
  rewrite to_size_t_small by lia.
  match goal with
  | |- exists o, for_unsigned _ _ _ ?body _ = _ /\ _ =>
      destruct (for_unsigned_writes
           (fun ch j v => exists i, 0 <= i < Wd * H /\
                            j = tensor_index format Wd H C k ch i /\
                            pixel_value in_buffer C ch i v) body C fuel out)
        as (out' & Hrun & Hw); [lia|lia| | |]
  end; cycle 2.
  { exists out'. split; [exact Hrun|]. eapply writes_ext; [|exact Hw].
    intros j v. unfold Layout.image_cells. split.
    - intros (ch & Hch & i & Hi & Hj & Hv). exists ch, i. done.
    - intros (ch & i & Hch & Hi & Hj & Hv). exists ch. split; [done|]. exists i. done. }
  - intros ch ch' j v v' Hch Hch' (i & Hi & -> & _) (i' & Hi' & Heq & _).
    apply tensor_index_inj in Heq; [|lia..]. tauto.
  - intros ch o Hch.
    apply (for_unsigned_writes
             (fun i j v => j = tensor_index format Wd H C k ch i /\
                           pixel_value in_buffer C ch i v)); [lia|lia| |].
    + intros i i' j v v' Hi Hi' [-> _] [Heq _].
      apply tensor_index_inj in Heq; [|lia..]. tauto.
    + intros i o' Hi.
      destruct (normalized_ok in_buffer C ch i) as (v & -> & Hv); [lia|lia|lia|nia|nia|].
      simpl. eexists. split; [reflexivity|].
      rewrite Hindex by lia.
      eapply writes_ext; [|apply writes_insert].
      intros j v'. split.
      * intros [-> ->]. done.
      * intros [-> (b & Hb & ->)]. destruct Hv as (b' & Hb' & ->).
        rewrite Hb in Hb'. by injection Hb' as ->.
Qed.

Abbreviation multiplier := (array3 multiplier0 multiplier1 multiplier2).
Abbreviation offset := (array3 offset0 offset1 offset2).

Lemma copy_image_writes format fuel Wd H C k in_buffer out :
  0 <= C <= 3 -> 0 <= Wd * H < 2 ^ 32 ->
  (Z.to_nat (Wd * H) < fuel)%nat -> (3 < fuel)%nat ->
  Wd * H * C <= Z.of_nat (length in_buffer) ->
  0 <= k -> (k + 1) * (Wd * H * C) < 2 ^ 64 ->
  exists out',
    copy_image format fuel Wd H C (k * (Wd * H * C)) in_buffer out = Ok out' /\
    writes (image_cells format Wd H C k in_buffer) out out'.
Proof.
  intros HC HWH Hfuel Hfuel3 Hlen Hk Hfit.
  assert (Hs : 0 <= Wd * H * C) by nia.
  destruct format.
  - apply (copy_image_with_writes
             (fun ch i => to_size_t (k * (Wd * H * C) + ch + i * C)));
      [done|done|done|done|done|nia|].
    intros ch i Hch Hi. unfold tensor_index.
    rewrite to_size_t_small; [lia|]. nia.
  - apply (copy_image_with_writes
             (fun ch i => to_size_t (k * (Wd * H * C) + ch * to_size_t (Wd * H) + i)));
      [done|done|done|done|done|nia|].
    intros ch i Hch Hi. unfold tensor_index.
    rewrite (to_size_t_small (Wd * H)) by lia.
    rewrite to_size_t_small; [lia|]. nia.
Qed.

Lemma copy_out_tensor_host_cons (w : W) format fuel Wd H C p ps dest out img out1 r :
  heap w !! p = Some img ->
  copy_image format fuel Wd H C dest (buffer img) out = Ok out1 ->
  copy_out_tensor_host fuel format multiplier offset reverse_channels Wd H C ps
    (to_size_t (dest + to_size_t (Wd * H * C))) out1 w = (r, w, []) ->
  copy_out_tensor_host fuel format multiplier offset reverse_channels Wd H C
    (p :: ps) dest out w = (r, w, []).
Proof.
  intros Hp Himg Hrest. simpl. unfold bind, deref, lift, ret. rewrite Hp.
  destruct format; simpl in *; rewrite Himg; simpl; rewrite Hrest;
    by destruct r.
Qed.

(** The host branch, image after image: image [n] of the list fills the
    cells of slot [k0 + n]. *)
Lemma copy_out_tensor_host_writes (w : W) format fuel Wd H C :
  0 <= C <= 3 -> 0 <= Wd * H < 2 ^ 32 ->
  (Z.to_nat (Wd * H) < fuel)%nat -> (3 < fuel)%nat ->
  forall ps k0 out,
    0 <= k0 -> (k0 + Z.of_nat (length ps)) * (Wd * H * C) < 2 ^ 64 ->
    (forall p, p ∈ ps ->
       exists img, heap w !! p = Some img /\
                   Wd * H * C <= Z.of_nat (length (buffer img))) ->
    exists out',
      copy_out_tensor_host fuel format multiplier offset reverse_channels
        Wd H C ps (k0 * (Wd * H * C)) out w = (Ok out', w, []) /\
      writes (fun j v => exists (n : nat) p img,
                ps !! n = Some p /\ heap w !! p = Some img /\
                image_cells format Wd H C (k0 + Z.of_nat n) (buffer img) j v)
        out out'.
Proof.
  intros HC HWH Hfuel Hfuel3.
  assert (Hs : 0 <= Wd * H * C) by nia.
  induction ps as [|p ps IH]; intros k0 out Hk0 Hfit Hlive.
  - exists out. split; [reflexivity|].
    apply writes_nothing. intros j v (n & p & img & Hn & _). done.
  - destruct (Hlive p) as (img & Hp & Hlen); [by left|].
    rewrite length_cons in Hfit.
    destruct (copy_image_writes format fuel Wd H C k0 (buffer img) out)
      as (out1 & Himg & Hw1); try done; [nia|].
    destruct (IH (k0 + 1) out1) as (out' & Hrest & Hw2); [lia|nia| |].
    { intros q Hq. apply Hlive. by right. }
    exists out'. split.
    + eapply copy_out_tensor_host_cons; [exact Hp|exact Himg|].
      rewrite (to_size_t_small (Wd * H * C)) by nia.
      rewrite to_size_t_small by nia.
      replace (k0 * (Wd * H * C) + Wd * H * C) with ((k0 + 1) * (Wd * H * C)) by lia.
      exact Hrest.
    + eapply writes_then; [exact Hw1|exact Hw2| |].
      * intros j v v' (ch & i & Hch & Hi & -> & _)
          (n & q & imq & _ & _ & ch' & i' & Hch' & Hi' & Heq & _).
        apply tensor_index_inj in Heq; [|lia..]. lia.
      * intros j v. split.
        -- intros ([|n] & q & imq & Hn & Hq & Hcells).
           ++ left. simpl in Hn. injection Hn as <-. rewrite Hp in Hq.
              injection Hq as <-. by rewrite Z.add_0_r in Hcells.
           ++ right. exists n, q, imq. repeat split; try done.
              replace (k0 + 1 + Z.of_nat n) with (k0 + Z.of_nat (S n)) by lia.
              done.
        -- intros [Hcells|(n & q & imq & Hn & Hq & Hcells)].
           ++ exists 0%nat, p, img. rewrite Z.add_0_r. done.
           ++ exists (S n), q, imq. repeat split; try done.
              replace (k0 + Z.of_nat (S n)) with (k0 + 1 + Z.of_nat n) by lia.
              done.
Qed.

(** C1. On host memory, with at most three planes, [copy_out_tensor]
    returns and the float at cell [k*(W*H*C) + c + i*C] (NHWC) or
    [k*(W*H*C) + c*(W*H) + i] (NCHW) of the destination is
    [offset[c] + multiplier[c] * b] where [b] is the byte of pixel [i] of the
    [k]-th output image at channel [c], or at channel [C-1-c] when the
    channels are reversed. *)
Theorem copy_out_tensor_host_layout (w : W) (fuel : nat) (out_ptr : gmap Z float)
    (format : RaliTensorFormat) :
  let info := _output_image_info (self w) in
  let Wd := width info in
  let H := height_batch info in
  let C := color_plane_count info in
  let ps := _output_images (self w) in
  mem_type info = HOST ->
  0 <= Wd < 2 ^ 64 -> 0 <= H < 2 ^ 64 -> 0 <= C <= 3 -> Wd * H < 2 ^ 32 ->
  Wd * H * C * Z.of_nat (length ps) < 2 ^ 64 ->
  (Z.to_nat (Wd * H) < fuel)%nat -> (3 < fuel)%nat ->
  (forall p, p ∈ ps ->
     exists img, heap w !! p = Some img /\
                 Wd * H * C <= Z.of_nat (length (buffer img))) ->
  exists out',
    copy_out_tensor fuel out_ptr format multiplier0 multiplier1 multiplier2
      offset0 offset1 offset2 reverse_channels w
    = (Ok (OK, out'), w, [EvTimerStart ConvertTime; EvTimerEnd ConvertTime]) /\
    forall (k : nat) p img c i b,
      ps !! k = Some p -> heap w !! p = Some img ->
      0 <= c < C -> 0 <= i < Wd * H ->
      buffer img !! Z.to_nat (i * C + source_channel reverse_channels C c) = Some b ->
      out' !! tensor_index format Wd H C (Z.of_nat k) c i
      = Some (fadd (pick3 offset0 offset1 offset2 c)
                (fmul (pick3 multiplier0 multiplier1 multiplier2 c)
                   (float_of_uchar b))).
Proof.
  intros info Wd H C ps Hmem HW HH HC HWH Hfit Hfuel Hfuel3 Hlive.
  destruct (copy_out_tensor_host_writes w format fuel Wd H C HC ltac:(nia)
              Hfuel Hfuel3 ps 0 out_ptr)
    as (out' & Hrun & Hcells & _); [lia|nia|exact Hlive|].
  exists out'. split.
  - unfold copy_out_tensor. run_monad.
    fold info. rewrite Hmem. simpl.
    fold Wd H C ps. rewrite !to_size_t_small by lia.
    replace (mkWorld (self w) (heap w) (cl_buffers w)) with w by (by destruct w).
    rewrite Z.mul_0_l in Hrun. rewrite Hrun. reflexivity.
  - intros k p img c i b Hk Hp Hc Hi Hb.
    apply Hcells. exists k, p, img. rewrite Z.add_0_l.
    split; [exact Hk|]. split; [exact Hp|].
    exists c, i. split; [exact Hc|]. split; [exact Hi|]. split; [reflexivity|].
    exists b. split; [exact Hb|reflexivity].
Qed.

End TensorFacts.

(** ** The output tensor and the raw byte copy *)

Section OutputFacts.

Context {L N G : Type}.
Context `{!LoaderModule L} `{!Graph G} `{!Node N G} `{!Runtime G}.
Variable dim_bits : Z.

Abbreviation W := (World L N G).

Lemma dims_product_fits i B :
  fits dim_bits i B -> 0 <= B ->
  dims_product dim_bits i = width i * height_batch i * color_plane_count i.
Proof.
  intros (HW & HH & HC & Hdb & _ & HWH & Hs & _) HB. unfold dims_product.
  rewrite (wrap_small dim_bits (width i * height_batch i)) by nia.
  apply wrap_small. nia.
Qed.

Lemma allocate_output_tensor_Ok (w w' : W) st e :
  allocate_output_tensor dim_bits w = (Ok st, w', e) ->
  _output_image_info (self w') = _output_image_info (self w) /\
  _output_images (self w') = _output_images (self w) /\
  match mem_type (_output_image_info (self w)) with
  | OCL =>
      exists m,
        _output_tensor (self w') = Some m /\
        cl_buffers w' !! m =
          Some (to_size_t
                  (to_size_t (dims_product dim_bits (_output_image_info (self w))
                              * Z.of_nat (length (_output_images (self w))))
                   * sizeof_cl_float))
  | HOST => w' = w /\ e = []
  end.
Proof.
  unfold allocate_output_tensor. run_monad.
  destruct (mem_type (_output_image_info (self w))); simpl.
  - destruct (clCreateBuffer _ _) as [m|]; simpl; [|discriminate].
    intros [= _ <- _]. simpl. repeat split. exists m. split; [done|].
    apply lookup_insert_eq.
  - intros [= _ <- <-]. by destruct w.
Qed.

Lemma create_single_graph_keeps_tensor :
  keeps (fun w : W => (_output_tensor (self w), cl_buffers w,
                       _output_image_info (self w), _output_images (self w)))
    create_single_graph.
Proof. unfold create_single_graph, create_node, create_output_image. frame. Qed.

Lemma create_single_graph_no_allocation :
  emits_only (fun ev => is_allocation ev = false) (create_single_graph (L:=L)).
Proof. unfold create_single_graph, create_node, create_output_image. frame. Qed.

Lemma check_output_image_pure p (w w' : W) r e :
  check_output_image p w = (r, w', e) -> w' = w /\ e = [].
Proof.
  unfold check_output_image, deref. run_monad.
  destruct (heap w !! p); simpl; [|by intros [= _ <- <-]; destruct w].
  destruct (ImageInfo_eqb _ _); simpl; intros [= _ <- <-]; by destruct w.
Qed.

Lemma check_loop_pure ps (w w' : W) r e :
  for_each ps check_output_image w = (r, w', e) -> w' = w /\ e = [].
Proof.
  revert w w' r e. induction ps as [|p ps IH]; intros w w' r e; simpl.
  - by intros [= _ <- <-].
  - intros Hb. apply bind_inv in Hb as [Hb|Hb].
    + destruct Hb as (a & w1 & e1 & e2 & H1 & H2 & ->).
      apply check_output_image_pure in H1 as [-> ->].
      apply IH in H2 as [-> ->]. done.
    + destruct Hb as (r0 & H1 & _). by apply check_output_image_pure in H1.
Qed.

(** What a [build()] that returns has done about the tensor: on device
    memory the tensor is a fresh buffer sized from the reference descriptor
    and the number of output images; on host memory no buffer was
    requested. *)
Lemma build_tensor (w w' : W) st e :
  build dim_bits w = (Ok st, w', e) ->
  let i := _output_image_info (self w') in
  let B := Z.of_nat (length (_output_images (self w'))) in
  match mem_type i with
  | OCL =>
      exists m,
        _output_tensor (self w') = Some m /\
        cl_buffers w' !! m =
          Some (to_size_t (to_size_t (dims_product dim_bits i * B) * sizeof_cl_float))
  | HOST =>
      _output_tensor (self w') = _output_tensor (self w) /\
      cl_buffers w' = cl_buffers w /\
      Forall (fun ev => is_allocation ev = false) e
  end.
Proof.
  unfold build. intros Hb.
  apply bind_Ok_inv in Hb as ([] & w0 & e0 & e0' & H0 & Hb & ->).
  injection H0 as <- <-.
  apply bind_Ok_inv in Hb as (outs & w1 & e1 & e1' & H1 & Hb & ->).
  injection H1 as <- <- <-.
  simpl in Hb. destruct (_output_images (self w)) as [|front rest] eqn:Houts;
    [discriminate|].
  apply bind_Ok_inv in Hb as (img & w2 & e2 & e2' & H2 & Hb & ->).
  unfold deref in H2. simpl in H2.
  destruct (heap w !! front) as [imf|]; [|discriminate].
  injection H2 as <- <- <-.
  apply bind_Ok_inv in Hb as ([] & w3 & e3 & e3' & H3 & Hb & ->).
  injection H3 as <- <-.
  apply bind_Ok_inv in Hb as ([] & w4 & e4 & e4' & H4 & Hb & ->).
  apply check_loop_pure in H4 as [-> ->].
  apply bind_Ok_inv in Hb as (st5 & w5 & e5 & e5' & H5 & Hb & ->).
  apply bind_Ok_inv in Hb as ([] & w6 & e6 & e6' & H6 & Hb & ->).
  apply bind_Ok_inv in Hb as ([] & w7 & e7 & e7' & H7 & Hb & ->).
  injection H7 as <- <-. injection Hb as _ <- <-.
  pose proof (create_single_graph_keeps_tensor _ _ _ _ H6) as Hkeep.
  injection Hkeep as Ht Hc Hi Ho.
  apply allocate_output_tensor_Ok in H5 as (Hi5 & Ho5 & Halloc).
  simpl in *. rewrite Hi, Ho, Hi5, Ho5. rewrite Hi5 in Hi. simpl.
  destruct (mem_type (info imf)).
  - destruct Halloc as (m & Hm & Hsize). exists m. rewrite Ht, Hc. done.
  - destruct Halloc as [-> ->]. rewrite Ht, Hc. simpl.
    split; [done|]. split; [done|]. rewrite app_nil_r.
    apply (create_single_graph_no_allocation _ _ _ _ H6).
Qed.

Lemma write_bytes_writes bs :
  forall dst dest,
    writes (fun j v => exists n : nat, bs !! n = Some v /\ j = dest + Z.of_nat n)
      dst (write_bytes dst dest bs).
Proof.
  induction bs as [|b bs IH]; intros dst dest; simpl.
  - apply writes_nothing. intros j v (n & Hn & _). done.
  - eapply writes_then; [apply writes_insert|apply IH| |].
    + intros j v v' [-> _] (n & _ & Hj). lia.
    + intros j v. split.
      * intros ([|n] & Hn & ->).
        -- left. simpl in Hn. injection Hn as ->. split; [lia|done].
        -- right. exists n. split; [done|lia].
      * intros [[-> ->]|(n & Hn & ->)].
        -- exists 0%nat. split; [done|lia].
        -- exists (S n). split; [done|lia].
Qed.

Lemma memcpy_writes dst dest src n :
  0 <= n <= Z.of_nat (length src) ->
  exists out',
    memcpy dst dest src n = Ok out' /\
    writes (fun j v => exists k, 0 <= k < n /\ src !! Z.to_nat k = Some v /\
                                 j = dest + k) dst out'.
Proof.
  intros Hn. unfold memcpy.
  destruct (n <=? Z.of_nat (length src)) eqn:Hle; [|lia].
  eexists. split; [reflexivity|].
  eapply writes_ext; [|apply write_bytes_writes].
  intros j v. split.
  - intros (m & Hm & ->).
    assert (Hlt : (m < Z.to_nat n)%nat).
    { apply lookup_lt_Some in Hm. rewrite length_take in Hm. lia. }
    rewrite lookup_take_lt in Hm by done.
    exists (Z.of_nat m). rewrite Nat2Z.id. split; [lia|done].
  - intros (k & Hk & Hv & ->). exists (Z.to_nat k).
    rewrite lookup_take_lt by lia. split; [done|lia].
Qed.

Lemma byte_cells_cons (w : W) p ps k0 s img j v :
  heap w !! p = Some img ->
  byte_cells w (p :: ps) k0 s j v <->
  (exists b, 0 <= b < s /\ buffer img !! Z.to_nat b = Some v /\ j = k0 * s + b)
  \/ byte_cells w ps (k0 + 1) s j v.
Proof.
  intros Hp. unfold byte_cells. split.
  - intros ([|n] & q & imq & b & Hn & Hq & Hb & Hv & ->).
    + left. simpl in Hn. injection Hn as <-. rewrite Hp in Hq. injection Hq as <-.
      exists b. split; [done|]. split; [done|]. lia.
    + right. exists n, q, imq, b. repeat split; try done; lia.
  - intros [(b & Hb & Hv & ->)|(n & q & imq & b & Hn & Hq & Hb & Hv & ->)].
    + exists 0%nat, p, img, b. repeat split; try done; lia.
    + exists (S n), q, imq, b. repeat split; try done; lia.
Qed.

Lemma slots_disjoint (w : W) ps k0 s j b v :
  0 <= b < s -> j = k0 * s + b -> byte_cells w ps (k0 + 1) s j v -> False.
Proof.
  intros Hb -> (n & q & imq & b' & _ & _ & Hb' & _ & Heq).
  destruct (radix_inj s b k0 b' (k0 + 1 + Z.of_nat n)) as [_ ?]; lia.
Qed.

Lemma copy_output_host_writes (w : W) s :
  0 <= s ->
  forall ps k0 out,
    0 <= k0 -> (k0 + Z.of_nat (length ps)) * s < 2 ^ 64 ->
    (forall p, p ∈ ps ->
       exists img, heap w !! p = Some img /\ s <= Z.of_nat (length (buffer img))) ->
    exists out',
      copy_output_host ps s (k0 * s) out w = (Ok out', w, memcpy_events ps k0 s) /\
      writes (byte_cells w ps k0 s) out out'.
Proof.
  intros Hs. induction ps as [|p ps IH]; intros k0 out Hk0 Hfit Hlive.
  - exists out. split; [reflexivity|].
    apply writes_nothing. intros j v (n & p & img & b & Hn & _). done.
  - destruct (Hlive p) as (img & Hp & Hlen); [by left|].
    rewrite length_cons in Hfit.
    destruct (memcpy_writes out (k0 * s) (buffer img) s) as (out1 & Hcpy & Hw1);
      [lia|].
    destruct (IH (k0 + 1) out1) as (out' & Hrest & Hw2); [lia|nia| |].
    { intros q Hq. apply Hlive. by right. }
    exists out'. split.
    + simpl. unfold bind, deref, emit, lift. rewrite Hp, Hcpy. simpl.
      rewrite to_size_t_small by nia.
      replace (k0 * s + s) with ((k0 + 1) * s) by lia.
      rewrite Hrest. reflexivity.
    + eapply writes_then; [exact Hw1|exact Hw2| |].
      * intros j v v' (b & Hb & _ & Hj) Hcells.
        by apply (slots_disjoint w ps k0 s j b v').
      * intros j v. by apply byte_cells_cons.
Qed.

Lemma copy_output_ocl_writes (w : W) s :
  0 <= s ->
  forall ps k0 out,
    0 <= k0 -> (k0 + Z.of_nat (length ps)) * s < 2 ^ 64 ->
    Z.of_nat (length ps) < 2 ^ 64 ->
    (forall p, p ∈ ps ->
       exists img,
         heap w !! p = Some img /\ s <= Z.of_nat (length (buffer img)) /\
         width (info img) * height_batch (info img) * color_plane_count (info img) = s) ->
    exists out',
      copy_output_ocl ps (Z.of_nat (length ps)) s (k0 * s) out w
      = (Ok out', w, copy_data_events ps k0 s) /\
      writes (byte_cells w ps k0 s) out out'.
Proof.
  intros Hs. induction ps as [|p ps IH]; intros k0 out Hk0 Hfit Hcount Hlive.
  - exists out. split; [reflexivity|].
    apply writes_nothing. intros j v (n & p & img & b & Hn & _). done.
  - destruct (Hlive p) as (img & Hp & Hlen & Hdims); [by left|].
    rewrite length_cons in Hfit, Hcount.
    destruct (memcpy_writes out (k0 * s) (buffer img) s) as (out1 & Hcpy & Hw1);
      [lia|].
    destruct (IH (k0 + 1) out1) as (out' & Hrest & Hw2); [lia|nia|lia| |].
    { intros q Hq. apply Hlive. by right. }
    exists out'. split.
    + simpl copy_output_ocl. unfold bind, deref, emit, lift, Image_copy_data.
      rewrite Hp, Hdims, Hcpy. simpl.
      replace (Z.of_nat (S (length ps)) - 1) with (Z.of_nat (length ps)) by lia.
      rewrite (to_size_t_small (Z.of_nat (length ps))) by lia.
      rewrite to_size_t_small by nia.
      replace (k0 * s + s) with ((k0 + 1) * s) by lia.
      rewrite Hrest. reflexivity.
    + eapply writes_then; [exact Hw1|exact Hw2| |].
      * intros j v v' (b & Hb & _ & Hj) Hcells.
        by apply (slots_disjoint w ps k0 s j b v').
      * intros j v. by apply byte_cells_cons.
Qed.

(** What [copy_output(unsigned char* )] does: one copy of [s = W*H*C] bytes
    per output image, to offsets [0, s, 2s, ...] in binding order, and no
    byte outside [0 .. B*s) touched. *)
Lemma copy_output_layout (w : W) (out_ptr : gmap Z Byte.byte) :
  let i := _output_image_info (self w) in
  let s := width i * height_batch i * color_plane_count i in
  let ps := _output_images (self w) in
  let B := Z.of_nat (length ps) in
  fits dim_bits i B ->
  (forall p, p ∈ ps ->
     exists img,
       heap w !! p = Some img /\ s <= Z.of_nat (length (buffer img)) /\
       (mem_type i = OCL ->
        width (info img) * height_batch (info img) * color_plane_count (info img) = s)) ->
  exists out',
    copy_output dim_bits out_ptr w =
      (Ok (OK, out'), w,
       [EvTimerStart ConvertTime]
       ++ match mem_type i with
          | OCL => copy_data_events ps 0 s
          | HOST => memcpy_events ps 0 s
          end
       ++ [EvTimerEnd ConvertTime]) /\
    (forall (k : nat) p img b v,
       ps !! k = Some p -> heap w !! p = Some img ->
       0 <= b < s -> buffer img !! Z.to_nat b = Some v ->
       out' !! (Z.of_nat k * s + b) = Some v) /\
    (forall j, ~ (0 <= j < B * s) -> out' !! j = out_ptr !! j).
Proof.
  intros i s ps B Hfits Hlive.
  pose proof Hfits as (HW & HH & HC & Hdb & HB64 & HWH & Hsdb & H64).
  unfold sizeof_cl_float in H64. fold s in Hsdb, H64.
  assert (Hs : 0 <= s) by (unfold s; nia).
  assert (HB : 0 <= B) by (unfold B; lia).
  assert (Hsize : to_size_t (dims_product dim_bits i) = s).
  { rewrite (dims_product_fits i B Hfits HB). fold s.
    apply to_size_t_small. split; [done|].
    assert (2 ^ dim_bits <= 2 ^ 64) by (apply Z.pow_le_mono_r; lia). lia. }
  assert (Hcells : exists out' evs,
    (if decide (mem_type i = OCL)
     then copy_output_ocl ps (Z.of_nat (length ps)) s 0 out_ptr
     else copy_output_host ps s 0 out_ptr) w = (Ok out', w, evs) /\
    evs = match mem_type i with
          | OCL => copy_data_events ps 0 s
          | HOST => memcpy_events ps 0 s
          end /\
    writes (byte_cells w ps 0 s) out_ptr out').
  { destruct (decide (mem_type i = OCL)) as [Hocl|Hhost].
    - destruct (copy_output_ocl_writes w s Hs ps 0 out_ptr)
        as (out' & Hrun & Hw); [lia|fold B; nia| | |].
      + fold B. lia.
      + intros p Hp. destruct (Hlive p Hp) as (img & ? & ? & Hd). eauto.
      + rewrite Z.mul_0_l in Hrun. exists out', (copy_data_events ps 0 s).
        rewrite Hocl. done.
    - destruct (copy_output_host_writes w s Hs ps 0 out_ptr)
        as (out' & Hrun & Hw); [lia|fold B; nia| |].
      + intros p Hp. destruct (Hlive p Hp) as (img & ? & ? & Hd). eauto.
      + rewrite Z.mul_0_l in Hrun. exists out', (memcpy_events ps 0 s).
        destruct (mem_type i); done. }
  destruct Hcells as (out' & evs & Hrun & -> & Hw1 & Hw2).
  exists out'. split; [|split].
  - unfold copy_output. run_monad. fold i. rewrite Hsize. fold ps.
    replace (mkWorld (self w) (heap w) (cl_buffers w)) with w by (by destruct w).
    rewrite Hrun. reflexivity.
  - intros k p img b v Hk Hp Hb Hv. apply Hw1.
    exists k, p, img, b. rewrite Z.add_0_l. done.
  - intros j Hj. apply Hw2. intros v (n & p & img & b & Hn & _ & Hb & _ & ->).
    apply Hj. apply lookup_lt_Some in Hn. fold ps in Hn. unfold B. nia.
Qed.

(** C5, as the code has it. For [B] output images of [W]x[H] pixels and [C]
    planes, small enough for the sizes not to wrap:
    - a [build()] that returns has, on device memory, allocated an output
      tensor of exactly [W*H*C*B] floats; on host memory it has allocated no
      tensor at all;
    - [copy_output(unsigned char* )] returns after one copy per output image,
      in binding order, to the offsets [0, s, 2s, ..., (B-1)*s] with
      [s = W*H*C]; byte [b] of image [k] ends up at [k*s + b] for every
      [b < s], and no byte outside [0 .. B*s) is touched. *)
Theorem output_tensor_and_copy_layout :
  (forall (w w' : W) st e,
      build dim_bits w = (Ok st, w', e) ->
      let i := _output_image_info (self w') in
      let B := Z.of_nat (length (_output_images (self w'))) in
      fits dim_bits i B ->
      (mem_type i = OCL ->
       tensor_holds w' (width i * height_batch i * color_plane_count i * B)) /\
      (mem_type i = HOST ->
       _output_tensor (self w') = _output_tensor (self w) /\
       cl_buffers w' = cl_buffers w /\
       Forall (fun ev => is_allocation ev = false) e))
  /\
  (forall (w : W) (out_ptr : gmap Z Byte.byte),
      let i := _output_image_info (self w) in
      let s := width i * height_batch i * color_plane_count i in
      let ps := _output_images (self w) in
      let B := Z.of_nat (length ps) in
      fits dim_bits i B ->
      (forall p, p ∈ ps ->
         exists img,
           heap w !! p = Some img /\ s <= Z.of_nat (length (buffer img)) /\
           (mem_type i = OCL ->
            width (info img) * height_batch (info img)
            * color_plane_count (info img) = s)) ->
      exists out',
        copy_output dim_bits out_ptr w =
          (Ok (OK, out'), w,
           [EvTimerStart ConvertTime]
           ++ match mem_type i with
              | OCL => copy_data_events ps 0 s
              | HOST => memcpy_events ps 0 s
              end
           ++ [EvTimerEnd ConvertTime]) /\
        (forall (k : nat) p img b v,
           ps !! k = Some p -> heap w !! p = Some img ->
           0 <= b < s -> buffer img !! Z.to_nat b = Some v ->
           out' !! (Z.of_nat k * s + b) = Some v) /\
        (forall j, ~ (0 <= j < B * s) -> out' !! j = out_ptr !! j)).
Proof.
  split.
  - intros w w' st e Hbuild i B Hfits.
    pose proof (build_tensor w w' st e Hbuild) as Ht. cbv zeta in Ht.
    fold i B in Ht.
    pose proof Hfits as (HW & HH & HC & Hdb & HB64 & HWH & Hsdb & H64).
    unfold sizeof_cl_float in H64.
    assert (HB : 0 <= B) by (unfold B; lia).
    split; intros Hmem; rewrite Hmem in Ht; [|exact Ht].
    destruct Ht as (m & Hm & Hsize). exists m. split; [exact Hm|].
    rewrite Hsize. f_equal. rewrite (dims_product_fits i B Hfits HB).
    unfold sizeof_cl_float.
    rewrite (to_size_t_small (_ * B)) by nia.
    apply to_size_t_small. nia.
  - intros w out_ptr. apply copy_output_layout.
Qed.

End OutputFacts.

(** ** The properties on the sample pipeline *)

Section SampleFacts.

Import Sample.

Lemma copy_out_tensor_host_layout_witness :
  (let w := after (build 32) host_pipeline in
   exists out',
     copy_out_tensor 10 ∅ NHWC (float_of_Z 2) (float_of_Z 2) (float_of_Z 2)
       (float_of_Z 1) (float_of_Z 1) (float_of_Z 1) false w
     = (Ok (OK, out'), w, [EvTimerStart ConvertTime; EvTimerEnd ConvertTime]) /\
     out' !! 1
     = Some (fadd (float_of_Z 1) (fmul (float_of_Z 2) (float_of_uchar Byte.x62))))
  /\
  (let w := after (build 32) rgb_pipeline in
   exists out',
     copy_out_tensor 10 ∅ NCHW (float_of_Z 1) (float_of_Z 1) (float_of_Z 1)
       (float_of_Z 0) (float_of_Z 0) (float_of_Z 0) true w
     = (Ok (OK, out'), w, [EvTimerStart ConvertTime; EvTimerEnd ConvertTime]) /\
     out' !! 0 = Some (float_of_Z 48) /\
     out' !! 2 = Some (float_of_Z 16)).
Proof.
  split; intros w.
  - destruct (copy_out_tensor_host_layout
                (float_of_Z 2) (float_of_Z 2) (float_of_Z 2)
                (float_of_Z 1) (float_of_Z 1) (float_of_Z 1) false w 10 ∅ NHWC)
      as (out' & Hrun & Hcells).
    + vm_compute. reflexivity.
    + vm_compute. done.
    + vm_compute. done.
    + vm_compute. done.
    + vm_compute. done.
    + vm_compute. done.
    + vm_compute. lia.
    + lia.
    + intros p Hp. vm_compute in Hp. apply list_elem_of_singleton in Hp as ->.
      exists (mkImage (info_of 2 1 1 HOST) [Byte.x61; Byte.x62]).
      vm_compute. done.
    + exists out'. split; [exact Hrun|].
      apply (Hcells 0%nat 1%positive
               (mkImage (info_of 2 1 1 HOST) [Byte.x61; Byte.x62]) 0 1 Byte.x62).
      * vm_compute. reflexivity.
      * vm_compute. reflexivity.
      * vm_compute. done.
      * vm_compute. done.
      * vm_compute. reflexivity.
  - destruct (copy_out_tensor_host_layout
                (float_of_Z 1) (float_of_Z 1) (float_of_Z 1)
                (float_of_Z 0) (float_of_Z 0) (float_of_Z 0) true w 10 ∅ NCHW)
      as (out' & Hrun & Hcells).
    + vm_compute. reflexivity.
    + vm_compute. done.
    + vm_compute. done.
    + vm_compute. done.
    + vm_compute. done.
    + vm_compute. done.
    + vm_compute. lia.
    + lia.
    + intros p Hp. vm_compute in Hp. apply list_elem_of_singleton in Hp as ->.
      exists (mkImage (info_of 1 1 3 HOST) [Byte.x10; Byte.x20; Byte.x30]).
      vm_compute. done.
    + exists out'. split; [exact Hrun|]. split.
      * apply (Hcells 0%nat 1%positive
                 (mkImage (info_of 1 1 3 HOST) [Byte.x10; Byte.x20; Byte.x30])
                 0 0 Byte.x30); vm_compute; done.
      * apply (Hcells 0%nat 1%positive
                 (mkImage (info_of 1 1 3 HOST) [Byte.x10; Byte.x20; Byte.x30])
                 2 0 Byte.x10); vm_compute; done.
Defined.

(** On the host pipeline [build()] returns and there is no output tensor:
    none of [2*1*1*1] floats was allocated. *)
Lemma host_build_allocates_no_tensor :
  fst (fst (build 32 host_pipeline)) = Ok OK /\
  ~ tensor_holds (after (build 32) host_pipeline) (2 * 1 * 1 * 1).
Proof.
  split; [vm_compute; reflexivity|].
  intros (m & Hm & _). vm_compute in Hm. discriminate.
Qed.

Lemma output_tensor_and_copy_layout_witness :
  tensor_holds (after (build 32) device_pipeline) 2 /\
  (exists out',
     copy_output 32 ∅ (after (build 32) host_pipeline)
     = (Ok (OK, out'), after (build 32) host_pipeline,
        [EvTimerStart ConvertTime; EvMemcpy 0 1%positive 2; EvTimerEnd ConvertTime])
     /\ out' !! 1 = Some Byte.x62) /\
  (exists out',
     copy_output 32 ∅ (after (build 32) device_pipeline)
     = (Ok (OK, out'), after (build 32) device_pipeline,
        [EvTimerStart ConvertTime; EvCopyData 1%positive 0 true;
         EvTimerEnd ConvertTime])
     /\ out' !! 0 = Some Byte.x61).
Proof.
  destruct (output_tensor_and_copy_layout (L:=Loader) (N:=nat) (G:=nat) 32)
    as [Htensor Hcopy].
  split; [|split].
  - refine (proj1 (Htensor device_pipeline (after (build 32) device_pipeline)
                     OK (snd (build 32 device_pipeline)) _ _) _).
    + vm_compute. reflexivity.
    + unfold fits. vm_compute. repeat split; done.
    + vm_compute. reflexivity.
  - destruct (Hcopy (after (build 32) host_pipeline) ∅) as (out' & Hrun & Hcells & _).
    + unfold fits. vm_compute. repeat split; done.
    + intros p Hp. vm_compute in Hp. apply list_elem_of_singleton in Hp as ->.
      exists (mkImage (info_of 2 1 1 HOST) [Byte.x61; Byte.x62]).
      split; [vm_compute; reflexivity|]. split; [vm_compute; done|].
      vm_compute. discriminate.
    + exists out'. split; [exact Hrun|].
      apply (Hcells 0%nat 1%positive
               (mkImage (info_of 2 1 1 HOST) [Byte.x61; Byte.x62]) 1 Byte.x62).
      * vm_compute. reflexivity.
      * vm_compute. reflexivity.
      * vm_compute. done.
      * vm_compute. reflexivity.
  - destruct (Hcopy (after (build 32) device_pipeline) ∅)
      as (out' & Hrun & Hcells & _).
    + unfold fits. vm_compute. repeat split; done.
    + intros p Hp. vm_compute in Hp. apply list_elem_of_singleton in Hp as ->.
      exists (mkImage (info_of 2 1 1 OCL) [Byte.x61; Byte.x62]).
      split; [vm_compute; reflexivity|]. split; [vm_compute; done|].
      intros _. vm_compute. reflexivity.
    + exists out'. split; [exact Hrun|].
      apply (Hcells 0%nat 1%positive
               (mkImage (info_of 2 1 1 OCL) [Byte.x61; Byte.x62]) 0 Byte.x61).
      * vm_compute. reflexivity.
      * vm_compute. reflexivity.
      * vm_compute. done.
      * vm_compute. reflexivity.
Defined.

Lemma run_call_sequence_witness :
  let w := after (build 32) host_pipeline in
  snd (run w) =
    [EvRenewParameters; EvTimerStart ProcessTime]
    ++ map EvLoadNext (seq 0 (length (_loader_modules (self w))))
    ++ [EvGraphProcess]
    ++ map EvNodeUpdateParameters (seq 0 (length (_nodes (self w))))
    ++ [EvTimerEnd ProcessTime].
Proof.
  intros w. apply (run_call_sequence w (snd (fst (run w))) OK).
  vm_compute. reflexivity.
Defined.

Lemma run_unverified_witness :
  run host_pipeline = (Throw "Graph not verified", host_pipeline, []) /\
  let w := after release (after (build 32) host_pipeline) in
  run w = (Throw "Graph not verified", w, []).
Proof.
  split; [|intros w]; apply run_unverified; vm_compute; reflexivity.
Defined.

Lemma run_loader_failure_witness :
  let w := after (build 32) starved_pipeline in
  exists i w',
    (i <= 1)%nat /\
    run w = (Throw "Loader module failed to laod next batch of images", w',
             [EvRenewParameters; EvTimerStart ProcessTime]
             ++ map EvLoadNext (seq 0 (S i))) /\
    _graph_verfied (self w') = true.
Proof.
  intros w.
  destruct (run_loader_failure w 1%nat (mkLoader [] 0))
    as (i & w' & Hi & Hrun & _ & _ & Hflag & _).
  - vm_compute. reflexivity.
  - vm_compute. reflexivity.
  - intros h. simpl. discriminate.
  - exists i, w'. auto.
Defined.

Lemma build_rejects_witness :
  (exists w',
     build 32 mismatched_pipeline
     = (Throw "Dimension of the output images do not match", w', []) /\
     _graph_verfied (self w') = false) /\
  (exists w',
     build 32 (constructed CPU 0 1%positive)
     = (Throw "No output images are there, cannot create the pipeline", w', []) /\
     _graph_verfied (self w') = false).
Proof.
  split.
  - destruct (build_rejects 32 mismatched_pipeline)
      as (what & w' & Hb & _ & Hwhat & Hflag & _).
    + vm_compute. repeat constructor; eexists; reflexivity.
    + right.
      exists 1%positive, 2%positive,
        (mkImage (info_of 2 1 1 HOST) [Byte.x61; Byte.x62]),
        (mkImage (info_of 3 1 1 HOST) [Byte.x61; Byte.x62; Byte.x63]).
      vm_compute. repeat split; try reflexivity.
      * constructor.
      * constructor. constructor.
    + exists w'. rewrite Hb, Hwhat; [auto|]. vm_compute. discriminate.
  - destruct (build_rejects 32 (constructed CPU 0 1%positive))
      as (what & w' & Hb & Hwhat & _ & Hflag & _).
    + vm_compute. constructor.
    + left. reflexivity.
    + exists w'. rewrite Hb, Hwhat; [auto|]. reflexivity.
Defined.

Lemma remaining_images_count_value_witness :
  remaining_images_count host_pipeline = (Ok 3, host_pipeline, []).
Proof.
  refine (eq_trans (remaining_images_count_value host_pipeline _) _).
  - change (_loader_modules (self host_pipeline))
      with [mkLoader [LoaderModuleStatus_OK] 5; mkLoader [LoaderModuleStatus_OK] 3].
    repeat (apply Forall_cons; split; [simpl; lia|]). constructor.
  - vm_compute. reflexivity.
Defined.

Lemma validateWarpAffine_formats_witness :
  WarpAffine.validateWarpAffine 1%positive warp_parameters 11 warp_metas =
    Ok (VX_SUCCESS,
        <[1%nat := WarpAffine.mkMeta (Some VX_DF_IMAGE_RGB) (Some 480) (Some 640)]>
          warp_metas).
Proof.
  refine (eq_trans
    (validateWarpAffine_formats 1%positive warp_parameters 11 warp_metas
       1%positive 2%positive VX_DF_IMAGE_RGB 480 640
       (WarpAffine.mkMeta None None None) _ _ _ _ _ _ _ _ _ _ _ _ _ _ _) _);
    try reflexivity.
  all: try (eexists; split; reflexivity).
Defined.

(** C6. The object of [host_pipeline] owns one output image, at address 1.
    A first [release()] returns after deleting it (and releasing the
    context); [_output_images] still holds the address, so a second
    [release()], or the destructor, deletes the same object again. *)
Theorem release_twice_deletes_twice :
  let w := host_pipeline in
  release w =
    (Ok tt, after release w, [EvReleaseContext 1%positive; EvDeleteImage 1%positive])
  /\ _output_images (self (after release w)) = [1%positive]
  /\ heap (after release w) !! 1%positive = None
  /\ fst (fst (release (after release w))) = Undefined
  /\ fst (fst (destructor (after release w))) = Undefined.
Proof. vm_compute. repeat split; reflexivity. Qed.

End SampleFacts.


(** * Further properties *)

(** ** release *)

Section ReleaseMore.

Context {L N G : Type}.
Context `{!LoaderModule L} `{!Graph G} `{!Node N G} `{!Runtime G}.

Abbreviation W := (World L N G).
Abbreviation Mon := (M L N G).

Lemma never_throws_bind {A B} (m : Mon A) (f : A -> Mon B) :
  never_throws m -> (forall a, never_throws (f a)) -> never_throws (bind m f).
Proof.
  intros Hm Hf w r w' e Hb what ->. apply bind_inv in Hb as [Hb|Hb].
  - destruct Hb as (a & w1 & e1 & e2 & _ & H2 & _). by eapply Hf.
  - destruct Hb as (r0 & H1 & _ & _ & Hthrow & _).
    eapply Hm; [exact H1|]. by apply Hthrow.
Qed.

Lemma never_throws_for_each {A} (xs : list A) (body : A -> Mon unit) :
  (forall x, never_throws (body x)) -> never_throws (for_each xs body).
Proof.
  intros Hb. induction xs as [|x xs IH]; simpl.
  - by intros w r w' e [= <- _ _] what.
  - apply never_throws_bind; auto.
Qed.

Lemma never_throws_quiet {A} (m : Mon A) :
  (forall w what, fst (fst (m w)) <> Throw what) -> never_throws m.
Proof. intros Hm w r w' e Hw what ->. apply (Hm w what). by rewrite Hw. Qed.

Lemma delete_image_never_throws p : never_throws (delete_image (L:=L) (N:=N) (G:=G) p).
Proof.
  apply never_throws_quiet. intros w what. unfold delete_image. run_monad.
  by destruct (heap w !! p).
Qed.

Lemma deallocate_output_tensor_never_throws :
  never_throws (deallocate_output_tensor (L:=L) (N:=N) (G:=G)).
Proof.
  apply never_throws_quiet. intros w what. unfold deallocate_output_tensor.
  run_monad.
  by destruct (mem_type (_output_image_info (self w))), (_output_tensor (self w)).
Qed.

(** X1. [release()] never leaves by an exception, whatever the state of the
    object and whatever [vxReleaseContext] reports: a failure to release the
    context is logged and the teardown goes on. *)
Theorem release_never_throws (w : W) (what : string) :
  fst (fst (release w)) <> Throw what.
Proof.
  assert (Hrel : never_throws (release (L:=L) (N:=N) (G:=G))).
  { unfold release.
    repeat first
      [ apply never_throws_bind; [|intros ?]
      | apply never_throws_for_each; intros ?
      | apply delete_image_never_throws
      | apply deallocate_output_tensor_never_throws
      | match goal with |- never_throws (match ?x with _ => _ end) => destruct x end
      | by apply never_throws_quiet ]. }
  destruct (release w) as [[r w'] e] eqn:Hw. simpl.
  by apply (Hrel _ _ _ _ Hw).
Qed.

End ReleaseMore.

(** ** Ownership of images *)

Section OwnershipFacts.

Context {L N G : Type}.
Context `{!LoaderModule L} `{!Graph G} `{!Node N G} `{!Runtime G}.

Abbreviation W := (World L N G).
Abbreviation Mon := (M L N G).

Lemma returns_bind {A B} (m : Mon A) (f : A -> Mon B) (w : W) e1 e2 Q :
  returns m w e1 (fun a w1 => returns (f a) w1 e2 Q) ->
  returns (bind m f) w (e1 ++ e2) Q.
Proof.
  intros (a & w1 & Hm & b & w2 & Hf & HQ). exists b, w2. split; [|done].
  unfold bind. rewrite Hm, Hf. reflexivity.
Qed.

Lemma returns_quiet {A B} (m : Mon A) (f : A -> Mon B) (w : W) e Q :
  returns m w [] (fun a w1 => returns (f a) w1 e Q) ->
  returns (bind m f) w e Q.
Proof. apply (returns_bind m f w [] e). Qed.

Lemma returns_last {A} (m : Mon A) (w : W) e Q :
  returns m w e (fun _ w' => Q tt w') -> returns (bind m (fun _ => ret tt)) w e Q.
Proof.
  intros H. rewrite <- (app_nil_r e). apply returns_bind.
  destruct H as (a & w' & Hm & HQ). exists a, w'. split; [done|].
  exists tt, w'. done.
Qed.

Lemma returns_weaken {A} (m : Mon A) (w : W) e (Q Q' : A -> W -> Prop) :
  returns m w e Q -> (forall a w', Q a w' -> Q' a w') -> returns m w e Q'.
Proof. intros (a & w' & Hm & HQ) HQQ. exists a, w'. auto. Qed.

(** A deletion loop over distinct live images returns, having deleted each
    of them and nothing else. *)
Lemma delete_loop_total ps :
  forall w : W,
    NoDup ps -> (forall p, p ∈ ps -> is_Some (heap w !! p)) ->
    returns (for_each ps delete_image) w (map EvDeleteImage ps) (fun _ w' =>
      self w' = self w /\ cl_buffers w' = cl_buffers w /\
      forall q, heap w' !! q = if decide (q ∈ ps) then None else heap w !! q).
Proof.
  induction ps as [|p ps IH]; intros w Hnd Hlive.
  - exists tt, w. repeat split.
  - apply NoDup_cons in Hnd as [Hp Hnd].
    destruct (Hlive p) as [img Himg]; [by left|].
    simpl. apply (returns_bind _ _ w [EvDeleteImage p]).
    exists tt, (set_heap (delete p (heap w)) w). split.
    { unfold delete_image. run_monad. rewrite Himg. reflexivity. }
    eapply returns_weaken; [apply IH; [done|]|].
    { intros q Hq. simpl. rewrite lookup_delete_ne; [apply Hlive; by right|].
      intros ->. done. }
    simpl. intros _ w' (Hself & Hcl & Hheap). split; [done|split; [done|]].
    intros q. rewrite Hheap.
    destruct (decide (q ∈ ps)) as [Hq|Hq].
    + rewrite decide_True; [done|by right].
    + destruct (decide (q = p)) as [->|Hne].
      * rewrite decide_True by (by left). apply lookup_delete_eq.
      * rewrite decide_False.
        -- by apply lookup_delete_ne.
        -- intros [?|?]%elem_of_cons; done.
Qed.

(** The calls and the effect of [release()] on an object whose registered
    images are alive and distinct. *)
Lemma release_returns (w : W) :
  registries_sound w ->
  returns release w
    (release_prefix w
     ++ map EvDeleteImage (_internal_images (self w))
     ++ map EvDeleteImage (_output_images (self w))
     ++ release_suffix w)
    (fun _ w' =>
       _graph_verfied (self w') = false /\
       forall q, heap w' !! q = if decide (q ∈ registered w) then None else heap w !! q).
Proof.
  intros [Hnd Hlive]. unfold registered in *.
  apply NoDup_app in Hnd as (HndI & Hdisj & HndO).
  set (I := _internal_images (self w)) in *.
  set (O := _output_images (self w)) in *.
  set (Q := fun (_ : unit) (w' : W) =>
    _graph_verfied (self w') = false /\
    forall q, heap w' !! q = if decide (q ∈ I ++ O) then None else heap w !! q).
  assert (Htail : forall w0 : W,
    _internal_images (self w0) = I -> _output_images (self w0) = O ->
    heap w0 = heap w -> _graph_verfied (self w0) = false ->
    _output_image_info (self w0) = _output_image_info (self w) ->
    _output_tensor (self w0) = _output_tensor (self w) ->
    returns
      (bind (get _internal_images) (fun internal =>
       bind (for_each internal delete_image) (fun _ =>
       bind (get _output_images) (fun outs =>
       bind (for_each outs delete_image) (fun _ =>
       bind deallocate_output_tensor (fun _ => ret tt)))))) w0
      (map EvDeleteImage I ++ map EvDeleteImage O ++ release_suffix w) Q).
  { intros w0 HI HO Hh Hflag Hinfo Htensor.
    apply returns_quiet. exists I, w0. split; [by rewrite <- HI|].
    apply returns_bind. eapply returns_weaken; [apply delete_loop_total; [done|]|].
    { intros p Hp. rewrite Hh. apply Hlive, elem_of_app. by left. }
    simpl. intros _ w1 (Hs1 & Hc1 & Hh1).
    apply returns_quiet. exists O, w1. split; [unfold get; by rewrite Hs1, HO|].
    apply returns_bind. eapply returns_weaken; [apply delete_loop_total; [done|]|].
    { intros p Hp. rewrite Hh1, Hh. rewrite decide_False by (intros ?; by eapply Hdisj).
      apply Hlive, elem_of_app. by right. }
    simpl. intros _ w2 (Hs2 & Hc2 & Hh2).
    apply returns_last.
    assert (Hd : exists w3, deallocate_output_tensor w2 = (Ok OK, w3, release_suffix w)
                  /\ self w3 = self w2 /\ heap w3 = heap w2).
    { unfold deallocate_output_tensor, release_suffix. run_monad.
      rewrite Hs2, Hs1, Hinfo, Htensor.
      destruct (mem_type (_output_image_info (self w))),
        (_output_tensor (self w)); simpl; eexists; repeat split;
        simpl; congruence. }
    destruct Hd as (w3 & Hd & Hs3 & Hh3).
    exists OK, w3. split; [done|]. split.
    - by rewrite Hs3, Hs2, Hs1.
    - intros q. rewrite Hh3, Hh2, Hh1, Hh.
      destruct (decide (q ∈ O)), (decide (q ∈ I)).
      all: (rewrite decide_True by (apply elem_of_app; auto))
           || (rewrite decide_False by (intros [?|?]%elem_of_app; done)).
      all: done. }
  unfold release, release_prefix.
  apply returns_quiet. eexists _, _. split; [reflexivity|].
  apply returns_quiet. eexists _, _. split; [reflexivity|]. simpl.
  rewrite <- app_assoc.
  destruct (_graph (self w)) as [g|];
    (apply returns_bind; eexists _, _; split; [reflexivity|]);
    (apply returns_quiet; eexists _, _; split; [reflexivity|]; simpl);
    (destruct (_context (self w)) as [c|];
     [destruct (decide (vxReleaseContext c = VX_SUCCESS)) as [Hok|Hok]|]).
  all: apply returns_bind; eexists _, _;
    (split; [run_monad; try rewrite (decide_True _ _ Hok);
             try rewrite (decide_False _ _ Hok); reflexivity|]).
  all: apply Htail; done.
Qed.

(** X2. On an object whose registered images are alive and distinct,
    [release()] returns; its calls are, in this order: the graph release, the
    context release (and the log entry if that failed), the deletion of the
    internal images, the deletion of the output images, the release of the
    device tensor. Afterwards the verified flag is down and exactly the
    registered images are gone from the heap. *)
Theorem release_deletes_registered (w : W) :
  registries_sound w ->
  exists w',
    release w =
      (Ok tt, w',
       release_prefix w
       ++ map EvDeleteImage (_internal_images (self w))
       ++ map EvDeleteImage (_output_images (self w))
       ++ release_suffix w) /\
    _graph_verfied (self w') = false /\
    forall q, heap w' !! q = if decide (q ∈ registered w) then None else heap w !! q.
Proof.
  intros Hsound. destruct (release_returns w Hsound) as ([] & w' & Hr & HQ).
  exists w'. split; done.
Qed.

Lemma elem_of_map {A B} (f : A -> B) (l : list A) (y : B) :
  y ∈ map f l <-> exists x, y = f x /\ x ∈ l.
Proof.
  rewrite list_elem_of_In, in_map_iff.
  split; intros (x & Hx & Hl); exists x; split; auto; by apply list_elem_of_In.
Qed.

(** [release()] deletes the registered images and no other. *)
Lemma release_events_delete (w : W) p :
  EvDeleteImage p ∈
    release_prefix w
    ++ map EvDeleteImage (_internal_images (self w))
    ++ map EvDeleteImage (_output_images (self w))
    ++ release_suffix w ->
  p ∈ registered w.
Proof.
  unfold release_prefix, release_suffix, registered.
  rewrite !elem_of_app, !elem_of_map.
  intros [[Hg|Hc]|[(q & [= ->] & Hq)|[(q & [= ->] & Hq)|Ht]]]; auto.
  - destruct (_graph (self w)); [apply list_elem_of_singleton in Hg|
      apply elem_of_nil in Hg]; done.
  - destruct (_context (self w)) as [c|]; [|by apply elem_of_nil in Hc].
    apply elem_of_cons in Hc as [?|Hc]; [done|].
    destruct (decide _); [by apply elem_of_nil in Hc|].
    by apply list_elem_of_singleton in Hc.
  - destruct (mem_type (_output_image_info (self w))),
      (_output_tensor (self w)); try (by apply elem_of_nil in Ht).
    by apply list_elem_of_singleton in Ht.
Qed.

Lemma new_Image_fresh (w : W) : heap w !! fresh (dom (heap w) : gset positive) = None.
Proof. apply not_elem_of_dom, is_fresh. Qed.

(** An image put on the heap at a dead address leaves the registries
    sound. *)
Lemma registries_sound_alloc (w w1 : W) p img :
  registries_sound w -> heap w !! p = None ->
  self w1 = self w -> heap w1 = <[p := img]> (heap w) ->
  registries_sound w1 /\ p ∉ registered w1.
Proof.
  intros [Hnd Hlive] Hp Hself Hheap. unfold registries_sound, registered in *.
  rewrite Hself, Hheap.
  assert (Hnot : p ∉ _internal_images (self w) ++ _output_images (self w)).
  { intros Hin. apply Hlive in Hin as [? Hin]. unfold ptr in *. congruence. }
  split; [split; [done|]|done].
  intros q Hq. rewrite lookup_insert_ne; [by apply Hlive|]. by intros ->.
Qed.

(** X3. [create_image(info, false)] only allocates: the new image is entered
    in neither registry, so on an object whose registered images are alive
    and distinct the [release()] that follows returns without deleting it. *)
Theorem create_image_unowned (w : W) (i : ImageInfo) :
  registries_sound w ->
  exists p w1 w2 e,
    create_image i false w = (Ok p, w1, [EvNewImage p]) /\
    heap w !! p = None /\ heap w1 !! p = Some (mkImage i []) /\
    self w1 = self w /\
    release w1 = (Ok tt, w2, e) /\
    heap w2 !! p = Some (mkImage i []) /\ EvDeleteImage p ∉ e.
Proof.
  intros Hsound.
  set (p := fresh (dom (heap w) : gset positive)).
  set (w1 := set_heap (<[p := mkImage i []]> (heap w)) w).
  destruct (registries_sound_alloc w w1 p (mkImage i []) Hsound)
    as [Hsound1 Hnot]; [apply new_Image_fresh|done|done|].
  destruct (release_returns w1 Hsound1) as ([] & w2 & Hr & _ & Hheap).
  exists p, w1, w2. eexists. split; [reflexivity|].
  split; [apply new_Image_fresh|]. split; [apply lookup_insert_eq|].
  split; [done|]. split; [exact Hr|]. split.
  - rewrite Hheap, decide_False by done. apply lookup_insert_eq.
  - intros Hin. by apply release_events_delete in Hin.
Qed.

(** What the two functions compute, by the status of
    [create_from_handle]. *)
Lemma create_image_eq (w : W) (i : ImageInfo) :
  let p := fresh (dom (heap w) : gset positive) in
  let r := create_from_handle (mkImage i []) (_context (self w)) external in
  create_image i true w =
    if fst r =? 0
    then (Ok p,
          mkWorld (set_output_images (_output_images (self w) ++ [p]) (self w))
            (<[p := snd r]> (heap w)) (cl_buffers w),
          [EvNewImage p])
    else (Throw "Cannot create the image from handle",
          mkWorld (self w) (<[p := snd r]> (heap w)) (cl_buffers w),
          [EvNewImage p]).
Proof.
  intros p r. unfold create_image, new_Image, deref. run_monad.
  rewrite lookup_insert_eq. simpl. fold r.
  destruct (fst r =? 0); simpl; rewrite insert_insert_eq; reflexivity.
Qed.

Lemma create_loader_output_image_eq (w : W) (i : ImageInfo) (is_output : bool) :
  let p := fresh (dom (heap w) : gset positive) in
  let r := create_from_handle (mkImage i []) (_context (self w)) none in
  create_loader_output_image i is_output w =
    if fst r =? 0
    then (Ok p,
          mkWorld
            (if is_output
             then set_output_images (_output_images (self w) ++ [p]) (self w)
             else set_internal_images (_internal_images (self w) ++ [p]) (self w))
            (<[p := snd r]> (heap w)) (cl_buffers w),
          [EvNewImage p])
    else (Throw "Creating output image for JPEG loader failed",
          mkWorld (self w) (<[p := snd r]> (heap w)) (cl_buffers w),
          [EvNewImage p]).
Proof.
  intros p r. unfold create_loader_output_image, new_Image, deref. run_monad.
  rewrite lookup_insert_eq. simpl. fold r.
  destruct (fst r =? 0); simpl; rewrite insert_insert_eq;
    [destruct is_output|]; reflexivity.
Qed.

(** Entering a fresh live image at the end of either registry keeps the
    registries sound. *)
Lemma registries_sound_push (w w1 : W) p img (is_output : bool) :
  registries_sound w -> heap w !! p = None ->
  heap w1 = <[p := img]> (heap w) ->
  _output_images (self w1) =
    _output_images (self w) ++ (if is_output then [p] else []) ->
  _internal_images (self w1) =
    _internal_images (self w) ++ (if is_output then [] else [p]) ->
  registries_sound w1.
Proof.
  intros [Hnd Hlive] Hp Hheap HO HI. unfold registries_sound, registered in *.
  rewrite Hheap, HO, HI.
  assert (Hnot : p ∉ _internal_images (self w) ++ _output_images (self w)).
  { intros Hin. apply Hlive in Hin as [? Hin]. unfold ptr in *. congruence. }
  assert (Hlive' : forall q,
            q ∈ _internal_images (self w) ++ _output_images (self w) \/ q = p ->
            is_Some (<[p := img]> (heap w) !! q)).
  { intros q [Hq|Hq]; [|rewrite Hq, lookup_insert_eq; by eexists].
    rewrite lookup_insert_ne; [by apply Hlive|]. by intros ->. }
  split.
  2:{ intros q Hq. apply Hlive'. rewrite elem_of_app.
      destruct is_output; rewrite ?app_nil_r in Hq;
        repeat (rewrite elem_of_app in Hq); rewrite list_elem_of_singleton in Hq;
        tauto. }
  destruct is_output; rewrite ?app_nil_r.
  - rewrite app_assoc. apply NoDup_app. split; [done|]. split.
    + intros q Hq ->%list_elem_of_singleton. done.
    + apply NoDup_singleton.
  - apply NoDup_app in Hnd as (HIn & Hd & HOn).
    apply NoDup_app. split; [|split; [|done]].
    + apply NoDup_app. split; [done|]. split; [|apply NoDup_singleton].
      intros q Hq ->%list_elem_of_singleton. apply Hnot, elem_of_app. by left.
    + intros q [Hq| ->%list_elem_of_singleton]%elem_of_app; [by apply Hd|].
      intros Hq. apply Hnot, elem_of_app. by right.
Qed.

(** X4. When [create_from_handle] succeeds, [create_image(info, true)]
    returns a fresh image entered last in the output registry, and the
    registries stay sound. *)
Theorem create_image_output (w : W) (i : ImageInfo) :
  registries_sound w ->
  fst (create_from_handle (mkImage i []) (_context (self w)) external) = 0 ->
  exists p w1,
    create_image i true w = (Ok p, w1, [EvNewImage p]) /\
    heap w !! p = None /\
    heap w1 =
      <[p := snd (create_from_handle (mkImage i []) (_context (self w)) external)]>
        (heap w) /\
    _output_images (self w1) = _output_images (self w) ++ [p] /\
    _internal_images (self w1) = _internal_images (self w) /\
    registries_sound w1.
Proof.
  intros Hsound Hok. pose proof (create_image_eq w i) as Heq.
  pose proof (new_Image_fresh w) as Hp.
  simpl in Heq. rewrite Hok in Heq. simpl in Heq.
  eexists _, _. split; [exact Heq|]. simpl.
  split; [exact Hp|]. split; [done|]. split; [done|]. split; [done|].
  eapply (registries_sound_push w _ _ _ true); eauto; simpl.
  by rewrite app_nil_r.
Qed.

(** X5. When [create_from_handle] succeeds, [create_loader_output_image]
    returns a fresh image entered last in the output registry if [is_output]
    is set and last in the internal registry otherwise; either way the object
    owns it and the registries stay sound. *)
Theorem create_loader_output_image_owned (w : W) (i : ImageInfo) (is_output : bool) :
  registries_sound w ->
  fst (create_from_handle (mkImage i []) (_context (self w)) none) = 0 ->
  exists p w1,
    create_loader_output_image i is_output w = (Ok p, w1, [EvNewImage p]) /\
    heap w !! p = None /\
    heap w1 =
      <[p := snd (create_from_handle (mkImage i []) (_context (self w)) none)]>
        (heap w) /\
    _output_images (self w1) =
      _output_images (self w) ++ (if is_output then [p] else []) /\
    _internal_images (self w1) =
      _internal_images (self w) ++ (if is_output then [] else [p]) /\
    registries_sound w1.
Proof.
  intros Hsound Hok. pose proof (create_loader_output_image_eq w i is_output) as Heq.
  pose proof (new_Image_fresh w) as Hp.
  simpl in Heq. rewrite Hok in Heq. simpl in Heq.
  eexists _, _. split; [exact Heq|]. simpl.
  assert (HO : forall p,
    _output_images
      (if is_output
       then set_output_images (_output_images (self w) ++ [p]) (self w)
       else set_internal_images (_internal_images (self w) ++ [p]) (self w))
    = _output_images (self w) ++ (if is_output then [p] else [])).
  { intros p. destruct is_output; simpl; by rewrite ?app_nil_r. }
  assert (HI : forall p,
    _internal_images
      (if is_output
       then set_output_images (_output_images (self w) ++ [p]) (self w)
       else set_internal_images (_internal_images (self w) ++ [p]) (self w))
    = _internal_images (self w) ++ (if is_output then [] else [p])).
  { intros p. destruct is_output; simpl; by rewrite ?app_nil_r. }
  split; [exact Hp|]. split; [done|]. split; [apply HO|]. split; [apply HI|].
  eapply (registries_sound_push w _ _ _ is_output); eauto; simpl; auto.
Qed.


End OwnershipFacts.

(** ** Nodes and the graph *)

Section GraphFacts.

Context {L N G : Type}.
Context `{!LoaderModule L} `{!Graph G} `{!Node N G} `{!Runtime G}.
Variable dim_bits : Z.

Abbreviation W := (World L N G).
Abbreviation Mon := (M L N G).

(** The parameter loop from node [a] on: the nodes before [a] are left as
    they are, the others are updated. *)
Lemma update_loop m :
  forall (a : nat) (w : W),
    (a + m)%nat = length (_nodes (self w)) ->
    returns (for_each (seq a m) update_node) w
      (map EvNodeUpdateParameters (seq a m))
      (fun _ w' =>
         w' = mkWorld
                (set_nodes (take a (_nodes (self w))
                            ++ map node_update_parameters (drop a (_nodes (self w))))
                   (self w))
                (heap w) (cl_buffers w)).
Proof.
  induction m as [|m IH]; intros a w Hlen.
  - exists tt, w. split; [done|].
    rewrite take_ge, drop_ge by lia. simpl. rewrite app_nil_r.
    by destruct w as [[] ? ?].
  - destruct (lookup_lt_is_Some_2 (_nodes (self w)) a) as [n Hn]; [lia|].
    simpl. apply (returns_bind _ _ w [EvNodeUpdateParameters a]).
    eexists tt, _. split.
    { unfold update_node. run_monad. rewrite Hn. reflexivity. }
    eapply returns_weaken.
    { apply IH. simpl. rewrite length_insert. lia. }
    simpl. intros _ w' ->. f_equal.
    rewrite (take_S_r _ a (node_update_parameters n))
      by (apply list_lookup_insert_eq; lia).
    rewrite take_insert_ge, drop_insert_lt by lia.
    rewrite (drop_S _ n a Hn). simpl. rewrite <- app_assoc.
    by destruct (self w).
Qed.

(** What [update_parameters()] computes. *)
Lemma update_parameters_eq (w : W) :
  update_parameters w =
    (Ok OK,
     mkWorld (set_nodes (map node_update_parameters (_nodes (self w))) (self w))
       (heap w) (cl_buffers w),
     map EvNodeUpdateParameters (seq 0 (length (_nodes (self w))))).
Proof.
  destruct (update_loop (length (_nodes (self w))) 0%nat w eq_refl)
    as ([] & w' & Hloop & ->).
  unfold update_parameters. run_monad. rewrite Hloop. simpl.
  by rewrite app_nil_r.
Qed.

(** X7. [update_parameters()] cannot fail: it calls [update_parameters] on
    every node once, in order, replaces each node by its updated state and
    changes nothing else. *)
Theorem update_parameters_total (w : W) :
  exists w',
    update_parameters w =
      (Ok OK, w', map EvNodeUpdateParameters (seq 0 (length (_nodes (self w))))) /\
    _nodes (self w') = map node_update_parameters (_nodes (self w)) /\
    set_nodes (_nodes (self w)) (self w') = self w /\
    heap w' = heap w /\ cl_buffers w' = cl_buffers w.
Proof.
  eexists. split; [apply update_parameters_eq|]. simpl.
  repeat split. by destruct (self w).
Qed.

(** What [run()] never touches, whatever its outcome. *)
Lemma run_keeps_resources :
  keeps (fun w : W =>
           (_internal_images (self w), _output_images (self w),
            _output_tensor (self w), _output_image_info (self w),
            _context (self w), cl_buffers w, _graph_verfied (self w)))
    run.
Proof.
  unfold run, load_one, process_graph, update_parameters, update_node. frame.
Qed.

(** X8. A [run()] that returns has replaced every node by its updated state,
    once; the verified flag is still up, and the image registries, the
    output tensor, the reference descriptor, the context and the device
    buffers are as before. *)
Theorem run_refreshes_nodes (w w' : W) (s : Status) (e : list Event) :
  run w = (Ok s, w', e) ->
  _nodes (self w') = map node_update_parameters (_nodes (self w)) /\
  _graph_verfied (self w') = true /\
  _internal_images (self w') = _internal_images (self w) /\
  _output_images (self w') = _output_images (self w) /\
  _output_tensor (self w') = _output_tensor (self w) /\
  _output_image_info (self w') = _output_image_info (self w) /\
  _context (self w') = _context (self w) /\
  cl_buffers w' = cl_buffers w.
Proof.
  intros Hrun. pose proof (run_keeps_resources _ _ _ _ Hrun) as Hkeep.
  injection Hkeep as HI HO HT Hinfo Hctx Hcl Hflag.
  assert (Hup : _graph_verfied (self w) = true).
  { unfold run in Hrun. unfold bind at 1 in Hrun. simpl in Hrun.
    destruct (_graph_verfied (self w)); [done|].
    unfold throw in Hrun. simpl in Hrun. discriminate. }
  split; [|by rewrite Hflag].
  unfold run in Hrun.
  apply bind_Ok_inv in Hrun as (v & w0 & e0 & e0' & H0 & Hrun & _).
  injection H0 as <- <- <-. rewrite Hup in Hrun. simpl in Hrun.
  apply bind_Ok_inv in Hrun as ([] & w1 & e1 & e1' & H1 & Hrun & _).
  injection H1 as <- <-.
  apply bind_Ok_inv in Hrun as ([] & w2 & e2 & e2' & H2 & Hrun & _).
  injection H2 as <- <-.
  apply bind_Ok_inv in Hrun as (ls & w3 & e3 & e3' & H3 & Hrun & _).
  injection H3 as <- <- <-.
  apply bind_Ok_inv in Hrun as ([] & w4 & e4 & e4' & H4 & Hrun & _).
  apply bind_Ok_inv in Hrun as ([] & w5 & e5 & e5' & H5 & Hrun & _).
  apply bind_Ok_inv in Hrun as (st & w6 & e6 & e6' & H6 & Hrun & _).
  apply bind_Ok_inv in Hrun as ([] & w7 & e7 & e7' & H7 & Hrun & _).
  injection H7 as <- <-. injection Hrun as _ <- _.
  apply (keeps_for_each (fun w : W => _nodes (self w))) in H4;
    [|intros i; apply load_one_keeps_nodes].
  apply process_graph_keeps_nodes in H5.
  rewrite update_parameters_eq in H6. injection H6 as _ <- _.
  simpl in *. congruence.
Qed.

(** The comparison loop of [build()] returns only if every image is alive
    and carries the reference descriptor. *)
Lemma check_loop_Ok ps (w w' : W) e :
  for_each ps check_output_image w = (Ok tt, w', e) ->
  forall p, p ∈ ps ->
    exists img, heap w !! p = Some img /\
                ImageInfo_eqb (info img) (_output_image_info (self w)) = true.
Proof.
  revert w' e. induction ps as [|q ps IH]; intros w' e Hloop p Hp;
    [by apply elem_of_nil in Hp|].
  simpl in Hloop.
  apply bind_Ok_inv in Hloop as ([] & w1 & e1 & e2 & H1 & H2 & _).
  pose proof (check_output_image_pure _ _ _ _ _ H1) as [-> _].
  apply elem_of_cons in Hp as [->|Hp]; [|by eapply IH].
  unfold check_output_image, deref in H1. run_monad.
  destruct (heap w !! q) as [img|]; [|discriminate]. exists img. split; [done|].
  simpl in H1. by destruct (ImageInfo_eqb _ _).
Qed.

(** What a [build()] that returns has established. *)
Lemma build_Ok (w w' : W) st e :
  build dim_bits w = (Ok st, w', e) ->
  exists front rest img g,
    _output_images (self w) = front :: rest /\
    heap w !! front = Some img /\
    _output_images (self w') = front :: rest /\
    _output_image_info (self w') = info img /\
    (forall p, p ∈ front :: rest ->
       exists img', heap w !! p = Some img' /\
                    ImageInfo_eqb (info img') (info img) = true) /\
    _graph (self w') = Some g /\
    _graph_verfied (self w') = true /\ st = OK.
Proof.
  unfold build. intros Hb.
  apply bind_Ok_inv in Hb as ([] & w0 & e0 & e0' & H0 & Hb & ->).
  injection H0 as <- <-.
  apply bind_Ok_inv in Hb as (outs & w1 & e1 & e1' & H1 & Hb & ->).
  injection H1 as <- <- <-.
  simpl in Hb. destruct (_output_images (self w)) as [|front rest] eqn:Houts;
    [discriminate|].
  apply bind_Ok_inv in Hb as (img & w2 & e2 & e2' & H2 & Hb & ->).
  unfold deref in H2. simpl in H2.
  destruct (heap w !! front) as [imf|] eqn:Hfront; [|discriminate].
  injection H2 as <- <- <-.
  apply bind_Ok_inv in Hb as ([] & w3 & e3 & e3' & H3 & Hb & ->).
  injection H3 as <- <-.
  apply bind_Ok_inv in Hb as ([] & w4 & e4 & e4' & H4 & Hb & ->).
  pose proof (check_loop_pure _ _ _ _ _ H4) as [-> _].
  pose proof (check_loop_Ok _ _ _ _ H4) as Hall.
  apply bind_Ok_inv in Hb as (st5 & w5 & e5 & e5' & H5 & Hb & ->).
  apply bind_Ok_inv in Hb as ([] & w6 & e6 & e6' & H6 & Hb & ->).
  apply bind_Ok_inv in Hb as ([] & w7 & e7 & e7' & H7 & Hb & ->).
  injection H7 as <- <-. injection Hb as <- <- _.
  pose proof (create_single_graph_keeps_tensor _ _ _ _ H6) as Hkeep.
  injection Hkeep as _ _ Hi Ho.
  apply allocate_output_tensor_Ok in H5 as (Hi5 & Ho5 & _).
  simpl in *.
  assert (Hg : is_Some (_graph (self w6))).
  { unfold create_single_graph in H6.
    apply bind_Ok_inv in H6 as (? & ? & ? & ? & _ & H6 & _).
    apply bind_Ok_inv in H6 as (? & ? & ? & ? & _ & H6 & _).
    apply bind_Ok_inv in H6 as (? & ? & ? & ? & _ & H6 & _).
    apply bind_Ok_inv in H6 as (? & ? & ? & ? & _ & H6 & _).
    apply bind_Ok_inv in H6 as (? & ? & ? & ? & _ & H6 & _).
    apply bind_Ok_inv in H6 as (? & ? & ? & ? & _ & H6 & _).
    apply bind_Ok_inv in H6 as (? & ? & ? & ? & _ & H6 & _).
    apply bind_Ok_inv in H6 as (? & ? & ? & ? & _ & H6 & _).
    apply bind_Ok_inv in H6 as (g & wg & ? & ? & Hget & H6 & _).
    destruct g as [g|]; [|discriminate].
    apply bind_Ok_inv in H6 as (? & ? & ? & ? & _ & H6 & _).
    apply bind_Ok_inv in H6 as (? & ? & ? & ? & _ & H6 & _).
    apply bind_Ok_inv in H6 as (r & wr & ? & ? & _ & H6 & _).
    apply bind_Ok_inv in H6 as ([] & wm & ? & ? & Hm & H6 & _).
    injection Hm as <- _. injection H6 as <- _. simpl. by eexists. }
  destruct Hg as [g Hg].
  exists front, rest, imf, g.
  split; [done|]. split; [done|]. split; [congruence|]. split; [congruence|].
  split; [exact Hall|]. done.
Qed.

(** X9. A [build()] that returns leaves the object ready to run: the flag is
    up, a graph is attached, the reference descriptor is that of the first
    output image, and every output image was alive and carried a descriptor
    equal to it; the output registry is as before. *)
Theorem build_postcondition (w w' : W) (st : Status) (e : list Event) :
  build dim_bits w = (Ok st, w', e) ->
  st = OK /\
  _graph_verfied (self w') = true /\
  is_Some (_graph (self w')) /\
  _output_images (self w') = _output_images (self w) /\
  exists front img,
    head (_output_images (self w)) = Some front /\
    heap w !! front = Some img /\
    _output_image_info (self w') = info img /\
    forall p, p ∈ _output_images (self w) ->
      exists img', heap w !! p = Some img' /\
                   ImageInfo_eqb (info img') (info img) = true.
Proof.
  intros Hb.
  destruct (build_Ok _ _ _ _ Hb)
    as (front & rest & img & g & Ho & Hf & Ho' & Hi & Hall & Hg & Hflag & ->).
  rewrite Ho, Ho'. split; [done|]. split; [done|]. split; [by eexists|].
  split; [done|]. exists front, img. done.
Qed.

(** X10. After a [build()] that returned, the getters describe the first
    output image: [output_width()], [output_height()] and
    [output_color_format()] report its descriptor, converted to the return
    type, and [output_image_count()] the number of output images. *)
Theorem getters_after_build (w w' : W) (st : Status) (e : list Event) :
  build dim_bits w = (Ok st, w', e) ->
  exists front img,
    head (_output_images (self w)) = Some front /\
    heap w !! front = Some img /\
    output_width w' = (Ok (to_size_t (width (info img))), w', []) /\
    output_height w' = (Ok (to_size_t (height_batch (info img))), w', []) /\
    output_color_format w' = (Ok (color_format (info img)), w', []) /\
    output_image_count w'
    = (Ok (Z.of_nat (length (_output_images (self w)))), w', []).
Proof.
  intros Hb.
  destruct (build_Ok _ _ _ _ Hb)
    as (front & rest & img & g & Ho & Hf & Ho' & Hi & _).
  exists front, img. rewrite Ho. split; [done|]. split; [done|].
  unfold output_width, output_height, output_color_format, output_image_count.
  run_monad. rewrite Hi, Ho'. by destruct w'.
Qed.









(** X12. [build()] gives nothing back: whatever its outcome, it makes no
    call that releases a graph, a context or a device buffer, and deletes no
    image. On device memory a second [build()] thus leaves the buffer of
    the first one allocated. *)
Theorem build_releases_nothing (w : W) :
  Forall (fun ev => is_release ev = false) (snd (build dim_bits w)).
Proof.
  assert (Hb : emits_only (fun ev => is_release ev = false)
                 (build (L:=L) (N:=N) (G:=G) dim_bits)).
  { unfold build, allocate_output_tensor, create_single_graph, create_node,
      create_output_image, check_output_image. frame. }
  destruct (build dim_bits w) as [[r w'] e] eqn:Hw. simpl.
  apply (Hb _ _ _ _ Hw).
Qed.

End GraphFacts.

(** ** Loaders and the device tensor *)

Section LoaderFacts.

Context {L N G : Type}.
Context `{!LoaderModule L} `{!Graph G} `{!Node N G} `{!Runtime G}.

Abbreviation W := (World L N G).

Lemma remaining_fold_floor (ls : list L) (acc : Z) :
  -1 <= acc ->
  Forall (fun l => -1 <= to_int (count l)) ls ->
  -1 <= fold_left remaining_step ls acc.
Proof.
  revert acc. induction ls as [|l ls IH]; intros acc Hacc Hall; simpl; [done|].
  apply Forall_cons in Hall as [Hl Hall]. simpl in Hl. apply IH; [|done].
  unfold remaining_step.
  destruct (acc =? -1); [lia|]. destruct (to_int (count l) <? acc); lia.
Qed.

(** X13. The running minimum of [remaining_images_count()] uses [-1] for
    [no loader seen yet]: a loader whose count reads [-1] as an [int] makes
    the function forget every loader before it, and the result is the one
    for the loaders after it alone. *)
Theorem remaining_images_count_sentinel (w : W) (before after : list L) (l : L) :
  _loader_modules (self w) = before ++ l :: after ->
  Forall (fun l => -1 <= to_int (count l)) before ->
  to_int (count l) = -1 ->
  remaining_images_count w =
    (Ok (to_size_t (fold_left remaining_step after (-1))), w, []).
Proof.
  intros Hls Hbefore Hl. unfold remaining_images_count. run_monad.
  rewrite Hls, fold_left_app. simpl.
  pose proof (remaining_fold_floor before (-1) ltac:(lia) Hbefore) as Hfloor.
  assert (Hstep : remaining_step (fold_left remaining_step before (-1)) l = -1).
  { set (acc := fold_left remaining_step before (-1)) in *.
    unfold remaining_step. rewrite Hl.
    destruct (Z.eqb_spec acc (-1)); [done|].
    destruct (Z.ltb_spec (-1) acc); lia. }
  rewrite Hstep. by destruct w.
Qed.

(** X14. [deallocate_output_tensor()] releases the device buffer but leaves
    [_output_tensor] pointing at it: a second call, such as the one of the
    destructor after an explicit [release()], releases the same buffer
    again. *)
Theorem deallocate_output_tensor_twice (w : W) (m : cl_mem) :
  mem_type (_output_image_info (self w)) = OCL ->
  _output_tensor (self w) = Some m ->
  exists w1 w2,
    deallocate_output_tensor w = (Ok OK, w1, [EvClReleaseMemObject m]) /\
    cl_buffers w1 !! m = None /\
    _output_tensor (self w1) = Some m /\
    deallocate_output_tensor w1 = (Ok OK, w2, [EvClReleaseMemObject m]).
Proof.
  intros Hmem Ht. eexists _, _. split; [|split; [|split]].
  - unfold deallocate_output_tensor. run_monad. rewrite Hmem, Ht. reflexivity.
  - simpl. apply lookup_delete_eq.
  - done.
  - unfold deallocate_output_tensor. run_monad. rewrite Hmem, Ht. reflexivity.
Qed.

End LoaderFacts.

(** ** Construction and timing *)

(** X15. [get_ago_affinity_info] never fails on the two affinities and
    always yields a device index between 0 and 9: the requested index when
    it is in that range, 0 otherwise. The device type follows the
    affinity. *)
Theorem get_ago_affinity_info_valid (rali_affinity : RaliAffinity) (cpu_id gpu_id : Z) :
  exists a,
    get_ago_affinity_info rali_affinity cpu_id gpu_id = Ok a /\
    0 <= device_info a <= 9 /\
    device_type a =
      match rali_affinity with
      | GPU => AGO_TARGET_AFFINITY_GPU
      | CPU => AGO_TARGET_AFFINITY_CPU
      end /\
    let id := match rali_affinity with GPU => gpu_id | CPU => cpu_id end in
    (0 <= id <= 9 -> device_info a = id) /\
    (~ 0 <= id <= 9 -> device_info a = 0).
Proof.
  destruct rali_affinity; eexists; (split; [reflexivity|]); simpl.
  - destruct (Z.leb_spec 0 gpu_id), (Z.leb_spec gpu_id 9); simpl;
      repeat split; lia.
  - destruct (Z.leb_spec 0 cpu_id), (Z.leb_spec cpu_id 9); simpl;
      repeat split; lia.
Qed.

Section ConstructorFacts.

Context {L N G : Type}.
Context `{!LoaderModule L} `{!Graph G} `{!Node N G} `{!Runtime G}.
Context `{!ContextRuntime} `{!LoaderTiming L}.

Abbreviation W := (World L N G).
Abbreviation Mon := (M L N G).

(** X16. When the context is created, the affinity attribute is accepted and
    [vx_rpp] loads (and, on the GPU, the device initialises), the
    constructor returns an object that is not verified, owns no image, graph
    or tensor, holds the new context, and uses device memory exactly when
    the affinity is GPU. A failure to load [vx_media] only logs a
    warning. *)
Theorem MasterGraph_new_success (default_info : ImageInfo) (affinity : RaliAffinity)
    (gpu_id : Z) (h : Images) (bufs : gmap positive Z) :
  let ctx := vxCreateContext in
  vxGetStatus ctx = VX_SUCCESS ->
  (forall a, get_ago_affinity_info affinity 0 gpu_id = Ok a ->
             vxSetContextAttribute_AFFINITY ctx a = VX_SUCCESS) ->
  vxLoadKernels ctx "vx_rpp" = VX_SUCCESS ->
  (affinity = GPU -> init_ocl ctx = Ok tt) ->
  MasterGraph_new (L:=L) (N:=N) (G:=G)
    (member_initialisers default_info affinity gpu_id h bufs) =
    (Ok tt,
     mkWorld
       (mkMasterGraph None None affinity gpu_id ctx
          (match affinity with GPU => OCL | CPU => HOST end)
          default_info [] [] [] [] false)
       h bufs,
     if decide (vxLoadKernels ctx "vx_media" = VX_SUCCESS) then []
     else [EvLog media_warning]).
Proof.
  intros ctx Hstatus Hattr Hrpp Hocl.
  assert (Ha : exists a, get_ago_affinity_info affinity 0 gpu_id = Ok a)
    by (destruct affinity; eexists; reflexivity).
  destruct Ha as (a & Ha). specialize (Hattr a Ha).
  unfold MasterGraph_new, try_release, constructor_body, member_initialisers.
  run_monad. fold ctx. rewrite Ha. simpl.
  rewrite (decide_True _ _ Hstatus). simpl.
  rewrite (decide_True _ _ Hattr). simpl.
  rewrite (decide_True _ _ Hrpp). simpl.
  destruct (decide (vxLoadKernels ctx "vx_media" = VX_SUCCESS)); simpl;
    destruct affinity; simpl; try reflexivity;
    rewrite (Hocl eq_refl); reflexivity.
Qed.

(** X17. When [vxGetStatus], [vxSetContextAttribute] or the loading of
    [vx_rpp] fails, the first failure decides the message and the
    constructor throws after its partial clean-up: the context is released
    if one was created, and nothing else is released or deleted; the heap
    and the device buffers are as before the call. *)
Theorem MasterGraph_new_failure (default_info : ImageInfo) (affinity : RaliAffinity)
    (gpu_id : Z) (h : Images) (bufs : gmap positive Z) (a : AgoTargetAffinityInfo) :
  let ctx := vxCreateContext in
  get_ago_affinity_info affinity 0 gpu_id = Ok a ->
  vxGetStatus ctx <> VX_SUCCESS \/
  vxSetContextAttribute_AFFINITY ctx a <> VX_SUCCESS \/
  vxLoadKernels ctx "vx_rpp" <> VX_SUCCESS ->
  exists w',
    MasterGraph_new (L:=L) (N:=N) (G:=G)
      (member_initialisers default_info affinity gpu_id h bufs) =
      (Throw
         (if decide (vxGetStatus ctx = VX_SUCCESS) then
            if decide (vxSetContextAttribute_AFFINITY ctx a = VX_SUCCESS)
            then "Cannot load OpenVX augmentation extension (vx_rpp), vxLoadKernels failed "
            else "vxSetContextAttribute failed "
          else "vxCreateContext failed"),
       w',
       match ctx with
       | Some c =>
           EvReleaseContext c
           :: (if decide (vxReleaseContext c = VX_SUCCESS) then []
               else [EvLog "Failed to call vxReleaseContext"])
       | None => []
       end) /\
    heap w' = h /\ cl_buffers w' = bufs /\
    _graph_verfied (self w') = false.
Proof.
  intros ctx Ha Hfail.
  set (mt := match affinity with GPU => OCL | CPU => HOST end).
  set (w1 := mkWorld
               (mkMasterGraph None None affinity gpu_id ctx mt default_info
                  [] [] [] [] false) h bufs : W).
  set (what :=
         if decide (vxGetStatus ctx = VX_SUCCESS) then
           if decide (vxSetContextAttribute_AFFINITY ctx a = VX_SUCCESS)
           then "Cannot load OpenVX augmentation extension (vx_rpp), vxLoadKernels failed "
           else "vxSetContextAttribute failed "
         else "vxCreateContext failed").
  assert (Hbody : constructor_body
                    (member_initialisers default_info affinity gpu_id h bufs)
                  = (Throw what, w1, [])).
  { unfold constructor_body, member_initialisers, what, w1, mt.
    run_monad. fold ctx. rewrite Ha. simpl.
    destruct (decide (vxGetStatus ctx = VX_SUCCESS)) as [H1|H1]; simpl;
      [|reflexivity].
    destruct (decide (vxSetContextAttribute_AFFINITY ctx a = VX_SUCCESS))
      as [H2|H2]; simpl; [|reflexivity].
    destruct (decide (vxLoadKernels ctx "vx_rpp" = VX_SUCCESS)) as [H3|H3];
      simpl; [by destruct Hfail as [?|[?|?]]|reflexivity]. }
  assert (Hrel : exists w',
      release w1
      = (Ok tt, w',
         match ctx with
         | Some c =>
             EvReleaseContext c
             :: (if decide (vxReleaseContext c = VX_SUCCESS) then []
                 else [EvLog "Failed to call vxReleaseContext"])
         | None => []
         end) /\
      heap w' = h /\ cl_buffers w' = bufs /\ _graph_verfied (self w') = false).
  { unfold release, deallocate_output_tensor, w1. run_monad.
    destruct ctx as [c|]; simpl.
    - destruct (decide (vxReleaseContext c = VX_SUCCESS)); simpl;
        destruct (mem_type default_info); simpl; eexists; done.
    - destruct (mem_type default_info); simpl; eexists; done. }
  destruct Hrel as (w' & Hr & Hh & Hc & Hf).
  exists w'. split; [|done].
  unfold MasterGraph_new, try_release. rewrite Hbody, Hr. reflexivity.
Qed.

Lemma wrap_add_l (a b : Z) : wrap 64 (wrap 64 a + b) = wrap 64 (a + b).
Proof. unfold wrap. apply Z.add_mod_idemp_l. lia. Qed.

Lemma timing_sum_cons (k : nat) (l : L) (ls : list L) :
  timing_sum k (l :: ls) =
    if (length (LoaderModule_timing l) <? 2)%nat then timing_sum k ls
    else nth k (LoaderModule_timing l) 0 + timing_sum k ls.
Proof.
  unfold timing_sum. cbn [List.filter].
  destruct (Nat.ltb_spec (length (LoaderModule_timing l)) 2) as [Hlt|Hge].
  - by rewrite (proj2 (Nat.leb_gt _ _) Hlt).
  - by rewrite (proj2 (Nat.leb_le _ _) Hge).
Qed.

(** The two accumulators of [timing()] are the sums, modulo [2^64], of the
    first and second entries of the loaders that report both. *)
Lemma timing_fold (ls : list L) (x y : Z) :
  fold_left timing_step ls (wrap 64 x, wrap 64 y) =
    (wrap 64 (x + timing_sum 0 ls), wrap 64 (y + timing_sum 1 ls)).
Proof.
  revert x y. induction ls as [|l ls IH]; intros x y.
  - unfold timing_sum. simpl. by rewrite !Z.add_0_r.
  - cbn [fold_left]. rewrite !timing_sum_cons. unfold timing_step at 2.
    cbn [fst snd].
    destruct (length (LoaderModule_timing l) <? 2)%nat; [apply IH|].
    rewrite !wrap_add_l, IH. by rewrite !Z.add_assoc.
Qed.

(** X18. [timing()] changes nothing and returns four numbers: the load and
    decode times summed, modulo [2^64], over the loaders whose own timing has
    at least two entries (a loader reporting fewer is skipped, not read out
    of range), then the process timer and the convert timer. *)
Theorem timing_value (get_timing : Timer -> Z) (w : W) :
  timing get_timing w =
    (Ok [wrap 64 (timing_sum 0 (_loader_modules (self w)));
         wrap 64 (timing_sum 1 (_loader_modules (self w)));
         get_timing ProcessTime; get_timing ConvertTime],
     w, []).
Proof.
  unfold timing. run_monad.
  change (0, 0) with (wrap 64 0, wrap 64 0).
  rewrite timing_fold. simpl. by destruct w.
Qed.

End ConstructorFacts.

(** ** The WarpAffine validator, its failures *)

Section ValidateMore.

Import WarpAffine.
Context `{!OpenVX}.

Lemma check_scalar_bad parameters idx ty metas k r s ty' :
  parameters !! idx = Some r ->
  vxQueryScalar_TYPE r = (s, ty') ->
  s <> VX_SUCCESS \/ ty' <> ty ->
  check_scalar parameters idx ty metas k =
    Ok (if decide (s = VX_SUCCESS) then VX_ERROR_INVALID_TYPE else s, metas).
Proof.
  intros Hr Hq Hbad. unfold check_scalar, STATUS_ERROR_CHECK. rewrite Hr, Hq.
  simpl. destruct (decide (s = VX_SUCCESS)); [|done].
  rewrite decide_False; [done|]. by destruct Hbad.
Qed.

Lemma check_scalar_missing parameters idx ty metas k :
  parameters !! idx = None ->
  check_scalar parameters idx ty metas k = Undefined.
Proof. intros Hr. unfold check_scalar. by rewrite Hr. Qed.

(** X19. The first scalar parameter, among parameters 2 to 9, that is not
    as expected decides the result: if its type query fails the validator
    returns the status of the query, if its type is not the expected one it
    returns [VX_ERROR_INVALID_TYPE]; either way no meta format attribute has
    been set, and neither image is queried. *)
Theorem validateWarpAffine_bad_scalar node parameters num metas
    (k : nat) (r : vx_reference) (s : vx_status) (ty : vx_type) :
  (2 <= k <= 9)%nat ->
  (forall j, (2 <= j < k)%nat -> scalar_typed parameters j (expected_type j)) ->
  parameters !! k = Some r ->
  vxQueryScalar_TYPE r = (s, ty) ->
  s <> VX_SUCCESS \/ ty <> expected_type k ->
  validateWarpAffine node parameters num metas =
    Ok (if decide (s = VX_SUCCESS) then VX_ERROR_INVALID_TYPE else s, metas).
Proof.
  intros Hk Hbefore Hr Hq Hbad. unfold validateWarpAffine.
  assert (Hcases : (k = 2 \/ k = 3 \/ k = 4 \/ k = 5 \/ k = 6 \/ k = 7 \/ k = 8
                    \/ k = 9)%nat) by lia.
  repeat destruct Hcases as [->|Hcases]; try subst k.
  all: repeat (rewrite check_scalar_typed;
               [|match goal with
                 | |- scalar_typed _ ?j _ => apply (Hbefore j); lia
                 end]).
  all: unfold expected_type in Hbad; simpl in Hbad.
  all: by rewrite (check_scalar_bad _ _ _ _ _ r s ty Hr Hq Hbad).
Qed.

(** X20. The validator never looks at [num]: when the parameter array stops
    before index 9, after scalars that are as expected, it reads past the
    end of the array. *)
Theorem validateWarpAffine_short_array node parameters num metas :
  (2 <= length parameters <= 9)%nat ->
  (forall j, (2 <= j < length parameters)%nat ->
             scalar_typed parameters j (expected_type j)) ->
  validateWarpAffine node parameters num metas = Undefined.
Proof.
  intros Hlen Hbefore. unfold validateWarpAffine.
  assert (Hnone : parameters !! length parameters = None)
    by (by apply lookup_ge_None_2).
  set (k := length parameters) in *.
  assert (Hcases : (k = 2 \/ k = 3 \/ k = 4 \/ k = 5 \/ k = 6 \/ k = 7 \/ k = 8
                    \/ k = 9)%nat) by lia.
  clearbody k.
  repeat destruct Hcases as [->|Hcases]; try subst k.
  all: repeat (rewrite check_scalar_typed;
               [|match goal with
                 | |- scalar_typed _ ?j _ => apply (Hbefore j); lia
                 end]).
  all: by rewrite check_scalar_missing.
Qed.

End ValidateMore.

(** ** The WarpAffine process callback *)

Section ProcessFacts.

Import WarpAffine WarpAffineKernel.
Context `{!OpenVX} `{!KernelVX}.
Variable ENABLE_OPENCL : bool.

Lemma checked_ok {A} (q : vx_status * A) store d k v :
  q = (VX_SUCCESS, v) -> checked q store d k = k (store v d).
Proof. intros ->. unfold checked. cbn [fst snd]. by rewrite decide_True. Qed.

Lemma parameter_ok parameters idx k r :
  parameters !! idx = Some r -> parameter parameters idx k = k r.
Proof. intros Hr. unfold parameter. by rewrite Hr. Qed.

Lemma calls_on_success_checked {A} (q : vx_status * A) store d k :
  (forall d', calls_on_success (k d')) -> calls_on_success (checked q store d k).
Proof.
  intros Hk. unfold checked. destruct (decide (fst q = VX_SUCCESS)); [apply Hk|].
  intros s d' calls [= _ _ <-]. by left.
Qed.

Lemma calls_on_success_parameter parameters idx k :
  (forall r, calls_on_success (k r)) ->
  calls_on_success (parameter parameters idx k).
Proof.
  intros Hk. unfold parameter. destruct (parameters !! idx); [apply Hk|].
  intros s d calls [=].
Qed.

Lemma calls_on_success_undefined : calls_on_success Undefined.
Proof. intros s d calls [=]. Qed.

Lemma calls_on_success_return s d calls :
  calls = [] \/ (s = VX_SUCCESS /\ exists c, calls = [c]) ->
  calls_on_success (Ok (s, d, calls)).
Proof. by intros Hc s' d' calls' [= <- _ <-]. Qed.

Ltac calls_step :=
  first
    [ apply calls_on_success_parameter; intros ?
    | apply calls_on_success_checked; intros ?
    | apply calls_on_success_undefined ].

(** X21. Whatever the node, the parameters and the answers of OpenVX, a
    process callback that returns has made at most one RPP call, and none
    at all unless it returns [VX_SUCCESS]: after a failed query the kernel is
    not run. *)
Theorem processWarpAffine_calls node parameters num :
  calls_on_success (processWarpAffine ENABLE_OPENCL node parameters num).
Proof.
  unfold processWarpAffine.
  destruct (decide (fst (vxQueryNode_LOCAL_DATA_PTR node) = VX_SUCCESS));
    [|apply calls_on_success_return; by left].
  apply calls_on_success_parameter. intros p0.
  destruct (decide (fst (vxQueryImage_FORMAT p0) = VX_SUCCESS));
    [|apply calls_on_success_return; by left].
  destruct (snd (vxQueryNode_LOCAL_DATA_PTR node)) as [d|];
    [|apply calls_on_success_undefined].
  destruct (local_device_type d) as [[|]|]; [| |apply calls_on_success_undefined].
  - unfold process_cpu, read_scalars. repeat calls_step.
    apply calls_on_success_return.
    repeat (destruct (decide _)); eauto.
  - destruct ENABLE_OPENCL; [|apply calls_on_success_undefined].
    unfold process_gpu, read_scalars. repeat calls_step.
    apply calls_on_success_return.
    repeat (destruct (decide _)); eauto.
Qed.

(** X22. When every query succeeds, the callback of a node whose local data
    names the CPU, or the GPU in a build with OpenCL, returns [VX_SUCCESS]
    and dispatches on the format of the input image: the planar kernel for
    U8, the packed one for RGB, each on the device of the node, with the
    dimensions, buffers and coefficients just queried; for any other format
    it returns [VX_SUCCESS] without calling a kernel. *)
Theorem processWarpAffine_dispatch node parameters num
    (d : WarpAffineLocalData) (t : AgoDeviceType)
    (p0 p1 p2 p3 p4 p5 p6 p7 p8 p9 : vx_reference) (rest : list vx_reference)
    (df_image : vx_df_image) (h w src dst dw dh : Z) (a0 a1 a2 a3 a4 a5 : float) :
  vxQueryNode_LOCAL_DATA_PTR node = (VX_SUCCESS, Some d) ->
  local_device_type d = Device t ->
  (t = AGO_TARGET_AFFINITY_GPU -> ENABLE_OPENCL = true) ->
  length (affine d) = 6%nat ->
  parameters = [p0; p1; p2; p3; p4; p5; p6; p7; p8; p9] ++ rest ->
  vxQueryImage_FORMAT p0 = (VX_SUCCESS, df_image) ->
  vxQueryImage_HEIGHT p0 = (VX_SUCCESS, h) ->
  vxQueryImage_WIDTH p0 = (VX_SUCCESS, w) ->
  buffer_query t p0 = (VX_SUCCESS, src) ->
  buffer_query t p1 = (VX_SUCCESS, dst) ->
  vxReadScalarValue_uint p2 = (VX_SUCCESS, dw) ->
  vxReadScalarValue_uint p3 = (VX_SUCCESS, dh) ->
  vxReadScalarValue_float p4 = (VX_SUCCESS, a0) ->
  vxReadScalarValue_float p5 = (VX_SUCCESS, a1) ->
  vxReadScalarValue_float p6 = (VX_SUCCESS, a2) ->
  vxReadScalarValue_float p7 = (VX_SUCCESS, a3) ->
  vxReadScalarValue_float p8 = (VX_SUCCESS, a4) ->
  vxReadScalarValue_float p9 = (VX_SUCCESS, a5) ->
  exists d',
    processWarpAffine ENABLE_OPENCL node parameters num =
      Ok (VX_SUCCESS, Some d',
          dispatched t df_image src (mkRppiSize w h) dst (mkRppiSize dw dh)
            [a0; a1; a2; a3; a4; a5] (handle_cmdq d)).
Proof.
  intros Hnode Hdev Hocl Hlen -> Hf Hh Hw Hsrc Hdst H2 H3 H4 H5 H6 H7 H8 H9.
  unfold processWarpAffine, parameter. rewrite Hnode. simpl.
  rewrite Hf. simpl. rewrite Hdev.
  destruct (affine d) as [|b0 [|b1 [|b2 [|b3 [|b4 [|b5 [|]]]]]]] eqn:Haff;
    try discriminate.
  destruct t; simpl in Hsrc, Hdst.
  - unfold process_cpu, read_scalars, parameter. simpl.
    rewrite (checked_ok _ _ _ _ _ Hh), (checked_ok _ _ _ _ _ Hw),
      (checked_ok _ _ _ _ _ Hsrc), (checked_ok _ _ _ _ _ Hdst),
      (checked_ok _ _ _ _ _ H2), (checked_ok _ _ _ _ _ H3),
      (checked_ok _ _ _ _ _ H4), (checked_ok _ _ _ _ _ H5),
      (checked_ok _ _ _ _ _ H6), (checked_ok _ _ _ _ _ H7),
      (checked_ok _ _ _ _ _ H8), (checked_ok _ _ _ _ _ H9).
    eexists. simpl. rewrite Haff. simpl.
    destruct df_image; reflexivity.
  - rewrite (Hocl eq_refl).
    unfold process_gpu, read_scalars, parameter. simpl.
    rewrite (checked_ok _ _ _ _ _ Hh), (checked_ok _ _ _ _ _ Hw),
      (checked_ok _ _ _ _ _ Hsrc), (checked_ok _ _ _ _ _ Hdst),
      (checked_ok _ _ _ _ _ H2), (checked_ok _ _ _ _ _ H3),
      (checked_ok _ _ _ _ _ H4), (checked_ok _ _ _ _ _ H5),
      (checked_ok _ _ _ _ _ H6), (checked_ok _ _ _ _ _ H7),
      (checked_ok _ _ _ _ _ H8), (checked_ok _ _ _ _ _ H9).
    eexists. simpl. rewrite Haff. simpl.
    destruct df_image; reflexivity.
Qed.

(** X23. The callback ends without a [return] when the device type stored
    in the local data is neither of the two affinity codes, and also when it
    is the GPU code in a build without OpenCL, where the GPU branch is
    empty: once the local data and the input format have been obtained, the
    outcome is undefined. *)
Theorem processWarpAffine_no_return node parameters num
    (d : WarpAffineLocalData) (p0 : vx_reference) :
  vxQueryNode_LOCAL_DATA_PTR node = (VX_SUCCESS, Some d) ->
  parameters !! 0%nat = Some p0 ->
  fst (vxQueryImage_FORMAT p0) = VX_SUCCESS ->
  (exists code, local_device_type d = Device_other code) \/
  (local_device_type d = Device AGO_TARGET_AFFINITY_GPU /\ ENABLE_OPENCL = false) ->
  processWarpAffine ENABLE_OPENCL node parameters num = Undefined.
Proof.
  intros Hnode Hp0 Hf Hdev. unfold processWarpAffine, parameter.
  rewrite Hnode, Hp0. destruct (vxQueryImage_FORMAT p0) as [sf df].
  simpl in Hf. subst sf. simpl.
  destruct Hdev as [[code ->]|[-> ->]]; reflexivity.
Qed.

End ProcessFacts.

(** ** Failures of build and of the tensor copy *)

Section FailureFacts.

Context {L N G : Type}.
Context `{!LoaderModule L} `{!Graph G} `{!Node N G} `{!Runtime G}.
Variable dim_bits : Z.

Abbreviation W := (World L N G).

(** The comparison loop goes through when every image is alive and carries
    the reference descriptor. *)
Lemma check_loop_match (w : W) ps :
  (forall p, p ∈ ps ->
     exists img, heap w !! p = Some img /\
                 ImageInfo_eqb (info img) (_output_image_info (self w)) = true) ->
  for_each ps check_output_image w = (Ok tt, w, []).
Proof.
  induction ps as [|q ps IH]; intros Hall; [reflexivity|].
  destruct (Hall q) as (img & Hq & Heq); [by left|].
  simpl. unfold bind. rewrite (check_output_image_eq _ _ _ Hq), Heq.
  rewrite IH; [reflexivity|]. intros p Hp. apply Hall. by right.
Qed.

(** X24. When the output images agree and live in device memory but
    [clCreateBuffer] yields no buffer, [build()] throws after that one call:
    no graph is created, the flag stays down, and [_output_tensor] has
    already been reset to null, whatever it held. *)
Theorem build_allocation_failure (w : W) (front : ptr) (rest : list ptr) (img : Image) :
  _output_images (self w) = front :: rest ->
  heap w !! front = Some img ->
  mem_type (info img) = OCL ->
  (forall p, p ∈ front :: rest ->
     exists img', heap w !! p = Some img' /\
                  ImageInfo_eqb (info img') (info img) = true) ->
  (forall size, clCreateBuffer (cl_buffers w) size = None) ->
  exists w' size,
    build dim_bits w = (Throw "clCreateBuffer failed", w', [EvClCreateBuffer size]) /\
    _graph_verfied (self w') = false /\
    _graph (self w') = _graph (self w) /\
    _output_tensor (self w') = None /\
    _output_image_info (self w') = info img /\
    heap w' = heap w /\ cl_buffers w' = cl_buffers w.
Proof.
  intros Houts Hfront Hocl Hall Hnone.
  set (w1 := mkWorld
               (set_output_image_info (info img)
                  (set_graph_verfied false (self w)))
               (heap w) (cl_buffers w) : W).
  assert (Hloop : for_each (front :: rest) check_output_image w1 = (Ok tt, w1, [])).
  { apply check_loop_match. exact Hall. }
  unfold build. unfold bind at 1. unfold modify at 1. cbn iota beta.
  unfold bind at 1. unfold get at 1. cbn [self _output_images set_graph_verfied].
  rewrite Houts.
  unfold bind at 1. unfold deref at 1. cbn [heap]. rewrite Hfront.
  unfold bind at 1. unfold modify at 1. cbn iota beta.
  cbn [self heap cl_buffers]. fold w1. unfold bind at 1. rewrite Hloop.
  unfold bind at 1. unfold allocate_output_tensor. run_monad.
  rewrite Hocl. simpl. rewrite Hnone. simpl.
  eexists _, _. split; [reflexivity|]. simpl. done.
Qed.

(** A loop whose turns return or are undefined, and whose turn [k] is
    undefined, is undefined once it has the fuel to reach that turn. *)
Lemma for_unsigned_undefined {S} (body : Z -> S -> outcome S) n k :
  0 <= k < n -> n < 2 ^ 32 ->
  (forall i s, 0 <= i < k -> body i s = Undefined \/ exists s', body i s = Ok s') ->
  (forall s, body k s = Undefined) ->
  forall fuel i s,
    0 <= i <= k -> (Z.to_nat (k - i) < fuel)%nat ->
    for_unsigned fuel i n body s = Undefined.
Proof.
  intros Hk Hn Hbefore Hat. induction fuel as [|fuel IH]; intros i s Hi Hfuel; [lia|].
  simpl. replace (i <? n) with true by (symmetry; apply Z.ltb_lt; lia).
  destruct (decide (i = k)) as [->|Hne]; [by rewrite Hat|].
  destruct (Hbefore i s) as [->|(s' & ->)]; [lia|done|]. simpl.
  rewrite to_unsigned_small by lia. apply IH; lia.
Qed.

(** A loop whose turns return or are undefined returns or is undefined,
    given the fuel to end. *)
Lemma for_unsigned_defined {S} (body : Z -> S -> outcome S) n :
  0 <= n < 2 ^ 32 ->
  (forall i s, 0 <= i < n -> body i s = Undefined \/ exists s', body i s = Ok s') ->
  forall fuel i s,
    0 <= i <= n -> (Z.to_nat (n - i) < fuel)%nat ->
    for_unsigned fuel i n body s = Undefined \/
    exists s', for_unsigned fuel i n body s = Ok s'.
Proof.
  intros Hn Hbody. induction fuel as [|fuel IH]; intros i s Hi Hfuel; [lia|].
  simpl. destruct (i <? n) eqn:Hlt; [|by eauto].
  apply Z.ltb_lt in Hlt.
  destruct (Hbody i s) as [->|(s' & ->)]; [lia|by left|]. simpl.
  rewrite to_unsigned_small by lia. apply IH; lia.
Qed.

Section FourPlanes.

Variables multiplier0 multiplier1 multiplier2 offset0 offset1 offset2 : float.
Variable reverse_channels : bool.

Abbreviation multiplier := (array3 multiplier0 multiplier1 multiplier2).
Abbreviation offset := (array3 offset0 offset1 offset2).

Lemma normalized_defined in_buffer c ch i :
  normalized multiplier offset in_buffer c reverse_channels ch i = Undefined \/
  exists v, normalized multiplier offset in_buffer c reverse_channels ch i = Ok v.
Proof.
  unfold normalized, array3, read_uchar.
  destruct (ch =? 0); [|destruct (ch =? 1); [|destruct (ch =? 2); [|by left]]].
  all: simpl; destruct (in_buffer !! _); simpl; eauto.
Qed.

(** One image of more than three planes: the fourth turn of the channel
    loop reads [offset[3]]. *)
Lemma copy_image_four_planes (index : Z -> Z -> Z) fuel cs c in_buffer
    (out : gmap Z float) :
  3 < c < 2 ^ 32 -> 0 < cs < 2 ^ 32 ->
  (Z.to_nat cs < fuel)%nat -> (3 < fuel)%nat ->
  for_unsigned fuel 0 c (fun channel_idx out =>
    for_unsigned fuel 0 cs (fun i out =>
      outcome_bind
        (normalized multiplier offset in_buffer c reverse_channels channel_idx i)
        (fun v => Ok (<[index channel_idx i := v]> out)))
      out) out
  = Undefined.
Proof.
  intros Hc Hcs Hfuel Hfuel3.
  apply (for_unsigned_undefined _ c 3); [lia|lia| | |lia|lia].
  - intros ch s Hch. apply for_unsigned_defined; [lia| |lia|lia].
    intros i s' Hi.
    destruct (normalized_defined in_buffer c ch i) as [->|(v & ->)]; simpl; eauto.
  - intros s. destruct fuel as [|fuel']; [lia|]. simpl.
    replace (0 <? cs) with true by (symmetry; apply Z.ltb_lt; lia).
    reflexivity.
Qed.

(** X25. Nothing in [copy_out_tensor] bounds the plane count by the three
    entries of [multiplier] and [offset]: on host memory, with an output
    image of more than three planes and at least one pixel, the copy reads
    past the end of the two arrays, whatever the layout asked for. *)
Theorem copy_out_tensor_four_planes (w : W) (fuel : nat) (out_ptr : gmap Z float)
    (format : RaliTensorFormat) (p : ptr) (rest : list ptr) (img : Image) :
  let i := _output_image_info (self w) in
  mem_type i = HOST ->
  3 < color_plane_count i < 2 ^ 32 ->
  0 < width i -> 0 < height_batch i ->
  width i * height_batch i < 2 ^ 32 ->
  _output_images (self w) = p :: rest ->
  heap w !! p = Some img ->
  (Z.to_nat (width i * height_batch i) < fuel)%nat -> (3 < fuel)%nat ->
  fst (fst (copy_out_tensor fuel out_ptr format
              multiplier0 multiplier1 multiplier2 offset0 offset1 offset2
              reverse_channels w))
  = Undefined.
Proof.
  intros i Hhost Hc Hw Hh Hwh Houts Hp Hfuel Hfuel3.
  assert (Hws : to_size_t (width i) = width i) by (apply to_size_t_small; nia).
  assert (Hhs : to_size_t (height_batch i) = height_batch i)
    by (apply to_size_t_small; nia).
  assert (Hcs : to_size_t (color_plane_count i) = color_plane_count i)
    by (apply to_size_t_small; lia).
  assert (Hsz : to_size_t (width i * height_batch i) = width i * height_batch i)
    by (apply to_size_t_small; nia).
  unfold copy_out_tensor. run_monad. fold i.
  rewrite Hhost, Houts. simpl. rewrite Hws, Hhs, Hcs.
  unfold copy_out_tensor_host. unfold bind at 1. unfold deref at 1. simpl.
  rewrite Hp.
  destruct format; simpl; unfold bind, lift, ret.
  - unfold copy_image_NHWC. rewrite Hsz.
    rewrite copy_image_four_planes by (done || nia). reflexivity.
  - unfold copy_image_NCHW. rewrite Hsz.
    rewrite copy_image_four_planes by (done || nia). reflexivity.
Qed.

End FourPlanes.

End FailureFacts.

(** ** The WarpAffine initialiser *)

Section InitializeFacts.

Import WarpAffine WarpAffineKernel.
Context `{!OpenVX} `{!KernelVX} `{!InitVX}.
Variable ENABLE_OPENCL : bool.
Variable zero_device : DeviceType.

Lemma init_checked_ok {A} (q : vx_status * A) store d k v :
  q = (VX_SUCCESS, v) -> init_checked q store d k = k (store v d).
Proof. intros ->. unfold init_checked. cbn [fst snd]. by rewrite decide_True. Qed.

Lemma attaches_on_success_checked {A} (q : vx_status * A) store d k :
  (forall d', attaches_on_success (k d')) ->
  attaches_on_success (init_checked q store d k).
Proof.
  intros Hk. unfold init_checked.
  destruct (decide (fst q = VX_SUCCESS)) as [|Hbad]; [apply Hk|].
  intros s d' a [= <- _ <-]. by right.
Qed.

Lemma attaches_on_success_parameter parameters idx k :
  (forall r, attaches_on_success (k r)) ->
  attaches_on_success (init_parameter parameters idx k).
Proof.
  intros Hk. unfold init_parameter. destruct (parameters !! idx); [apply Hk|].
  intros s d a [=].
Qed.

Lemma attaches_on_success_if_opencl s d k :
  (forall k' d', (forall d'', attaches_on_success (k' d'')) ->
                 attaches_on_success (s d' k')) ->
  (forall d', attaches_on_success (k d')) ->
  attaches_on_success (if_opencl ENABLE_OPENCL s d k).
Proof. intros Hs Hk. unfold if_opencl. destruct ENABLE_OPENCL; auto. Qed.

Ltac attaches_step :=
  first
    [ apply attaches_on_success_parameter; intros ?
    | apply attaches_on_success_checked; intros ?
    | apply attaches_on_success_if_opencl;
      [intros ? ? ?; by apply attaches_on_success_checked|intros ?] ].

(** X26. Whatever OpenVX answers, the initialiser stores the local data in
    the node exactly when it returns [VX_SUCCESS]. When a query fails it
    returns that status at once: the structure it has allocated is then
    neither stored in the node nor deleted. *)
Theorem initializeWarpAffine_attaches node parameters num :
  attaches_on_success
    (initializeWarpAffine ENABLE_OPENCL zero_device node parameters num).
Proof.
  unfold initializeWarpAffine. repeat attaches_step.
  destruct (decide _) as [Hok|Hbad]; intros s d a [= <- <- <-]; auto.
Qed.

(** X27. When every call succeeds, the local data the initialiser stores in
    the node holds the dimensions of the input image, the output dimensions
    of parameters 2 and 3, the six coefficients of parameters 4 to 9 and the
    device type of parameter 10; the command queue and the device buffer of
    the input are filled in only in a build with OpenCL, the host buffer
    pointers stay null. *)
Theorem initializeWarpAffine_success node parameters num
    (p0 p1 p2 p3 p4 p5 p6 p7 p8 p9 p10 : vx_reference) (rest : list vx_reference)
    (cmdq h w dw dh buf : Z) (a0 a1 a2 a3 a4 a5 : float) (dev : DeviceType) :
  parameters = [p0; p1; p2; p3; p4; p5; p6; p7; p8; p9; p10] ++ rest ->
  (ENABLE_OPENCL = true ->
   vxQueryNode_OPENCL_COMMAND_QUEUE node = (VX_SUCCESS, cmdq)) ->
  vxQueryImage_HEIGHT p0 = (VX_SUCCESS, h) ->
  vxQueryImage_WIDTH p0 = (VX_SUCCESS, w) ->
  vxCopyScalar_uint p2 = (VX_SUCCESS, dw) ->
  vxCopyScalar_uint p3 = (VX_SUCCESS, dh) ->
  vxCopyScalar_float p4 = (VX_SUCCESS, a0) ->
  vxCopyScalar_float p5 = (VX_SUCCESS, a1) ->
  vxCopyScalar_float p6 = (VX_SUCCESS, a2) ->
  vxCopyScalar_float p7 = (VX_SUCCESS, a3) ->
  vxCopyScalar_float p8 = (VX_SUCCESS, a4) ->
  vxCopyScalar_float p9 = (VX_SUCCESS, a5) ->
  vxCopyScalar_device p10 = (VX_SUCCESS, dev) ->
  (ENABLE_OPENCL = true ->
   vxQueryImage_OPENCL_BUFFER p0 = (VX_SUCCESS, buf)) ->
  (forall d, vxSetNodeAttribute_LOCAL_DATA_PTR node d = VX_SUCCESS) ->
  let data :=
    mkLocalData (if ENABLE_OPENCL then cmdq else 0)
      (mkRppiSize w h) (mkRppiSize dw dh) 0 0 [a0; a1; a2; a3; a4; a5] dev
      (if ENABLE_OPENCL then buf else 0) 0 in
  initializeWarpAffine ENABLE_OPENCL zero_device node parameters num
  = Ok (VX_SUCCESS, data, Some data).
Proof.
  intros -> Hq Hh Hw H2 H3 H4 H5 H6 H7 H8 H9 H10 Hbuf Hset data.
  unfold initializeWarpAffine, init_parameter, if_opencl. simpl.
  destruct ENABLE_OPENCL.
  - rewrite (init_checked_ok _ _ _ _ _ (Hq eq_refl)).
    rewrite (init_checked_ok _ _ _ _ _ Hh), (init_checked_ok _ _ _ _ _ Hw),
      (init_checked_ok _ _ _ _ _ H2), (init_checked_ok _ _ _ _ _ H3),
      (init_checked_ok _ _ _ _ _ H4), (init_checked_ok _ _ _ _ _ H5),
      (init_checked_ok _ _ _ _ _ H6), (init_checked_ok _ _ _ _ _ H7),
      (init_checked_ok _ _ _ _ _ H8), (init_checked_ok _ _ _ _ _ H9),
      (init_checked_ok _ _ _ _ _ H10),
      (init_checked_ok _ _ _ _ _ (Hbuf eq_refl)).
    rewrite decide_True by apply Hset. reflexivity.
  - rewrite (init_checked_ok _ _ _ _ _ Hh), (init_checked_ok _ _ _ _ _ Hw),
      (init_checked_ok _ _ _ _ _ H2), (init_checked_ok _ _ _ _ _ H3),
      (init_checked_ok _ _ _ _ _ H4), (init_checked_ok _ _ _ _ _ H5),
      (init_checked_ok _ _ _ _ _ H6), (init_checked_ok _ _ _ _ _ H7),
      (init_checked_ok _ _ _ _ _ H8), (init_checked_ok _ _ _ _ _ H9),
      (init_checked_ok _ _ _ _ _ H10).
    rewrite decide_True by apply Hset. reflexivity.
Qed.

End InitializeFacts.

(** ** The further properties on the small pipelines *)

Section SampleMore.

Import Sample SampleRest.

Lemma host_pipeline_sound : registries_sound host_pipeline.
Proof.
  split.
  - change (registered host_pipeline) with [1%positive]. apply NoDup_singleton.
  - change (registered host_pipeline) with [1%positive].
    intros p ->%list_elem_of_singleton. vm_compute. by eexists.
Qed.

Lemma release_deletes_registered_witness :
  exists w',
    release host_pipeline
    = (Ok tt, w', [EvReleaseContext 1%positive; EvDeleteImage 1%positive]) /\
    heap w' !! 1%positive = None.
Proof.
  destruct (release_deletes_registered host_pipeline host_pipeline_sound)
    as (w' & Hr & _ & Hheap).
  exists w'. split; [exact Hr|].
  rewrite Hheap. apply decide_True.
  change (registered host_pipeline) with [1%positive]. by left.
Defined.

Lemma create_image_unowned_witness :
  exists p w1 w2 e,
    create_image (info_of 4 4 3 HOST) false host_pipeline
    = (Ok p, w1, [EvNewImage p]) /\
    release w1 = (Ok tt, w2, e) /\
    is_Some (heap w2 !! p).
Proof.
  destruct (create_image_unowned host_pipeline (info_of 4 4 3 HOST)
              host_pipeline_sound)
    as (p & w1 & w2 & e & Hc & _ & _ & _ & Hr & Hp & _).
  exists p, w1, w2, e. split; [exact Hc|]. split; [exact Hr|]. by eexists.
Defined.

Lemma create_image_output_witness :
  exists p w1,
    create_image (info_of 2 1 1 HOST) true host_pipeline
    = (Ok p, w1, [EvNewImage p]) /\
    _output_images (self w1) = [1%positive; p] /\
    registries_sound w1.
Proof.
  destruct (create_image_output host_pipeline (info_of 2 1 1 HOST)
              host_pipeline_sound)
    as (p & w1 & Hc & _ & _ & Ho & _ & Hs).
  - reflexivity.
  - exists p, w1. split; [exact Hc|]. split; [exact Ho|exact Hs].
Defined.

Lemma create_loader_output_image_owned_witness :
  exists p w1,
    create_loader_output_image (info_of 2 1 1 HOST) false host_pipeline
    = (Ok p, w1, [EvNewImage p]) /\
    _internal_images (self w1) = [p] /\
    _output_images (self w1) = [1%positive] /\
    registries_sound w1.
Proof.
  destruct (create_loader_output_image_owned host_pipeline (info_of 2 1 1 HOST)
              false host_pipeline_sound)
    as (p & w1 & Hc & _ & _ & Ho & Hi & Hs).
  - reflexivity.
  - exists p, w1. split; [exact Hc|]. split; [exact Hi|]. split; [|exact Hs].
    rewrite Ho. reflexivity.
Defined.


Lemma run_refreshes_nodes_witness :
  let w := after (build 32) host_pipeline in
  _nodes (self (after run w)) = [1%nat; 1%nat] /\
  _graph_verfied (self (after run w)) = true.
Proof.
  intros w.
  destruct (run_refreshes_nodes w (after run w) OK (snd (run w)))
    as (Hn & Hf & _).
  - vm_compute. reflexivity.
  - split; [exact Hn|exact Hf].
Defined.

Lemma build_postcondition_witness :
  let w' := after (build 32) host_pipeline in
  _graph_verfied (self w') = true /\
  _output_image_info (self w') = info_of 2 1 1 HOST.
Proof.
  intros w'.
  destruct (build_postcondition 32 host_pipeline w' OK
              (snd (build 32 host_pipeline)))
    as (_ & Hf & _ & _ & front & img & Hfront & Himg & Hinfo & _).
  - vm_compute. reflexivity.
  - split; [exact Hf|]. rewrite Hinfo.
    injection Hfront as <-. vm_compute in Himg. by injection Himg as <-.
Defined.

Lemma getters_after_build_witness :
  let w' := after (build 32) host_pipeline in
  output_width w' = (Ok 2, w', []) /\ output_image_count w' = (Ok 1, w', []).
Proof.
  intros w'.
  destruct (getters_after_build 32 host_pipeline w' OK
              (snd (build 32 host_pipeline)))
    as (front & img & Hfront & Himg & Hw & _ & _ & Hc).
  - vm_compute. reflexivity.
  - injection Hfront as <-. vm_compute in Himg. injection Himg as <-.
    split; [exact Hw|exact Hc].
Defined.


Lemma remaining_images_count_sentinel_witness :
  remaining_images_count sentinel_pipeline = (Ok 7, sentinel_pipeline, []).
Proof.
  refine (eq_trans
    (remaining_images_count_sentinel sentinel_pipeline
       [mkLoader [] 3] [mkLoader [] 7] (mkLoader [] (-1)) eq_refl _ eq_refl) _).
  - apply Forall_cons. split; [vm_compute; discriminate|constructor].
  - reflexivity.
Defined.

Lemma deallocate_output_tensor_twice_witness :
  let w := after (build 32) device_pipeline in
  exists m w1 w2,
    deallocate_output_tensor w = (Ok OK, w1, [EvClReleaseMemObject m]) /\
    deallocate_output_tensor w1 = (Ok OK, w2, [EvClReleaseMemObject m]).
Proof.
  intros w.
  destruct (deallocate_output_tensor_twice w 1%positive)
    as (w1 & w2 & H1 & _ & _ & H2).
  - vm_compute. reflexivity.
  - vm_compute. reflexivity.
  - exists 1%positive, w1, w2. split; [exact H1|exact H2].
Defined.

Lemma get_ago_affinity_info_valid_witness :
  exists a, get_ago_affinity_info GPU 0 12 = Ok a /\ device_info a = 0.
Proof.
  destruct (get_ago_affinity_info_valid GPU 0 12) as (a & Ha & _ & _ & _ & Hout).
  exists a. split; [exact Ha|]. apply Hout. lia.
Defined.

Lemma MasterGraph_new_success_witness :
  MasterGraph_new (H := ok_ContextRuntime)
    (member_initialisers (info_of 0 0 0 HOST) CPU 0 ∅ ∅)
  = (Ok tt, constructed CPU 0 1%positive, [EvLog media_warning]).
Proof.
  refine (eq_trans
    (MasterGraph_new_success (H := ok_ContextRuntime) (L := Loader) (N := nat)
       (G := nat) (info_of 0 0 0 HOST) CPU 0 ∅ ∅ eq_refl _ eq_refl _) _).
  - intros a _. reflexivity.
  - discriminate.
  - reflexivity.
Defined.

Lemma MasterGraph_new_failure_witness :
  exists w',
    MasterGraph_new (H := bare_ContextRuntime)
      (member_initialisers (info_of 0 0 0 HOST) GPU 0 ∅ ∅ : SWorld)
    = (Throw "Cannot load OpenVX augmentation extension (vx_rpp), vxLoadKernels failed ",
       w', [EvReleaseContext 1%positive]) /\
    heap w' = ∅.
Proof.
  destruct (MasterGraph_new_failure (H := bare_ContextRuntime) (L := Loader)
              (N := nat) (G := nat) (info_of 0 0 0 HOST) GPU 0 ∅ ∅
              (mkAffinityInfo AGO_TARGET_AFFINITY_GPU 0) eq_refl)
    as (w' & Hn & Hh & _).
  - right. right. discriminate.
  - exists w'. split; [exact Hn|exact Hh].
Defined.

Lemma validateWarpAffine_bad_scalar_witness :
  WarpAffine.validateWarpAffine 1%positive
    [1; 2; 3; 5; 5; 6; 7; 8; 9; 10; 11]%positive 11 warp_metas
  = Ok (VX_ERROR_INVALID_TYPE, warp_metas).
Proof.
  refine (eq_trans
    (validateWarpAffine_bad_scalar 1%positive
       [1; 2; 3; 5; 5; 6; 7; 8; 9; 10; 11]%positive 11 warp_metas
       3%nat 5%positive VX_SUCCESS VX_TYPE_FLOAT32 _ _ eq_refl eq_refl _) _).
  - lia.
  - intros j Hj. assert (j = 2%nat) as -> by lia.
    exists 3%positive. split; reflexivity.
  - right. discriminate.
  - reflexivity.
Defined.

Lemma validateWarpAffine_short_array_witness :
  WarpAffine.validateWarpAffine 1%positive [1; 2; 3; 4]%positive 4 warp_metas
  = Undefined.
Proof.
  apply validateWarpAffine_short_array.
  - simpl. lia.
  - simpl. intros j Hj.
    assert (j = 2 \/ j = 3)%nat as [-> | ->] by lia;
      eexists; split; reflexivity.
Defined.

Lemma processWarpAffine_dispatch_witness :
  exists d',
    WarpAffineKernel.processWarpAffine false 1%positive warp_parameters 11
    = Ok (VX_SUCCESS, Some d',
          [WarpAffineKernel.rppi_warp_affine_u8_pkd3_host 101
             (WarpAffineKernel.mkRppiSize 640 480) 102
             (WarpAffineKernel.mkRppiSize 320 240)
             (replicate 6 (float_of_Z 1))]).
Proof.
  apply (processWarpAffine_dispatch false 1%positive warp_parameters 11
           (local_data (WarpAffineKernel.Device AGO_TARGET_AFFINITY_CPU))
           AGO_TARGET_AFFINITY_CPU
           1%positive 2%positive 3%positive 4%positive 5%positive 6%positive
           7%positive 8%positive 9%positive 10%positive [11%positive]
           VX_DF_IMAGE_RGB 480 640 101 102 320 240);
    try reflexivity.
  discriminate.
Defined.

Lemma processWarpAffine_no_return_witness :
  WarpAffineKernel.processWarpAffine true 2%positive warp_parameters 11 = Undefined.
Proof.
  apply (processWarpAffine_no_return true 2%positive warp_parameters 11
           (local_data (WarpAffineKernel.Device_other 0)) 1%positive);
    try reflexivity.
  left. by exists 0.
Defined.

Lemma build_allocation_failure_witness :
  exists w' size,
    build 32 bufferless_pipeline
    = (Throw "clCreateBuffer failed", w', [EvClCreateBuffer size]) /\
    _output_tensor (self w') = None.
Proof.
  destruct (build_allocation_failure 32 bufferless_pipeline 1%positive []
              (mkImage (info_of 2 1 1 OCL) [Byte.x61; Byte.x62]))
    as (w' & size & Hb & _ & _ & Ht & _).
  - reflexivity.
  - vm_compute. reflexivity.
  - reflexivity.
  - intros p ->%list_elem_of_singleton. eexists. split; vm_compute; reflexivity.
  - reflexivity.
  - exists w', size. split; [exact Hb|exact Ht].
Defined.

Lemma copy_out_tensor_four_planes_witness :
  fst (fst (copy_out_tensor 8 ∅ NHWC
              (float_of_Z 1) (float_of_Z 1) (float_of_Z 1)
              (float_of_Z 0) (float_of_Z 0) (float_of_Z 0) false rgba_pipeline))
  = Undefined.
Proof.
  apply (copy_out_tensor_four_planes
           (float_of_Z 1) (float_of_Z 1) (float_of_Z 1)
           (float_of_Z 0) (float_of_Z 0) (float_of_Z 0) false
           rgba_pipeline 8 ∅ NHWC 1%positive []
           (mkImage (info_of 1 1 4 HOST) [Byte.x10; Byte.x20; Byte.x30; Byte.x40])).
  all: vm_compute; try reflexivity; try lia; try (split; reflexivity).
Defined.

Lemma initializeWarpAffine_success_witness :
  exists data,
    WarpAffineKernel.initializeWarpAffine false (WarpAffineKernel.Device_other 0)
      1%positive warp_parameters 11
    = Ok (VX_SUCCESS, data, Some data) /\
    WarpAffineKernel.local_device_type data
    = WarpAffineKernel.Device AGO_TARGET_AFFINITY_CPU /\
    length (WarpAffineKernel.affine data) = 6%nat.
Proof.
  eexists. split.
  - apply (initializeWarpAffine_success false (WarpAffineKernel.Device_other 0)
             1%positive warp_parameters 11
             1%positive 2%positive 3%positive 4%positive 5%positive 6%positive
             7%positive 8%positive 9%positive 10%positive 11%positive []
             7 480 640 320 240 0);
      try reflexivity; discriminate.
  - split; reflexivity.
Defined.

End SampleMore.
